(** * The request pipeline of the WordPress REST client (src/client/api.ts)

    A shallow embedding of [WordPressClient]: URL validation at
    construction, the authentication bootstrap, and [request] with its
    retry loop, its error classification, the index.php fallback and the
    statistics record.  The network, the clock and the platform parsers are
    the environment: they are explicit in the state the operations thread. *)

From Stdlib Require Import String Ascii List ZArith QArith Lia Bool DecimalString.
From Stdlib Require Floats.PrimFloat Floats.SpecFloat Floats.FloatOps.
Import ListNotations.
Import PrimFloat.PrimFloatNotations.

Open Scope string_scope.
Open Scope Z_scope.

(** ** JavaScript strings

    Strings are [String.string] (the UTF-8 bytes of the text).  Substring
    search on bytes agrees with the search on code units for well-formed
    text.  [toLowerCase] is the ASCII part of the JavaScript function:
    letters A to Z are mapped, every other byte is kept. *)

Module JsString.

(** [s.startsWith(p)] *)
Definition startsWith (p s : string) : bool := String.prefix p s.

(** [s.includes(needle)] *)
Fixpoint includes (needle s : string) : bool :=
  if String.prefix needle s then true
  else match s with
       | EmptyString => false
       | String _ s' => includes needle s'
       end.

Definition lower_ascii (c : ascii) : ascii :=
  let n := nat_of_ascii c in
  if ((65 <=? n) && (n <=? 90))%nat then ascii_of_nat (n + 32) else c.

(** [s.toLowerCase()] *)
Fixpoint toLowerCase (s : string) : string :=
  match s with
  | EmptyString => EmptyString
  | String c s' => String (lower_ascii c) (toLowerCase s')
  end.

Fixpoint drop (n : nat) (s : string) : string :=
  match n, s with
  | O, _ => s
  | S n', String _ s' => drop n' s'
  | S _, EmptyString => EmptyString
  end.

(** [s.replace(pat, rep)] with a string pattern: the first occurrence. *)
Fixpoint replace (pat rep s : string) : string :=
  if String.prefix pat s then rep ++ drop (String.length pat) s
  else match s with
       | EmptyString => EmptyString
       | String c s' => String c (replace pat rep s')
       end.

(** [s.replace(/^\/+/, empty)]: slashes at the start are removed. *)
Fixpoint strip_leading_slashes (s : string) : string :=
  match s with
  | String "/"%char s' => strip_leading_slashes s'
  | _ => s
  end.

(** [s.endsWith("/")] *)
Fixpoint ends_with_slash (s : string) : bool :=
  match s with
  | EmptyString => false
  | String c EmptyString => Ascii.eqb c "/"%char
  | String _ s' => ends_with_slash s'
  end.

(** [s.replace(/\/$/, empty)]: one slash at the end is removed. *)
Fixpoint strip_trailing_slash (s : string) : string :=
  match s with
  | EmptyString => EmptyString
  | String c EmptyString => if Ascii.eqb c "/"%char then EmptyString else s
  | String c s' => String c (strip_trailing_slash s')
  end.

(** A number in a template literal, [`${n}`], for integers. *)
Definition of_Z (z : Z) : string := NilZero.string_of_int (Z.to_int z).

(** Truthiness of a string: the empty string is falsy. *)
Definition truthy (s : string) : bool :=
  match s with EmptyString => false | _ => true end.

(** [a || b] on strings. *)
Definition or (a b : string) : string := if truthy a then a else b.

End JsString.

Import JsString.

(** An optional string member ([undefined] is [None]); an empty string is falsy
    too. *)
Definition truthy_opt (o : option string) : bool :=
  match o with Some s => truthy s | None => false end.

(** [a || b] where the left side is an optional string. *)
Definition or_opt (a : option string) (b : string) : string :=
  match a with Some s => or s b | None => b end.

(** [a || b] on numbers, where the left side may be absent: 0 is falsy. *)
Definition or_num (a : option Z) (b : Z) : Z :=
  match a with
  | Some x => if x =? 0 then b else x
  | None => b
  end.

(** ** JavaScript numbers

    A number is an IEEE 754 double, [PrimFloat.float], with the
    operations of the kernel (round to nearest, ties to even).  Counters
    and times in milliseconds are integers and are kept as [Z]; where
    the client computes with them as numbers, [number] gives the double
    nearest to the integer. *)
Definition number (z : Z) : PrimFloat.float :=
  FloatOps.SF2Prim (SpecFloat.binary_normalize FloatOps.prec FloatOps.emax z 0 false).

(** ** Values the client handles *)

(** Request and response headers: a JavaScript object used as a map from
    header names to values, in insertion order. *)
Definition Headers := list (string * string).

Module Hdr.

Fixpoint delete (k : string) (h : Headers) : Headers :=
  match h with
  | [] => []
  | (k', v) :: h' => if String.eqb k k' then delete k h' else (k', v) :: delete k h'
  end.

(** [h[k] = v]: an existing key keeps its place. *)
Fixpoint set (k v : string) (h : Headers) : Headers :=
  match h with
  | [] => [(k, v)]
  | (k', v') :: h' => if String.eqb k k' then (k, v) :: h' else (k', v') :: set k v h'
  end.

(** [Object.assign(h, src)], also the spread [{...h, ...src}]. *)
Definition assign (h src : Headers) : Headers :=
  fold_left (fun acc kv => set (fst kv) (snd kv) acc) src h.

End Hdr.

(** A member of a JSON object, by what the error handler does with it: it
    tests its truthiness, calls its [includes] method and turns it into
    text.  [MString] is a JavaScript string; [MArray] an array, given by
    those of its elements that are strings and by its text [String(v)];
    [MOther] a number other than 0, [true] or an object, given by its text
    [String(v)]. *)
Inductive Member : Type :=
| MString (s : string)
| MArray (strings : list string) (shown : string)
| MOther (shown : string).

(** A parsed JSON document, as far as the client looks into it.  Of an
    object it reads the members [message], [error] and [token]: they are
    kept apart next to the text of the whole object.  For [message] and
    [error], [None] is a member that is absent, null, false or 0; for
    [token], [None] is a member that is absent or not a truthy string.
    [JOther] is any other value (number, boolean, array), which has none
    of these members; [JText] is a JavaScript string. *)
Inductive JSON : Type :=
| JNull
| JText (s : string)
| JObject (message error : option Member) (token : option string) (src : string)
| JOther (src : string).

(** Error classes.  [WordPressAPIError], [AuthenticationError] and
    [RateLimitError] are declared in types/client; each keeps the message it
    is given, and the last two extend the first. *)
Inductive ErrorClass : Type :=
| PlainError
| APIError (statusCode : option Z)
| AuthError (method : option string)
| RateLimit (retryAfter : Z).

Record JsError : Type := mkError {
  cls : ErrorClass;
  name : string;
  message : string
}.

Definition new_Error (msg : string) : JsError := mkError PlainError "Error" msg.
Definition new_TypeError (msg : string) : JsError := mkError PlainError "TypeError" msg.

(** Modelled from the spec: the error classes of types/client, which are not
    in this part of the repository.  RateLimitError carries a retry-after
    estimate, AuthenticationError the authentication method, the API error
    an optional status code. *)
Definition WordPressAPIError (msg : string) (status : option Z) : JsError :=
  mkError (APIError status) "WordPressAPIError" msg.
Definition AuthenticationError (msg : string) (method : option string) : JsError :=
  mkError (AuthError method) "AuthenticationError" msg.
Definition RateLimitError (msg : string) (retryAfter : Z) : JsError :=
  mkError (RateLimit retryAfter) "RateLimitError" msg.

(** [e instanceof RateLimitError] *)
Definition is_RateLimitError (e : JsError) : bool :=
  match cls e with RateLimit _ => true | _ => false end.

(** What a [throw] carries: an Error object or, rarely, another value. *)
Inductive Thrown : Type :=
| ThrownError (e : JsError)
| ThrownString (s : string)
| ThrownOther.

(** [t instanceof RateLimitError] for a caught value. *)
Definition is_RateLimit_thrown (t : Thrown) : bool :=
  match t with ThrownError e => is_RateLimitError e | _ => false end.

(** Truthiness of a member that is present: only the empty string is
    falsy. *)
Definition member_truthy (m : Member) : bool :=
  match m with MString s => truthy s | _ => true end.

(** [a || b] where the left side is a member that may be absent. *)
Definition member_or (a : option Member) (b : Member) : Member :=
  match a with
  | Some m => if member_truthy m then m else b
  | None => b
  end.

(** [String(v)]: the text a template literal shows, and the message an
    Error constructed with [v] carries. *)
Definition member_text (m : Member) : string :=
  match m with
  | MString s => s
  | MArray _ shown | MOther shown => shown
  end.

(** [v.includes(needle)] with a string [needle]: the substring test of a
    string, the element test of an array, and a TypeError for a value
    that has no such method. *)
Definition member_includes (needle : string) (m : Member) : Thrown + bool :=
  match m with
  | MString s => inr (includes needle s)
  | MArray strings _ => inr (existsb (String.eqb needle) strings)
  | MOther _ => inl (ThrownError (new_TypeError "errorMessage.includes is not a function"))
  end.

(** An HTTP response with its body read: [parsed] is what JSON.parse makes
    of [text] (a value, or the message of the SyntaxError it throws).  A
    response whose body cannot be read reaches the same handler as a fetch
    that rejects, with no change of state in between, and is represented as
    a rejected fetch. *)
Record Response : Type := mkResponse {
  status : Z;
  statusText : string;
  text : string;
  parsed : JSON + string
}.

(** [response.ok] *)
Definition ok (r : Response) : bool := (200 <=? status r) && (status r <=? 299).

(** What one call of fetch does: it takes [latency] milliseconds and then
    resolves with a response or rejects. *)
Inductive FetchOutcome : Type :=
| Resolves (latency : N) (r : Response)
| Rejects (latency : N) (t : Thrown).

Definition latency_of (o : FetchOutcome) : Z :=
  match o with Resolves l _ | Rejects l _ => Z.of_N l end.

(** The [data] argument of [request], by the runtime shapes the client
    tells apart. *)
Record JsObject : Type := mkObject {
  pipe_is_function : bool;
  append_is_function : bool;
  getHeaders : option Headers;        (* [Some h]: a function returning [h] *)
  stringify : string + string         (* JSON.stringify: text, or the TypeError message *)
}.

Inductive RequestData : Type :=
| DNull                               (* null or undefined *)
| DString (s : string)
| DBuffer (bytes : string)
| DFormData (formHeaders : Headers)   (* an instance of FormData *)
| DObject (o : JsObject).

Definition data_truthy (d : RequestData) : bool :=
  match d with
  | DNull => false
  | DString s => truthy s
  | _ => true
  end.

(** A request body: a text, the [data] object itself, or the JSON text of
    an object literal given by its members. *)
Inductive Payload : Type :=
| PText (s : string)
| PData (d : RequestData)
| PJson (members : list (string * option string)).

Record FetchOptions : Type := mkFetchOptions {
  fo_method : string;
  fo_headers : Headers;
  fo_body : option Payload
}.

Record RequestOptions : Type := mkRequestOptions {
  opt_headers : option Headers;
  opt_retries : option Z;       (* [Some n] when [typeof retries === "number"] *)
  opt_timeout : option Z
}.

Definition no_options : RequestOptions := mkRequestOptions None None None.

Record AuthConfig : Type := mkAuth {
  auth_method : option string;
  username : option string;
  appPassword : option string;
  password : option string;
  secret : option string;
  apiKey : option string;
  nonce : option string
}.

Record ClientStats : Type := mkStats {
  totalRequests : Z;
  successfulRequests : Z;
  failedRequests : Z;
  averageResponseTime : PrimFloat.float;
  rateLimitHits : Z;
  authFailures : Z;
  errors : Z;
  stats_lastRequestTime : option Z
}.

Record Client : Type := mkClient {
  baseUrl : string;
  apiUrl : string;
  timeout : Z;
  maxRetries : Z;
  auth : AuthConfig;
  lastRequestTime : Z;
  requestInterval : Z;
  authenticated : bool;
  jwtToken : option string;
  _stats : ClientStats
}.

(** ** The environment *)

Inductive FetchKind : Type :=
| Primary (attempt : Z)
| Fallback
| TokenRequest.

Inductive DelayReason : Type := Backoff | RateLimitWait.

(** What a run leaves behind, oldest first.  [EvAttempt i] marks the start
    of the pass of the retry loop with [attempt = i]. *)
Inductive Event : Type :=
| EvAttempt (attempt : Z)
| EvFetch (k : FetchKind) (url : string) (opts : FetchOptions) (o : FetchOutcome)
| EvDelay (why : DelayReason) (ms : Z)
| EvResponseTime (duration : Z).

(** The clock ([Date.now()], in milliseconds), the outcomes of the fetches
    to come, and the events so far. *)
Record World : Type := mkWorld {
  now : Z;
  net : list FetchOutcome;
  log : list Event
}.

Record State : Type := mkState {
  client : Client;
  world : World
}.

(** ** Effects: state and exceptions

    A computation runs in a state and either returns or throws; the state
    it leaves is kept in both cases, as assignments made before a [throw]
    stay made. *)

Inductive Result (A : Type) : Type :=
| Ok (a : A)
| Throw (t : Thrown).
Arguments Ok {A} a.
Arguments Throw {A} t.

Definition M (A : Type) : Type := State -> Result A * State.

Definition ret {A} (a : A) : M A := fun s => (Ok a, s).

Definition bind {A B} (c : M A) (k : A -> M B) : M B :=
  fun s => match c s with
           | (Ok a, s') => k a s'
           | (Throw t, s') => (Throw t, s')
           end.

Definition throw {A} (t : Thrown) : M A := fun s => (Throw t, s).
Definition throw_error {A} (e : JsError) : M A := throw (ThrownError e).

(** [try { c } catch (e) { h e }] *)
Definition try_catch {A} (c : M A) (h : Thrown -> M A) : M A :=
  fun s => match c s with
           | (Ok a, s') => (Ok a, s')
           | (Throw t, s') => h t s'
           end.

Definition gets {A} (f : Client -> A) : M A := fun s => (Ok (f (client s)), s).

Definition modify_client (f : Client -> Client) : M unit :=
  fun s => (Ok tt, mkState (f (client s)) (world s)).

Definition modify_world (f : World -> World) : M unit :=
  fun s => (Ok tt, mkState (client s) (f (world s))).

Declare Scope js_scope.
Delimit Scope js_scope with js.
Notation "x <- c ;; k" := (bind c (fun x => k))
  (at level 61, c at next level, right associativity) : js_scope.
Notation "c ;;; k" := (bind c (fun _ => k))
  (at level 61, right associativity) : js_scope.
Open Scope js_scope.

(** ** Platform and configuration *)

(** A parsed URL (the WHATWG [URL] object): the members the client reads.
    [searchParams] is [url.searchParams.toString()]. *)
Record URL : Type := mkURL {
  protocol : string;
  host : string;
  hostname : string;
  pathname : string;
  origin : string;
  searchParams : string
}.

(** Platform functions the client calls: [new URL(s)] ([None] when it throws
    a TypeError), base64 encoding of a string, and the User-Agent text of
    utils/version. *)
Record Platform : Type := mkPlatform {
  URL_parse : string -> option URL;
  base64 : string -> string;
  getUserAgent : string
}.

(** The configuration object [config()] of config/Config, by the members the
    client reads.  [cfg_rateLimit] is in requests per minute. *)
Record Config : Type := mkConfig {
  siteUrl : option string;
  cfg_timeout : Z;
  cfg_maxRetries : Z;
  authMethod : option string;
  wp_username : option string;
  wp_appPassword : option string;
  wp_password : option string;
  jwtSecret : option string;
  wp_apiKey : option string;
  cookieNonce : option string;
  cfg_rateLimit : Z;
  isProduction : bool
}.

Record ClientOptions : Type := mkClientOptions {
  o_baseUrl : option string;
  o_timeout : option Z;
  o_maxRetries : option Z;
  o_auth : option AuthConfig
}.

(** The hostname tests of [validateAndSanitizeUrl]. *)

(** [/^172\.(1[6-9]|2[0-9]|3[01])\./] *)
Definition match_172 (h : string) : bool :=
  match h with
  | String "1" (String "7" (String "2" (String "." (String a (String b (String "." _)))))) =>
      let d := nat_of_ascii b in
      match a with
      | "1"%char => ((54 <=? d) && (d <=? 57))%nat
      | "2"%char => ((48 <=? d) && (d <=? 57))%nat
      | "3"%char => ((48 <=? d) && (d <=? 49))%nat
      | _ => false
      end
  | _ => false
  end.

Definition is_private_host (hostname : string) : bool :=
  String.eqb hostname "localhost"
  || String.eqb hostname "127.0.0.1"
  || String.eqb hostname "::1"
  || startsWith "10." hostname           (* /^10\./ *)
  || match_172 hostname
  || startsWith "192.168." hostname.     (* /^192\.168\./ *)

Definition empty_stats : ClientStats :=
  mkStats 0 0 0 PrimFloat.zero 0 0 0 None.

Definition getAuthFromEnv (cfg : Config) : AuthConfig :=
  let none := mkAuth None None None None None None None in
  if match authMethod cfg with Some m => String.eqb m "app-password" | None => false end
     && truthy_opt (wp_username cfg) && truthy_opt (wp_appPassword cfg)
  then mkAuth (Some "app-password") (wp_username cfg) (wp_appPassword cfg) None None None None
  else if truthy_opt (wp_username cfg) && truthy_opt (wp_appPassword cfg)
  then mkAuth (Some "app-password") (wp_username cfg) (wp_appPassword cfg) None None None None
  else if truthy_opt (jwtSecret cfg) && truthy_opt (wp_username cfg) && truthy_opt (wp_password cfg)
  then mkAuth (Some "jwt") (wp_username cfg) None (wp_password cfg) (jwtSecret cfg) None None
  else if truthy_opt (wp_apiKey cfg)
  then mkAuth (Some "api-key") None None None None (wp_apiKey cfg) None
  else if truthy_opt (cookieNonce cfg)
  then mkAuth (Some "cookie") None None None None None (cookieNonce cfg)
  else mkAuth (Some "basic")
         (Some (or_opt (wp_username cfg) EmptyString))
         None
         (Some (or_opt (wp_password cfg) (or_opt (wp_appPassword cfg) EmptyString)))
         None None None.

Definition with_method (a : AuthConfig) (m : string) : AuthConfig :=
  mkAuth (Some m) (username a) (appPassword a) (password a) (secret a) (apiKey a) (nonce a).

(** The authentication part of the constructor: a method that is missing
    is inferred from the credentials present. *)
Definition resolve_auth (cfg : Config) (o : option AuthConfig) : AuthConfig :=
  match o with
  | Some a =>
      if negb (truthy_opt (auth_method a)) then
        if truthy_opt (username a) && truthy_opt (appPassword a) then with_method a "app-password"
        else if truthy_opt (username a) && truthy_opt (password a) && truthy_opt (secret a)
        then with_method a "jwt"
        else if truthy_opt (username a) && truthy_opt (password a) then with_method a "basic"
        else if truthy_opt (apiKey a) then with_method a "api-key"
        else with_method a "app-password"
      else a
  | None => getAuthFromEnv cfg
  end.

Definition set_lastRequestTime (t : Z) (c : Client) : Client :=
  mkClient (baseUrl c) (apiUrl c) (timeout c) (maxRetries c) (auth c) t
    (requestInterval c) (authenticated c) (jwtToken c) (_stats c).

Definition set_session (a : bool) (tok : option string) (c : Client) : Client :=
  mkClient (baseUrl c) (apiUrl c) (timeout c) (maxRetries c) (auth c) (lastRequestTime c)
    (requestInterval c) a tok (_stats c).

Definition set_stats (f : ClientStats -> ClientStats) (c : Client) : Client :=
  mkClient (baseUrl c) (apiUrl c) (timeout c) (maxRetries c) (auth c) (lastRequestTime c)
    (requestInterval c) (authenticated c) (jwtToken c) (f (_stats c)).

(** The statements [this._stats.x++]. *)
Definition incr_totalRequests (s : ClientStats) : ClientStats :=
  mkStats (totalRequests s + 1) (successfulRequests s) (failedRequests s)
    (averageResponseTime s) (rateLimitHits s) (authFailures s) (errors s) (stats_lastRequestTime s).
Definition incr_successfulRequests (s : ClientStats) : ClientStats :=
  mkStats (totalRequests s) (successfulRequests s + 1) (failedRequests s)
    (averageResponseTime s) (rateLimitHits s) (authFailures s) (errors s) (stats_lastRequestTime s).
Definition incr_failedRequests (s : ClientStats) : ClientStats :=
  mkStats (totalRequests s) (successfulRequests s) (failedRequests s + 1)
    (averageResponseTime s) (rateLimitHits s) (authFailures s) (errors s) (stats_lastRequestTime s).
Definition incr_rateLimitHits (s : ClientStats) : ClientStats :=
  mkStats (totalRequests s) (successfulRequests s) (failedRequests s)
    (averageResponseTime s) (rateLimitHits s + 1) (authFailures s) (errors s) (stats_lastRequestTime s).
Definition incr_authFailures (s : ClientStats) : ClientStats :=
  mkStats (totalRequests s) (successfulRequests s) (failedRequests s)
    (averageResponseTime s) (rateLimitHits s) (authFailures s + 1) (errors s) (stats_lastRequestTime s).

(** The assignments of [updateAverageResponseTime]. *)
Definition record_response_time (duration t : Z) (s : ClientStats) : ClientStats :=
  let totalSuccessful := successfulRequests s in
  mkStats (totalRequests s) (successfulRequests s) (failedRequests s)
    ((averageResponseTime s * number (totalSuccessful - 1) + number duration)
       / number totalSuccessful)%float
    (rateLimitHits s) (authFailures s) (errors s) (Some t).

(** ** The client *)

Section Client.

Variable P : Platform.

(** *** Construction *)

Definition validateAndSanitizeUrl (production : bool) (url : string) : JsError + string :=
  if negb (truthy url) then inl (new_Error "WordPress site URL is required")
  else
    match URL_parse P url with
    | None => inl (new_Error "Invalid WordPress site URL format")
    | Some parsed =>
        if negb (String.eqb (protocol parsed) "http:" || String.eqb (protocol parsed) "https:")
        then inl (new_Error "Only HTTP and HTTPS protocols are allowed")
        else if production && is_private_host (toLowerCase (hostname parsed))
        then inl (new_Error "Private/localhost URLs not allowed in production")
        else inr (strip_trailing_slash (protocol parsed ++ "//" ++ host parsed ++ pathname parsed))
    end.

(** [validateConfig]: the client with its final [baseUrl] and [apiUrl]. *)
Definition validateConfig (c : Client) : JsError + Client :=
  if negb (truthy (baseUrl c))
  then inl (new_Error "WordPress configuration is incomplete: baseUrl is required")
  else
    let b := strip_trailing_slash (baseUrl c) in
    inr (mkClient b (b ++ "/wp-json/wp/v2") (timeout c) (maxRetries c) (auth c)
           (lastRequestTime c) (requestInterval c) (authenticated c) (jwtToken c) (_stats c)).

(** [new WordPressClient(options)].  The interval between requests,
    [60000 / rateLimit], is taken in whole milliseconds. *)
Definition constructor (cfg : Config) (options : ClientOptions) : JsError + Client :=
  let url := or_opt (o_baseUrl options) (or_opt (siteUrl cfg) EmptyString) in
  match validateAndSanitizeUrl (isProduction cfg) url with
  | inl e => inl e
  | inr b =>
      validateConfig
        (mkClient b EmptyString
           (or_num (o_timeout options) (cfg_timeout cfg))
           (or_num (o_maxRetries options) (cfg_maxRetries cfg))
           (resolve_auth cfg (o_auth options))
           0 (60000 / cfg_rateLimit cfg) false None empty_stats)
  end.

(** *** Clock, timers and network *)

(** An entry in the event log; it changes nothing else. *)
Definition mark (ev : Event) : M unit :=
  modify_world (fun w => mkWorld (now w) (net w) (log w ++ [ev])).

Definition Date_now : M Z := fun s => (Ok (now (world s)), s).

(** [delay(ms)]: the timer is taken to fire after [ms] milliseconds.
    [why] names the call site, only for the event log. *)
Definition delay (why : DelayReason) (ms : Z) : M unit :=
  modify_world (fun w => mkWorld (now w + ms) (net w) (log w ++ [EvDelay why ms])).

(** [fetch(url, options)]: the next outcome of the network.  With no
    outcome left the fetch rejects at once, as a network failure. *)
Definition fetch (k : FetchKind) (url : string) (opts : FetchOptions) : M Response :=
  fun s =>
    let w := world s in
    let o := match net w with
             | o :: _ => o
             | [] => Rejects 0 (ThrownError (new_TypeError "fetch failed"))
             end in
    let w' := mkWorld (now w + latency_of o) (tl (net w)) (log w ++ [EvFetch k url opts o]) in
    match o with
    | Resolves _ r => (Ok r, mkState (client s) w')
    | Rejects _ t => (Throw t, mkState (client s) w')
    end.

(** [startTimer()] of utils/debug is taken to read the clock, and
    [timer.end()] to return the milliseconds since. *)
Definition startTimer : M Z := Date_now.
Definition timer_end (timer : Z) : M Z :=
  t <- Date_now ;; ret (t - timer).

Definition rateLimit : M unit :=
  t <- Date_now ;;
  last <- gets lastRequestTime ;;
  interval <- gets requestInterval ;;
  let timeSinceLastRequest := t - last in
  (if timeSinceLastRequest <? interval
   then delay RateLimitWait (interval - timeSinceLastRequest)
   else ret tt) ;;;
  t' <- Date_now ;;
  modify_client (set_lastRequestTime t').

(** *** Authentication headers *)

Definition basic_credentials (user pass : option string) : string :=
  "Basic " ++ base64 P (or_opt user EmptyString ++ ":" ++ or_opt pass EmptyString).

Definition addAuthHeaders (c : Client) (headers : Headers) : Headers :=
  let a := auth c in
  match option_map toLowerCase (auth_method a) with
  | Some "app-password" =>
      if truthy_opt (username a) && truthy_opt (appPassword a)
      then Hdr.set "Authorization" (basic_credentials (username a) (appPassword a)) headers
      else headers
  | Some "basic" =>
      if truthy_opt (username a) && truthy_opt (password a)
      then Hdr.set "Authorization" (basic_credentials (username a) (password a)) headers
      else headers
  | Some "jwt" =>
      if truthy_opt (jwtToken c)
      then Hdr.set "Authorization" ("Bearer " ++ or_opt (jwtToken c) EmptyString) headers
      else headers
  | Some "api-key" =>
      if truthy_opt (apiKey a) then Hdr.set "X-API-Key" (or_opt (apiKey a) EmptyString) headers
      else headers
  | Some "cookie" =>
      if truthy_opt (nonce a) then Hdr.set "X-WP-Nonce" (or_opt (nonce a) EmptyString) headers
      else headers
  | _ => headers
  end.

(** *** Statistics *)

Definition updateAverageResponseTime (duration : Z) : M unit :=
  t <- Date_now ;;
  modify_client (set_stats (record_response_time duration t)) ;;;
  mark (EvResponseTime duration).

(** The three statements that every successful exit runs. *)
Definition count_success (timer : Z) : M unit :=
  modify_client (set_stats incr_successfulRequests) ;;;
  duration <- timer_end timer ;;
  updateAverageResponseTime duration.

(** *** The request pipeline *)

Definition normalizeRequestError (error : Thrown) (timeout : Z) : JsError :=
  match error with
  | ThrownError e =>
      if String.eqb (name e) "AbortError"
      then new_Error ("Request timeout after " ++ of_Z timeout ++ "ms")
      else if includes "socket hang up" (message e) || includes "ECONNRESET" (message e)
      then new_Error ("Network connection lost during request: " ++ message e)
      else e
  | ThrownString s => new_Error s
  | ThrownOther => new_Error "Unknown error"
  end.

Definition shouldRetryError (error : JsError) : bool :=
  let message := toLowerCase (message error) in
  if includes "401" message || includes "403" message then false
  else if includes "timeout" message then false
  else if includes "network connection lost" message then false
  else true.

Definition isRetryableBody (data : RequestData) : bool :=
  match data with
  | DNull => true
  | DString _ | DBuffer _ => true
  | DFormData _ => false
  | DObject o => if pipe_is_function o then false else true
  end.

(** [attachRequestBody]: the headers and the body it leaves in
    [fetchOptions], or what it throws. *)
Definition attachRequestBody (headers : Headers) (data : RequestData)
  : Thrown + (Headers * Payload) :=
  match data with
  | DFormData formHeaders => inr (Hdr.assign headers formHeaders, PData data)
  | DObject o =>
      if append_is_function o then
        match getHeaders o with
        | Some formHeaders => inr (Hdr.assign headers formHeaders, PData data)
        | None => inr (Hdr.delete "Content-Type" headers, PData data)
        end
      else
        match stringify o with
        | inl json => inr (headers, PText json)
        | inr msg => inl (ThrownError (new_TypeError msg))
        end
  | DBuffer _ => inr (headers, PData data)
  | DString s => inr (headers, PText s)
  | DNull => inr (headers, PText "null")
  end.

(** The value [errorMessage] that [handleErrorResponseWithFallback]
    extracts from an error response; the source declares it a string, and
    a JSON body can make it any truthy member.  Reading a member of [null]
    throws, which the [catch] of the parse handles like a body that is not
    JSON. *)
Definition error_message_value (r : Response) : Member :=
  match parsed r with
  | inl (JObject message error _ _) =>
      member_or message (member_or error (MString ("HTTP " ++ of_Z (status r))))
  | inl JNull | inr _ =>
      MString (or (text r) ("HTTP " ++ of_Z (status r) ++ ": " ++ statusText r))
  | inl _ => MString ("HTTP " ++ of_Z (status r))
  end.

(** [errorMessage] as text: the message of the errors constructed with it,
    and what [`${errorMessage}`] shows. *)
Definition error_message (r : Response) : string :=
  member_text (error_message_value r).

Definition fallback_url (u : URL) : string :=
  let endpointPath := replace "/wp-json/wp/v2" EmptyString (pathname u) in
  let queryParams := searchParams u in
  let fallbackUrl := origin u ++ "/index.php?rest_route=/wp/v2" ++ endpointPath in
  if truthy queryParams then fallbackUrl ++ "&" ++ queryParams else fallbackUrl.

(** [None] is the [undefined] the source returns when the fallback does
    not yield a result. *)
Definition tryIndexPhpFallback (url : string) (requestTimeout : Z)
    (fetchOptions : FetchOptions) (timer : Z) : M (option JSON) :=
  try_catch
    (match URL_parse P url with
     | None => throw_error (new_TypeError "Invalid URL")
     | Some urlObj =>
         fallbackResponse <- fetch Fallback (fallback_url urlObj) fetchOptions ;;
         if negb (ok fallbackResponse) then ret None
         else
           let responseText := text fallbackResponse in
           if negb (truthy responseText) then
             count_success timer ;;; ret (Some JNull)
           else
             match parsed fallbackResponse with
             | inr msg => throw_error (mkError PlainError "SyntaxError" msg)
             | inl result => count_success timer ;;; ret (Some result)
             end
     end)
    (fun fallbackError => ret None).

Definition media_blocked_message (errorMessage : string) : string :=
  "Media upload blocked: WordPress REST API media uploads appear to be disabled or restricted by a plugin/security policy. "
  ++ "Error: " ++ errorMessage ++ ". "
  ++ "Common causes: W3 Total Cache, security plugins, or custom REST API restrictions. "
  ++ "Please check WordPress admin settings or contact your system administrator.".

Definition media_restricted_message (errorMessage : string) : string :=
  "WordPress REST API media upload restriction detected: " ++ errorMessage ++ ". "
  ++ "This typically indicates that media uploads via REST API are disabled by WordPress configuration, "
  ++ "a security plugin (like W3 Total Cache, Borlabs Cookie), or server policy. "
  ++ "User has sufficient permissions but WordPress/plugins are blocking the upload.".

(** [None] is [undefined]. *)
Definition handleErrorResponseWithFallback (response : Response) (url originalEndpoint : string)
    (requestTimeout : Z) (fetchOptions : FetchOptions) (timer : Z) : M (option JSON) :=
  let errorMessage := error_message response in
  if status response =? 429 then
    modify_client (set_stats incr_rateLimitHits) ;;;
    t <- Date_now ;;
    throw_error (RateLimitError errorMessage (t + 60000))
  else if (status response =? 403) && includes "media" originalEndpoint
          && String.eqb (fo_method fetchOptions) "POST" then
    m <- gets (fun c => auth_method (auth c)) ;;
    throw_error (AuthenticationError (media_blocked_message errorMessage) m)
  else
    match member_includes "Beiträge zu erstellen" (error_message_value response) with
    | inl typeError => throw typeError
    | inr found =>
        if found && includes "media" originalEndpoint then
          m <- gets (fun c => auth_method (auth c)) ;;
          throw_error (AuthenticationError (media_restricted_message errorMessage) m)
        else
          fallbackResult <-
            (if (status response =? 404) && includes "/wp-json/wp/v2" url
             then tryIndexPhpFallback url requestTimeout fetchOptions timer
             else ret None) ;;
          match fallbackResult with
          | Some v => ret (Some v)
          | None => throw_error (WordPressAPIError errorMessage (Some (status response)))
          end
    end.

Definition is_auth_endpoint (endpoint : string) : bool :=
  includes "users/me" endpoint || includes "jwt-auth" endpoint.

Definition parseResponse (response : Response) (endpoint : string) (timer : Z) : M JSON :=
  let responseText := text response in
  if negb (truthy responseText) then
    count_success timer ;;; ret JNull
  else
    match parsed response with
    | inl result => count_success timer ;;; ret result
    | inr parseError =>
        if is_auth_endpoint endpoint
        then throw_error (WordPressAPIError ("Invalid JSON response: " ++ parseError) None)
        else count_success timer ;;; ret (JText responseText)
    end.

(** The locals of [request] that the loop reads. *)
Record Locals : Type := mkLocals {
  l_method : string;
  l_endpoint : string;
  l_data : RequestData;
  l_url : string;
  l_baseHeaders : Headers;
  l_requestTimeout : Z;
  l_maxAttempts : Z;
  l_timer : Z
}.

(** How one pass through the body of the [for] loop ends. *)
Inductive Step : Type :=
| Return (v : JSON)
| Break (lastError : JsError)
| Continue (lastError : JsError).

Definition sends_body (method : string) : bool :=
  String.eqb method "POST" || String.eqb method "PUT" || String.eqb method "PATCH".

(** The statements of the [try] block after the fetch has resolved. *)
Definition on_response (L : Locals) (fetchOptions : FetchOptions) (lastError : JsError)
    (response : Response) : M Step :=
  if negb (ok response) then
    fallbackResult <-
      handleErrorResponseWithFallback response (l_url L) (l_endpoint L)
        (l_requestTimeout L) fetchOptions (l_timer L) ;;
    match fallbackResult with
    | Some v => ret (Return v)
    | None => ret (Continue lastError)
    end
  else
    result <- parseResponse response (l_endpoint L) (l_timer L) ;;
    ret (Return result).

(** The [catch] block of the loop. *)
Definition on_error (L : Locals) (attempt : Z) (lastError : JsError) (_error : Thrown)
  : M Step :=
  if is_RateLimit_thrown _error then
    match _error with ThrownError e => ret (Break e) | _ => ret (Break lastError) end
  else
    let lastError := normalizeRequestError _error (l_requestTimeout L) in
    let shouldRetry := shouldRetryError lastError && (attempt <? l_maxAttempts L - 1) in
    if negb shouldRetry then ret (Break lastError)
    else delay Backoff (1000 * (attempt + 1)) ;;; ret (Continue lastError).

(** What the loop puts into [fetchOptions]: headers and body, or the
    exception of [attachRequestBody]. *)
Definition prepare (L : Locals) : Thrown + FetchOptions :=
  let headers := l_baseHeaders L in
  if data_truthy (l_data L) && sends_body (l_method L) then
    match attachRequestBody headers (l_data L) with
    | inl t => inl t
    | inr (h, b) => inr (mkFetchOptions (l_method L) h (Some b))
    end
  else inr (mkFetchOptions (l_method L) headers None).

(** The body of the loop for one value of [attempt].  A [throw] of
    [attachRequestBody] is outside the [try] and leaves [request].  The
    first line only records the pass in the event log. *)
Definition attempt_once (L : Locals) (attempt : Z) (lastError : JsError) : M Step :=
  mark (EvAttempt attempt) ;;;
  rateLimit ;;;
  match prepare L with
  | inl t => throw t
  | inr fetchOptions =>
      try_catch
        (response <- fetch (Primary attempt) (l_url L) fetchOptions ;;
         on_response L fetchOptions lastError response)
        (on_error L attempt lastError)
  end.

Definition failure_message (L : Locals) (lastError : JsError) : string :=
  "Request failed after " ++ of_Z (l_maxAttempts L) ++ " attempt"
  ++ (if l_maxAttempts L =? 1 then EmptyString else "s") ++ ": " ++ message lastError.

(** The statements after the loop. *)
Definition fail_request (L : Locals) (lastError : JsError) : M JSON :=
  modify_client (set_stats incr_failedRequests) ;;;
  _ <- timer_end (l_timer L) ;;
  throw_error (WordPressAPIError (failure_message L lastError) None).

(** The loop [for (attempt; attempt < maxAttempts; attempt++)] from a
    given value of [attempt] on, followed by the statements after it.
    [fuel] bounds the passes; [request] gives as many as the loop can make. *)
Fixpoint attempts (L : Locals) (fuel : nat) (attempt : Z) (lastError : JsError) : M JSON :=
  if attempt <? l_maxAttempts L then
    match fuel with
    | O => fail_request L lastError
    | S fuel' =>
        step <- attempt_once L attempt lastError ;;
        match step with
        | Return v => ret v
        | Break e => fail_request L e
        | Continue e => attempts L fuel' (attempt + 1) e
        end
    end
  else fail_request L lastError.

Definition configuredRetries (retryOverride : option Z) (maxRetries : Z) : Z :=
  match retryOverride with
  | Some r => if 0 <? r then r else or_num (Some maxRetries) 1
  | None => or_num (Some maxRetries) 1
  end.

Definition maxAttempts_of (c : Client) (data : RequestData) (options : RequestOptions) : Z :=
  let canRetryBody := isRetryableBody data in
  if canRetryBody then configuredRetries (opt_retries options) (maxRetries c) else 1.

Definition request_url (c : Client) (endpoint : string) : string :=
  let cleanEndpoint := strip_leading_slashes endpoint in
  if startsWith "http" endpoint then endpoint else apiUrl c ++ "/" ++ cleanEndpoint.

Definition request_headers (c : Client) (options : RequestOptions) : Headers :=
  addAuthHeaders c
    (Hdr.assign [("Content-Type", "application/json"); ("User-Agent", getUserAgent P)]
       (match opt_headers options with Some h => h | None => [] end)).

Definition locals_of (c : Client) (timer : Z) (method endpoint : string)
    (data : RequestData) (options : RequestOptions) : Locals :=
  mkLocals method endpoint data (request_url c endpoint) (request_headers c options)
    (or_num (opt_timeout options) (timeout c)) (maxAttempts_of c data options) timer.

Definition request (method endpoint : string) (data : RequestData) (options : RequestOptions)
  : M JSON :=
  timer <- startTimer ;;
  modify_client (set_stats incr_totalRequests) ;;;
  c <- gets (fun c => c) ;;
  let L := locals_of c timer method endpoint data options in
  attempts L (Z.to_nat (l_maxAttempts L)) 0 (new_Error "Unknown error").

(** The locals of a call of [request] made in state [s]. *)
Definition request_locals (s : State) (method endpoint : string) (data : RequestData)
    (options : RequestOptions) : Locals :=
  locals_of (client s) (now (world s)) method endpoint data options.

Definition get (endpoint : string) (options : RequestOptions) : M JSON :=
  request "GET" endpoint DNull options.
Definition post (endpoint : string) (data : RequestData) (options : RequestOptions) : M JSON :=
  request "POST" endpoint data options.
Definition put (endpoint : string) (data : RequestData) (options : RequestOptions) : M JSON :=
  request "PUT" endpoint data options.
Definition patch (endpoint : string) (data : RequestData) (options : RequestOptions) : M JSON :=
  request "PATCH" endpoint data options.
Definition delete (endpoint : string) (options : RequestOptions) : M JSON :=
  request "DELETE" endpoint DNull options.

(** *** Authentication *)

(** [(e as Error).message] *)
Definition thrown_message (t : Thrown) : string :=
  match t with ThrownError e => message e | _ => "undefined" end.

Definition authenticateWithBasic : M bool :=
  a <- gets auth ;;
  let is_app := match auth_method a with Some m => String.eqb m "app-password" | None => false end in
  let hasCredentials :=
    truthy_opt (username a) && truthy_opt (if is_app then appPassword a else password a) in
  if negb hasCredentials then
    let methodName := if is_app then "Application Password" else "Basic" in
    let passwordField := if is_app then "app password" else "password" in
    throw_error
      (AuthenticationError
         ("Username and " ++ passwordField ++ " are required for " ++ methodName ++ " authentication")
         (auth_method a))
  else
    try_catch
      (_ <- request "GET" "users/me" DNull no_options ;;
       modify_client (fun c => set_session true (jwtToken c) c) ;;;
       ret true)
      (fun _error =>
         throw_error
           (AuthenticationError ("Basic authentication failed: " ++ thrown_message _error)
              (auth_method a))).

Definition authenticateWithJWT : M bool :=
  a <- gets auth ;;
  if negb (truthy_opt (secret a)) || negb (truthy_opt (username a)) || negb (truthy_opt (password a))
  then
    throw_error
      (AuthenticationError "JWT secret, username, and password are required for JWT authentication"
         (auth_method a))
  else
    try_catch
      (b <- gets baseUrl ;;
       response <-
         fetch TokenRequest (b ++ "/wp-json/jwt-auth/v1/token")
           (mkFetchOptions "POST" [("Content-Type", "application/json")]
              (Some (PJson [("username", username a); ("password", password a)]))) ;;
       if negb (ok response) then
         throw_error (new_Error ("HTTP " ++ of_Z (status response) ++ ": " ++ statusText response))
       else
         match parsed response with
         | inr msg => throw_error (mkError PlainError "SyntaxError" msg)
         | inl JNull => throw_error (new_TypeError "Cannot read properties of null (reading 'token')")
         | inl data =>
             let token := match data with JObject _ _ t _ => t | _ => None end in
             modify_client (set_session true token) ;;;
             ret true
         end)
      (fun _error =>
         throw_error
           (AuthenticationError ("JWT authentication failed: " ++ thrown_message _error)
              (auth_method a))).

Definition authenticateWithCookie : M bool :=
  a <- gets auth ;;
  if negb (truthy_opt (nonce a)) then
    throw_error (AuthenticationError "Nonce is required for cookie authentication" (auth_method a))
  else
    modify_client (fun c => set_session true (jwtToken c) c) ;;;
    ret true.

Definition authenticate : M bool :=
  method <- gets (fun c => option_map toLowerCase (auth_method (auth c))) ;;
  try_catch
    (match method with
     | Some "app-password" | Some "basic" => authenticateWithBasic
     | Some "jwt" => authenticateWithJWT
     | Some "cookie" => authenticateWithCookie
     | Some "api-key" =>
         modify_client (fun c => set_session true (jwtToken c) c) ;;;
         ret true
     | _ =>
         throw_error
           (new_Error ("Unsupported authentication method: " ++ or_opt method "undefined"))
     end)
    (fun _error =>
       modify_client (set_stats incr_authFailures) ;;;
       throw _error).

Definition initialize : M unit :=
  _ <- authenticate ;; ret tt.

Definition disconnect : M unit :=
  modify_client (set_session false None).

(** [get stats()]: a copy of the record. *)
Definition stats : M ClientStats := gets _stats.

(** *** Operations of a client, as a caller can issue them *)

Inductive Op : Type :=
| OpInitialize
| OpAuthenticate
| OpDisconnect
| OpStats
| OpRequest (method endpoint : string) (data : RequestData) (options : RequestOptions)
| OpGet (endpoint : string) (options : RequestOptions)
| OpPost (endpoint : string) (data : RequestData) (options : RequestOptions)
| OpPut (endpoint : string) (data : RequestData) (options : RequestOptions)
| OpPatch (endpoint : string) (data : RequestData) (options : RequestOptions)
| OpDelete (endpoint : string) (options : RequestOptions).

Definition ignore {A} (c : M A) : State -> State := fun s => snd (c s).

(** The state an operation leaves, whether it returns or throws. *)
Definition run_op (op : Op) : State -> State :=
  match op with
  | OpInitialize => ignore initialize
  | OpAuthenticate => ignore authenticate
  | OpDisconnect => ignore disconnect
  | OpStats => ignore stats
  | OpRequest m e d o => ignore (request m e d o)
  | OpGet e o => ignore (get e o)
  | OpPost e d o => ignore (post e d o)
  | OpPut e d o => ignore (put e d o)
  | OpPatch e d o => ignore (patch e d o)
  | OpDelete e o => ignore (delete e o)
  end.

Definition run_ops (ops : list Op) (s : State) : State :=
  fold_left (fun s op => run_op op s) ops s.

End Client.

(** ** A concrete platform, for closed instances *)

Module Plain.

Fixpoint split_at (stop : ascii -> bool) (s : string) : string * string :=
  match s with
  | EmptyString => (EmptyString, EmptyString)
  | String c s' =>
      if stop c then (EmptyString, s)
      else let (a, b) := split_at stop s' in (String c a, b)
  end.

Definition is_char (x c : ascii) : bool := Ascii.eqb x c.

(** The host without its port.  An IPv6 literal is written in brackets
    and keeps them, as in the [hostname] of the platform's [URL]. *)
Definition host_name (host : string) : string :=
  match host with
  | String "[" _ =>
      let (literal, rest) := split_at (is_char "]") host in
      match rest with
      | String _ _ => literal ++ "]"
      | EmptyString => literal
      end
  | _ => fst (split_at (is_char ":") host)
  end.

(** The parse of a plain absolute URL,
    scheme://host[:port][/path][?query][#fragment], which needs no
    normalisation: on such a text it yields the members the platform's
    [URL] object has.  Any other text is rejected. *)
Definition parse_url (s : string) : option URL :=
  let (scheme, rest) := split_at (is_char ":") s in
  match rest with
  | String ":" (String "/" (String "/" rest')) =>
      let (host, rest'') :=
        split_at (fun c => is_char "/" c || is_char "?" c || is_char "#" c) rest' in
      let (path, rest3) := split_at (fun c => is_char "?" c || is_char "#" c) rest'' in
      let (search, _) := split_at (is_char "#") rest3 in
      if negb (truthy scheme) || negb (truthy host) then None
      else
        Some (mkURL (scheme ++ ":") host (host_name host)
                (if truthy path then path else "/")
                (scheme ++ "://" ++ host)
                (drop 1 search))
  | _ => None
  end.

Definition b64_alphabet : string :=
  "ABCDEFGHIJKLMNOPQRSTUVWXYZabcdefghijklmnopqrstuvwxyz0123456789+/".

Definition b64_char (n : N) : ascii :=
  match String.get (N.to_nat n) b64_alphabet with Some c => c | None => "="%char end.

(** Base64 of a byte string, three bytes to four characters. *)
Fixpoint encode64 (s : string) : string :=
  match s with
  | EmptyString => EmptyString
  | String a EmptyString =>
      let x := (N_of_ascii a * 65536)%N in
      String (b64_char (x / 262144)) (String (b64_char ((x / 4096) mod 64)) "==")
  | String a (String b EmptyString) =>
      let x := (N_of_ascii a * 65536 + N_of_ascii b * 256)%N in
      String (b64_char (x / 262144)) (String (b64_char ((x / 4096) mod 64))
        (String (b64_char ((x / 64) mod 64)) "="))
  | String a (String b (String c s')) =>
      let x := (N_of_ascii a * 65536 + N_of_ascii b * 256 + N_of_ascii c)%N in
      String (b64_char (x / 262144)) (String (b64_char ((x / 4096) mod 64))
        (String (b64_char ((x / 64) mod 64)) (String (b64_char (x mod 64)) (encode64 s'))))
  end.

Definition platform : Platform := mkPlatform parse_url encode64 "mcp-wordpress".

Definition cfg (production : bool) : Config :=
  mkConfig None 30000 3 None None None None None (Some "key") None 60 production.

(** A client for https://example.com as the constructor leaves it. *)
Definition example_client : Client :=
  match constructor platform (cfg false)
          (mkClientOptions (Some "https://example.com/") None None None) with
  | inr c => c
  | inl _ => mkClient EmptyString EmptyString 0 0 (getAuthFromEnv (cfg false)) 0 0 false None empty_stats
  end.

(** A state at time [t] with the given network outcomes ahead. *)
Definition state_at (c : Client) (t : Z) (outcomes : list FetchOutcome) : State :=
  mkState c (mkWorld t outcomes []).

Definition response (status : Z) (statusText text : string) (parsed : JSON + string)
  : FetchOutcome :=
  Resolves 5 (mkResponse status statusText text parsed).

End Plain.

(** ** Observing a run *)

(** The events a computation adds to the log when run in [s]. *)
Definition events_of {A} (c : M A) (s : State) : list Event :=
  skipn (length (log (world s))) (log (world (snd (c s)))).

(** The events of the retry schedule: passes and requests of the loop,
    fallback requests, recorded response times and backoff delays.  Waits of the
    rate limiter and token requests are left out. *)
Definition in_schedule (ev : Event) : bool :=
  match ev with
  | EvAttempt _ => true
  | EvFetch (Primary _) _ _ _ => true
  | EvFetch Fallback _ _ _ => true
  | EvFetch TokenRequest _ _ _ => false
  | EvDelay Backoff _ => true
  | EvDelay RateLimitWait _ => false
  | EvResponseTime _ => true
  end.

Definition schedule_of (evs : list Event) : list Event := filter in_schedule evs.

(** The attempts made: the values of [attempt] of the passes, in order. *)
Fixpoint attempts_made (evs : list Event) : list Z :=
  match evs with
  | [] => []
  | EvAttempt i :: evs' => i :: attempts_made evs'
  | _ :: evs' => attempts_made evs'
  end.

(** The backoff delays, in order. *)
Fixpoint backoffs (evs : list Event) : list Z :=
  match evs with
  | [] => []
  | EvDelay Backoff ms :: evs' => ms :: backoffs evs'
  | _ :: evs' => backoffs evs'
  end.

(** The fallback requests, in order. *)
Fixpoint fallbacks (evs : list Event) : list (string * FetchOptions) :=
  match evs with
  | [] => []
  | EvFetch Fallback url opts _ :: evs' => (url, opts) :: fallbacks evs'
  | _ :: evs' => fallbacks evs'
  end.

(** The durations handed to [updateAverageResponseTime], in order. *)
Fixpoint response_times (evs : list Event) : list Z :=
  match evs with
  | [] => []
  | EvResponseTime d :: evs' => d :: response_times evs'
  | _ :: evs' => response_times evs'
  end.

(** A request of the loop that was answered with status 429. *)
Definition rate_limited (ev : Event) : bool :=
  match ev with
  | EvFetch (Primary _) _ _ (Resolves _ r) => status r =? 429
  | _ => false
  end.

Definition sum_Z (l : list Z) : Z := fold_right Z.add 0 l.








(** The delays of linear backoff after the attempts [a], [a+1], ... *)
Fixpoint linear_backoff (a : Z) (retries : nat) : list Z :=
  match retries with
  | O => []
  | S n => 1000 * (a + 1) :: linear_backoff (a + 1) n
  end.

(** The consecutive values [a], [a+1], ..., [n] of them. *)
Fixpoint count_from (a : Z) (n : nat) : list Z :=
  match n with
  | O => []
  | S n' => a :: count_from (a + 1) n'
  end.

Definition stats_of (s : State) : ClientStats := _stats (client s).

(** The five counters of the statistics record do not decrease. *)
Definition counters_le (a b : ClientStats) : Prop :=
  totalRequests a <= totalRequests b
  /\ successfulRequests a <= successfulRequests b
  /\ failedRequests a <= failedRequests b
  /\ rateLimitHits a <= rateLimitHits b
  /\ authFailures a <= authFailures b.

(** The attempts and the backoff delays, in the order in which they happen:
    [inl i] is attempt [i], [inr ms] a backoff of [ms] milliseconds. *)
Fixpoint retry_marks (evs : list Event) : list (Z + Z) :=
  match evs with
  | [] => []
  | EvAttempt i :: evs' => inl i :: retry_marks evs'
  | EvDelay Backoff ms :: evs' => inr ms :: retry_marks evs'
  | _ :: evs' => retry_marks evs'
  end.

(** [n] attempts from [a] on, each but the last followed by its backoff of
    [1000 * (i + 1)] milliseconds. *)
Fixpoint linear_schedule (a : Z) (n : nat) : list (Z + Z) :=
  match n with
  | O => []
  | S O => [inl a]
  | S n' => inl a :: inr (1000 * (a + 1)) :: linear_schedule (a + 1) n'
  end.

(** ** Vocabulary of the properties *)

(** [s'] continues [s]: the log is extended by [evs] and the clock has
    advanced by at least the backoff delays among them. *)
Definition grows (s s' : State) (evs : list Event) : Prop :=
  log (world s') = (log (world s) ++ evs)%list
  /\ now (world s) + sum_Z (backoffs evs) <= now (world s').

(** The events of a fallback: none, or the one fallback request. *)
Definition fallback_events (fo : FetchOptions) (fb : list Event) : Prop :=
  fb = [] \/ exists u o, fb = [EvFetch Fallback u fo o].

(** The statistics after a success with duration [d] recorded at [t]. *)
Definition succeeded (d t : Z) (st : ClientStats) : ClientStats :=
  record_response_time d t (incr_successfulRequests st).

(** How a call of [request] that throws leaves the statistics [st'], given
    the schedule [sched] of the call: all attempts used up or stopped, the
    body could not be attached, or an attempt was answered with 429. *)
Definition call_failed (L : Locals) (st st' : ClientStats) (sched : list Event) (t : Thrown)
  : Prop :=
  (existsb rate_limited sched = false /\ st' = incr_failedRequests st
   /\ exists e, t = ThrownError (WordPressAPIError (failure_message L e) None))
  \/ (existsb rate_limited sched = false /\ st' = st /\ prepare L = inl t)
  \/ (exists pre i u fo l r,
        sched = (pre ++ [EvFetch (Primary i) u fo (Resolves l r)])%list
        /\ status r = 429 /\ existsb rate_limited pre = false
        /\ st' = incr_failedRequests (incr_rateLimitHits st)
        /\ exists ra,
             t = ThrownError
                   (WordPressAPIError
                      (failure_message L (RateLimitError (error_message r) ra)) None)).

(** [st'] comes from [st] by increments of counters and by recording the
    response times [rts], one success each, in this order. *)
Inductive tracks : ClientStats -> list Z -> ClientStats -> Prop :=
| tracks_refl st : tracks st [] st
| tracks_total st rts st' : tracks st rts st' -> tracks st rts (incr_totalRequests st')
| tracks_failed st rts st' : tracks st rts st' -> tracks st rts (incr_failedRequests st')
| tracks_rate st rts st' : tracks st rts st' -> tracks st rts (incr_rateLimitHits st')
| tracks_auth st rts st' : tracks st rts st' -> tracks st rts (incr_authFailures st')
| tracks_success st rts st' d t :
    tracks st rts st' -> tracks st (rts ++ [d]) (succeeded d t st').


(** A computation whose effect on the statistics is made of counter
    increments and recorded successes, and which only extends the log. *)
Definition tracked {A} (c : M A) : Prop :=
  forall s, exists evs,
    grows s (snd (c s)) evs
    /\ tracks (stats_of s) (response_times evs) (stats_of (snd (c s))).

(** The hostnames that the client refuses in production: localhost,
    127.0.0.1, and the IPv4 ranges 10.x, 172.16-31.x and 192.168.x in
    dotted decimal. *)
Inductive private_hostname : string -> Prop :=
| private_localhost : private_hostname "localhost"
| private_loopback_v4 : private_hostname "127.0.0.1"
| private_10 rest : private_hostname ("10." ++ rest)
| private_172 b rest : 16 <= b <= 31 -> private_hostname ("172." ++ of_Z b ++ "." ++ rest)
| private_192_168 rest : private_hostname ("192.168." ++ rest).

(** [s.endsWith(suffix)] *)
Definition endsWith (suffix s : string) : bool :=
  (String.length suffix <=? String.length s)%nat
  && String.eqb (drop (String.length s - String.length suffix) s) suffix.

(** The text a URL is sanitised to, before slashes at its end are removed. *)
Definition clean_url (u : URL) : string := protocol u ++ "//" ++ host u ++ pathname u.

(** Hostnames of the loopback interface that [validateAndSanitizeUrl] does
    not name: the IPv6 loopback address as the [hostname] of a URL has it,
    in brackets, and the addresses of 127.0.0.0/8 other than 127.0.0.1. *)
Definition other_loopback (hostname : string) : Prop :=
  hostname = "[::1]" \/ exists rest, hostname = "127." ++ rest /\ rest <> "0.0.1".

(** The lower-cased message of an error matches one of the four texts for
    which [shouldRetryError] refuses a retry. *)
Definition exempt_from_retry (e : JsError) : bool :=
  let lower := toLowerCase (message e) in
  includes "401" lower || includes "403" lower
  || includes "timeout" lower || includes "network connection lost" lower.

(** A thrown value that [normalizeRequestError] classifies as a timeout
    (an abort) or as a lost connection. *)
Definition timeout_or_connection_loss (t : Thrown) : Prop :=
  match t with
  | ThrownError err =>
      name err = "AbortError"
      \/ includes "socket hang up" (message err) = true
      \/ includes "ECONNRESET" (message err) = true
  | _ => False
  end.

(** A fetch that fails in a way the retry loop answers with another
    attempt while attempts remain: it rejects with a value that is not a
    RateLimitError and that [shouldRetryError] accepts. *)
Definition retried_failure (requestTimeout : Z) (o : FetchOutcome) : bool :=
  match o with
  | Rejects _ t =>
      negb (is_RateLimit_thrown t)
      && shouldRetryError (normalizeRequestError t requestTimeout)
  | Resolves _ _ => false
  end.

(** ** Concrete runs *)

Module Cases.

Import Plain.

(** The locals of a GET of posts with the example client. *)
Definition get_posts (s : State) : Locals :=
  request_locals platform s "GET" "posts" DNull no_options.

(** The options of that request as the loop sends them. *)
Definition get_options : FetchOptions :=
  mkFetchOptions "GET"
    [("Content-Type", "application/json"); ("User-Agent", "mcp-wordpress");
     ("X-API-Key", "key")]
    None.

(** One answer: 429 with a plain text body. *)
Definition limited : State :=
  state_at example_client 100000
    [response 429 "Too Many Requests" "slow down" (inr "Unexpected token s")].

(** 403 with an empty body; a second request would be answered with 200. *)
Definition forbidden : State :=
  state_at example_client 100000
    [response 403 "Forbidden" EmptyString (inr "Unexpected end of JSON input");
     response 200 "OK" "[]" (inl (JOther "[]"))].

(** A network failure, then 200. *)
Definition flaky : State :=
  state_at example_client 100000
    [Rejects 20 (ThrownError (new_TypeError "fetch failed"));
     response 200 "OK" "[]" (inl (JOther "[]"))].

(** 404 twice, each fallback answered with 500, then 200. *)
Definition not_found_then_found : State :=
  state_at example_client 100000
    [response 404 "Not Found" EmptyString (inr "Unexpected end of JSON input");
     response 500 "Internal Server Error" EmptyString (inr "Unexpected end of JSON input");
     response 404 "Not Found" EmptyString (inr "Unexpected end of JSON input");
     response 500 "Internal Server Error" EmptyString (inr "Unexpected end of JSON input");
     response 200 "OK" "[]" (inl (JOther "[]"))].

(** 404, and the fallback answered with 200 and a JSON body. *)
Definition permalinks_off : State :=
  state_at example_client 100000
    [response 404 "Not Found" EmptyString (inr "Unexpected end of JSON input");
     response 200 "OK" "[]" (inl (JOther "[]"))].

(** 200 with an empty body. *)
Definition no_content : State :=
  state_at example_client 100000 [response 200 "OK" EmptyString (inr "Unexpected end of JSON input")].

(** Two answers with bodies, 30 ms and 50 ms after the requests. *)
Definition two_answers : World :=
  mkWorld 100000
    [Resolves 30 (mkResponse 200 "OK" "[]" (inl (JOther "[]")));
     Resolves 50 (mkResponse 200 "OK" "[]" (inl (JOther "[]")))]
    [].

(** An object that refers to itself: JSON.stringify throws. *)
Definition circular : RequestData :=
  DObject (mkObject false false None (inr "Converting circular structure to JSON")).

(** The value [lastError] has before the first attempt. *)
Definition unknown_error : JsError := new_Error "Unknown error".

Definition example_options (url : string) : ClientOptions :=
  mkClientOptions (Some url) None None None.



(** A form as the platform's own FormData class gives it: an object with
    an [append] function, without [pipe] and [getHeaders]; it is not an
    instance of the FormData class that the client imports. *)
Definition web_form : RequestData := DObject (mkObject false true None (inl "{}")).

(** The network is down: every fetch rejects. *)
Definition offline : State := state_at example_client 100000 [].





End Cases.

(** ** Further parts of the client *)

(** *** Reading headers *)

(** [h[k]]: the value of a header, [None] when the object has no such key. *)
Fixpoint header (k : string) (h : Headers) : option string :=
  match h with
  | [] => None
  | (k', v) :: h' => if String.eqb k k' then Some v else header k h'
  end.

(** Each key occurs once, as in a JavaScript object. *)
Fixpoint distinct_keys (h : Headers) : bool :=
  match h with
  | [] => true
  | (k, _) :: h' => negb (existsb (fun kv => String.eqb k (fst kv)) h') && distinct_keys h'
  end.

(** The headers [request] starts from, before those of the caller. *)
Definition default_headers (P : Platform) : Headers :=
  [("Content-Type", "application/json"); ("User-Agent", getUserAgent P)].

(** *** Getters and utility methods *)

Record WordPressClientConfig : Type := mkClientConfig {
  cc_baseUrl : string;
  cc_auth : AuthConfig;
  cc_timeout : Z;
  cc_maxRetries : Z
}.

(** [get config()] *)
Definition config (c : Client) : WordPressClientConfig :=
  mkClientConfig (baseUrl c) (auth c) (timeout c) (maxRetries c).

(** [get isAuthenticated()] *)
Definition isAuthenticated (c : Client) : bool := authenticated c.

Definition getSiteUrl (c : Client) : string := baseUrl c.

(** The character class [[a-zA-Z0-9\/\-_]]. *)
Definition endpoint_char (c : ascii) : bool :=
  let n := nat_of_ascii c in
  (((97 <=? n) && (n <=? 122)) || ((65 <=? n) && (n <=? 90)) || ((48 <=? n) && (n <=? 57)))%nat
  || Ascii.eqb c "/" || Ascii.eqb c "-" || Ascii.eqb c "_".

Fixpoint every (f : ascii -> bool) (s : string) : bool :=
  match s with
  | EmptyString => true
  | String c s' => f c && every f s'
  end.

(** [/^[a-zA-Z0-9\/\-_]+$/.test(endpoint)] *)
Definition validateEndpoint (endpoint : string) : bool :=
  truthy endpoint && every endpoint_char endpoint.

Section Operations.

Variable P : Platform.

(** [new URLSearchParams(o).toString()] for an object [o] given by its
    entries, the values as the strings [String(v)]. *)
Variable URLSearchParams : list (string * string) -> string.

Definition buildUrl (c : Client) (endpoint : string) (params : option (list (string * string)))
  : string :=
  let url := apiUrl c ++ "/" ++ strip_leading_slashes endpoint in
  match params with
  | Some p => url ++ "?" ++ URLSearchParams p
  | None => url
  end.

(** *** Posts operations (src/client/operations/posts.ts)

    The client handed to [PostsOperations] is the WordPress client; its
    methods are called without options.  A post type that is not given is
    posts; the id of a post is an integer. *)

Definition post_type (postType : option string) : string :=
  match postType with Some t => t | None => "posts" end.

Definition getPosts (params : option (list (string * string))) (postType : option string)
  : M JSON :=
  let queryString :=
    match params with Some p => "?" ++ URLSearchParams p | None => EmptyString end in
  get P (post_type postType ++ queryString) no_options.

Definition getPost (id : Z) (context : string) (postType : option string) : M JSON :=
  get P (post_type postType ++ "/" ++ of_Z id ++ "?context=" ++ context) no_options.

Definition createPost (data : RequestData) (postType : option string) : M JSON :=
  post P (post_type postType) data no_options.

(** [data] is given by its parts: [id] and the object [updateData] of the
    other members. *)
Definition updatePost (id : Z) (updateData : RequestData) (postType : option string) : M JSON :=
  put P (post_type postType ++ "/" ++ of_Z id) updateData no_options.

Definition deletePost (id : Z) (force : bool) (postType : option string) : M JSON :=
  delete P (post_type postType ++ "/" ++ of_Z id ++ "?force=" ++ (if force then "true" else "false"))
    no_options.

Definition getPostRevisions (id : Z) (postType : option string) : M JSON :=
  get P (post_type postType ++ "/" ++ of_Z id ++ "/revisions") no_options.

End Operations.

(** *** More to observe of a run *)

(** How the requests of a call are sent: a request of the loop goes to the
    URL of the call with the options the loop prepared, a fallback request
    goes with the same options to the index.php form of that URL, and
    there is no token request. *)
Definition sent_as (P : Platform) (L : Locals) (ev : Event) : Prop :=
  match ev with
  | EvFetch (Primary _) url fo _ => url = l_url L /\ prepare L = inr fo
  | EvFetch Fallback url fo _ =>
      prepare L = inr fo
      /\ exists u, URL_parse P (l_url L) = Some u /\ url = fallback_url u
  | EvFetch TokenRequest _ _ _ => False
  | _ => True
  end.

(** The members of a client that are set at construction. *)
Definition same_config (c c' : Client) : Prop :=
  config c' = config c /\ apiUrl c' = apiUrl c /\ requestInterval c' = requestInterval c.

(** The session: the flag and the token. *)
Definition same_session (c c' : Client) : Prop :=
  authenticated c' = authenticated c /\ jwtToken c' = jwtToken c.

(** The time that passes during the events: delays and the latencies of
    the requests. *)
Definition elapsed (evs : list Event) : Z :=
  fold_right
    (fun ev acc =>
       match ev with
       | EvDelay _ ms => ms + acc
       | EvFetch _ _ _ o => latency_of o + acc
       | _ => acc
       end) 0 evs.

(** A computation that always leaves a state related by [R] to the one it
    started in, whether it returns or throws. *)
Definition always {A} (R : State -> State -> Prop) (c : M A) : Prop :=
  forall s, R s (snd (c s)).

(** The log is extended by events that satisfy [Q]. *)
Definition logs (Q : Event -> Prop) (s s' : State) : Prop :=
  exists evs, log (world s') = (log (world s) ++ evs)%list /\ Forall Q evs.

(** The clock advances by the time of the events added to the log. *)
Definition on_time (s s' : State) : Prop :=
  exists evs,
    log (world s') = (log (world s) ++ evs)%list
    /\ now (world s') = now (world s) + elapsed evs.

(** The client of the later state is related to that of the earlier. *)
Definition client_kept (R : Client -> Client -> Prop) (s s' : State) : Prop :=
  R (client s) (client s').

(** The last success was recorded now, with the time since [timer]. *)
Definition stamped (timer : Z) (s : State) : Prop :=
  stats_lastRequestTime (stats_of s) = Some (now (world s))
  /\ exists pre, log (world s) = (pre ++ [EvResponseTime (now (world s) - timer)])%list.

(** The names of the headers that carry credentials. *)
Definition is_auth_header (k : string) : bool :=
  String.eqb k "Authorization" || String.eqb k "X-API-Key" || String.eqb k "X-WP-Nonce".

(** The headers of the caller, none when the options have no [headers]. *)
Definition caller_headers (o : RequestOptions) : Headers :=
  match opt_headers o with Some h => h | None => [] end.

(** [k] read in [over] and, when it is not there, in [under]. *)
Definition header_over (k : string) (over under : Headers) : option string :=
  match header k over with Some v => Some v | None => header k under end.

(** The options of every request among the events satisfy [Q]. *)
Definition sent_with (Q : FetchOptions -> Prop) (ev : Event) : Prop :=
  match ev with EvFetch _ _ fo _ => Q fo | _ => True end.

(** [authenticate] throws [e] without a request: nothing but the count of
    failures changes. *)
Definition fails_offline (P : Platform) (s : State) (e : JsError) : Prop :=
  authenticate P s
  = (Throw (ThrownError e), mkState (set_stats incr_authFailures (client s)) (world s)).

(** The request for a token that [authenticateWithJWT] sends. *)
Definition token_request (c : Client) (o : FetchOutcome) : Event :=
  EvFetch TokenRequest (baseUrl c ++ "/wp-json/jwt-auth/v1/token")
    (mkFetchOptions "POST" [("Content-Type", "application/json")]
       (Some (PJson [("username", username (auth c)); ("password", password (auth c))])))
    o.

(** The five methods [authenticate] knows, in lower case. *)
Definition supported_method (m : string) : bool :=
  String.eqb m "app-password" || String.eqb m "basic" || String.eqb m "jwt"
  || String.eqb m "cookie" || String.eqb m "api-key".

(** What the methods behind [authenticate] have in common. *)
Definition signs_in (c : M bool) : Prop :=
  forall s,
    same_config (client s) (client (snd (c s)))
    /\ authFailures (stats_of (snd (c s))) = authFailures (stats_of s)
    /\ match fst (c s) with
       | Ok b => b = true /\ authenticated (client (snd (c s))) = true
       | Throw _ => same_session (client s) (client (snd (c s)))
       end.


(** The URL and the options of every request of the retry loop among the
    events satisfy [Q]. *)
Definition primary_sent (Q : string -> FetchOptions -> Prop) (ev : Event) : Prop :=
  match ev with EvFetch (Primary _) url fo _ => Q url fo | _ => True end.

(** ** The composed client (ComposedManagerFactory)

    [ComposedWordPressClient] is built from objects that it knows by
    their interfaces.  Each method of a dependency is a computation on
    the state [Env] these objects have, which returns or throws; what a
    method returns is kept only where the client uses it. *)

Module Composed.

Section Client.

Variable Env : Type.

(** Values passed on as they are: the data and options of a request. *)
Variable Data : Type.
Variable Options : Type.

(** [undefined] as the data of a request, an object literal with boolean
    members, and [undefined] as the options of a request. *)
Variable undefined : Data.
Variable object : list (string * bool) -> Data.
Variable no_options : Options.

Definition Dep (A : Type) : Type := Env -> Result A * Env.

Record Dependencies : Type := mkDependencies {
  authProvider_authenticate : Dep unit;
  requestHandler_initialize : option (Dep unit);   (* [None]: no such function *)
  requestHandler_dispose : option (Dep unit);
  requestHandler_request : string -> string -> Data -> Options -> Dep JSON;
  errorHandler_logSuccess : string -> Dep unit;
  errorHandler_handleError : Thrown -> string -> Dep unit;
  validator_validateWordPressId : Z -> string -> Dep unit;
  validator_validateRequired : Data -> list string -> Dep unit
}.

(** The dependencies with another request handler's [request]. *)
Definition with_request (D : Dependencies)
    (req : string -> string -> Data -> Options -> Dep JSON) : Dependencies :=
  mkDependencies (authProvider_authenticate D) (requestHandler_initialize D)
    (requestHandler_dispose D) req (errorHandler_logSuccess D)
    (errorHandler_handleError D) (validator_validateWordPressId D)
    (validator_validateRequired D).

Variable D : Dependencies.

(** The client: its flag and the state of its dependencies. *)
Record CState : Type := mkCState {
  initialized : bool;
  env : Env
}.

Definition C (A : Type) : Type := CState -> Result A * CState.

Definition cret {A} (a : A) : C A := fun s => (Ok a, s).

Definition cbind {A B} (c : C A) (k : A -> C B) : C B :=
  fun s => match c s with
           | (Ok a, s') => k a s'
           | (Throw t, s') => (Throw t, s')
           end.

Definition ctry {A} (c : C A) (h : Thrown -> C A) : C A :=
  fun s => match c s with
           | (Ok a, s') => (Ok a, s')
           | (Throw t, s') => h t s'
           end.

(** A call of a method of a dependency. *)
Definition call {A} (d : Dep A) : C A :=
  fun s => let (r, e) := d (env s) in (r, mkCState (initialized s) e).

Definition set_initialized (b : bool) : C unit :=
  fun s => (Ok tt, mkCState b (env s)).

Definition not_initialized : JsError :=
  new_Error "ComposedWordPressClient not initialized. Call initialize() first.".

Definition ensureInitialized : C unit :=
  fun s => if negb (initialized s) then (Throw (ThrownError not_initialized), s)
           else (Ok tt, s).

Definition initialize : C unit :=
  fun s =>
    if initialized s then (Ok tt, s)
    else
      ctry
        (cbind (call (authProvider_authenticate D)) (fun _ =>
         cbind (match requestHandler_initialize D with
                | Some init => call init
                | None => cret tt
                end) (fun _ =>
         cbind (set_initialized true) (fun _ =>
         call (errorHandler_logSuccess D "client initialization")))))
        (fun error => call (errorHandler_handleError D error "client initialization"))
        s.

Definition request (method endpoint : string) (data : Data) (options : Options) : C JSON :=
  cbind ensureInitialized (fun _ =>
  call (requestHandler_request D method endpoint data options)).

Definition post_type (postType : option string) : string :=
  match postType with Some t => t | None => "posts" end.

Definition getPosts (params : Data) (postType : option string) : C JSON :=
  request "GET" ("/wp/v2/" ++ post_type postType) params no_options.

Definition getPost (id : Z) (postType : option string) : C JSON :=
  cbind (call (validator_validateWordPressId D id "post ID")) (fun _ =>
  request "GET" ("/wp/v2/" ++ post_type postType ++ "/" ++ of_Z id) undefined no_options).

Definition createPost (postData : Data) (postType : option string) : C JSON :=
  cbind (call (validator_validateRequired D postData ["title"; "content"])) (fun _ =>
  request "POST" ("/wp/v2/" ++ post_type postType) postData no_options).

Definition updatePost (id : Z) (postData : Data) (postType : option string) : C JSON :=
  cbind (call (validator_validateWordPressId D id "post ID")) (fun _ =>
  request "PUT" ("/wp/v2/" ++ post_type postType ++ "/" ++ of_Z id) postData no_options).

Definition deletePost (id : Z) (force : bool) (postType : option string) : C JSON :=
  cbind (call (validator_validateWordPressId D id "post ID")) (fun _ =>
  let params := if force then object [("force", true)] else object [] in
  request "DELETE" ("/wp/v2/" ++ post_type postType ++ "/" ++ of_Z id) params no_options).

Definition dispose : C unit :=
  cbind (match requestHandler_dispose D with
         | Some f => call f
         | None => cret tt
         end) (fun _ =>
  set_initialized false).

(** The methods of a client that is in use. *)
Inductive Method : Type :=
| MRequest (method endpoint : string) (data : Data) (options : Options)
| MGetPosts (params : Data) (postType : option string)
| MGetPost (id : Z) (postType : option string)
| MCreatePost (postData : Data) (postType : option string)
| MUpdatePost (id : Z) (postData : Data) (postType : option string)
| MDeletePost (id : Z) (force : bool) (postType : option string).

Definition run (m : Method) : C JSON :=
  match m with
  | MRequest me ep d o => request me ep d o
  | MGetPosts p t => getPosts p t
  | MGetPost i t => getPost i t
  | MCreatePost d t => createPost d t
  | MUpdatePost i d t => updatePost i d t
  | MDeletePost i f t => deletePost i f t
  end.

End Client.

Arguments mkCState {Env}.
Arguments initialized {Env}.
Arguments env {Env}.
Arguments authProvider_authenticate {Env Data Options}.
Arguments requestHandler_initialize {Env Data Options}.
Arguments requestHandler_dispose {Env Data Options}.
Arguments requestHandler_request {Env Data Options}.
Arguments errorHandler_logSuccess {Env Data Options}.
Arguments errorHandler_handleError {Env Data Options}.
Arguments validator_validateWordPressId {Env Data Options}.
Arguments validator_validateRequired {Env Data Options}.
Arguments with_request {Env Data Options}.
Arguments initialize {Env Data Options}.
Arguments request {Env Data Options}.
Arguments dispose {Env Data Options}.
Arguments getPosts {Env Data Options}.
Arguments run {Env Data Options}.

End Composed.

(** ** The post tools (tools/posts)

    A tool handler receives the arguments of the tool as a JavaScript
    object, picks the members it knows and makes one call, on the client
    or on a function of PostHandlers.  Objects are lists of members in
    insertion order; a member that is absent reads as [undefined]. *)

Module Tools.

#[warnings="-register-all"] Inductive Value : Type :=
| VUndefined
| VNull
| VBool (b : bool)
| VNumber (z : Z)
| VString (s : string)
| VArray (items : list Value)
| VObject.

Definition Object := list (string * Value).

(** [o[k]] *)
Fixpoint prop (k : string) (o : Object) : Value :=
  match o with
  | [] => VUndefined
  | (k', v) :: o' => if String.eqb k k' then v else prop k o'
  end.

(** [o[k] = v] *)
Fixpoint set (k : string) (v : Value) (o : Object) : Object :=
  match o with
  | [] => [(k, v)]
  | (k', v') :: o' => if String.eqb k k' then (k, v) :: o' else (k', v') :: set k v o'
  end.

(** [v !== undefined] *)
Definition defined (v : Value) : bool :=
  match v with VUndefined => false | _ => true end.

Definition truthy_value (v : Value) : bool :=
  match v with
  | VUndefined | VNull => false
  | VBool b => b
  | VNumber z => negb (z =? 0)
  | VString s => truthy s
  | VArray _ | VObject => true
  end.

(** [String(v)], which a template literal applies; numbers are integers. *)
Fixpoint to_string (v : Value) : string :=
  match v with
  | VUndefined => "undefined"
  | VNull => "null"
  | VBool b => if b then "true" else "false"
  | VNumber z => of_Z z
  | VString s => s
  | VArray items =>
      (fix join (l : list Value) : string :=
         match l with
         | [] => EmptyString
         | x :: l' =>
             let first := match x with VUndefined | VNull => EmptyString | _ => to_string x end in
             match l' with [] => first | _ => first ++ "," ++ join l' end
         end) items
  | VObject => "[object Object]"
  end.

(** [Array.isArray(v)] *)
Definition isArray (v : Value) : bool :=
  match v with VArray _ => true | _ => false end.

(** [if (params.k !== undefined) target.k = params.k] *)
Definition copy (k : string) (params target : Object) : Object :=
  if defined (prop k params) then set k (prop k params) target else target.

(** The schema of a tool: its name, the properties it declares and those
    it requires (PostToolDefinitions.ts). *)
Record MCPTool : Type := mkTool {
  tool_name : string;
  properties : list string;
  required : list string
}.

Definition listPostsTool : MCPTool :=
  mkTool "wp_list_posts" ["per_page"; "search"; "status"; "categories"; "tags"; "post_type"] [].
Definition listVerhalenTool : MCPTool :=
  mkTool "wp_list_verhalen" ["per_page"; "search"; "status"] [].
Definition listReviewsTool : MCPTool :=
  mkTool "wp_list_reviews" ["per_page"; "search"; "status"] [].
Definition getPostTool : MCPTool :=
  mkTool "wp_get_post" ["id"; "include_content"; "post_type"] ["id"].
Definition createPostTool : MCPTool :=
  mkTool "wp_create_post"
    ["title"; "content"; "status"; "excerpt"; "categories"; "tags"; "featured_media"; "date"]
    ["title"].
Definition updatePostTool : MCPTool :=
  mkTool "wp_update_post"
    ["id"; "title"; "content"; "status"; "excerpt"; "categories"; "tags"; "featured_media";
     "date"]
    ["id"].
Definition deletePostTool : MCPTool :=
  mkTool "wp_delete_post" ["id"; "force"] ["id"].
Definition getPostRevisionsTool : MCPTool :=
  mkTool "wp_get_post_revisions" ["id"] ["id"].

Definition postToolDefinitions : list MCPTool :=
  [listPostsTool; listVerhalenTool; listReviewsTool; getPostTool; createPostTool;
   updatePostTool; deletePostTool; getPostRevisionsTool].

(** The one call a handler makes.  A handler returns what the call
    returns; [handleListPosts] with a post type first replaces an empty
    list by a message, see [listed]. *)
Inductive Call : Type :=
| client_getPosts (queryParams : Object) (postType : Value)
| client_getPost (id : Value) (context : string) (postType : Value)
| PostHandlers_handleListPosts (queryParams : Object)
| PostHandlers_handleGetPost (postParams : Object)
| PostHandlers_handleCreatePost (postParams : Object)
| PostHandlers_handleUpdatePost (updateParams : Object)
| PostHandlers_handleDeletePost (deleteParams : Object)
| PostHandlers_handleGetPostRevisions (revisionParams : Object).

(** [if (!params) params = {}]: [None] is a missing or null argument. *)
Definition or_empty (params : option Object) : Object :=
  match params with Some p => p | None => [] end.

(** The query parameters [handleListPosts] builds. *)
Definition list_query (params : Object) : Object :=
  let q := copy "page" params [] in
  let q := copy "per_page" params q in
  let q := copy "search" params q in
  let q := copy "orderby" params q in
  let q := copy "order" params q in
  let q :=
    if defined (prop "status" params) then
      let statusValue := prop "status" params in
      if isArray statusValue then set "status" statusValue q
      else set "status" (VArray [statusValue]) q
    else q in
  let q := copy "categories" params q in
  let q := copy "tags" params q in
  copy "offset" params q.

Definition handleListPosts (params : option Object) : Call :=
  let params := or_empty params in
  let postType := prop "post_type" params in
  let queryParams := list_query params in
  if truthy_value postType then client_getPosts queryParams postType
  else PostHandlers_handleListPosts queryParams.

(** What [handleListPosts] returns for the posts of a custom post type. *)
Definition listed {Post} (postType : Value) (posts : list Post) : string + list Post :=
  if (length posts =? 0)%nat
  then inl ("No " ++ to_string postType ++ " found. Try adjusting your search criteria.")
  else inr posts.

Definition handleListVerhalen (params : option Object) : Call :=
  handleListPosts (Some (set "post_type" (VString "verhalen") (or_empty params))).

Definition handleListReviews (params : option Object) : Call :=
  handleListPosts (Some (set "post_type" (VString "review") (or_empty params))).

(** The handlers below read members of [params] at once: it is an object. *)
Definition handleGetPost (params : Object) : Call :=
  let postType := prop "post_type" params in
  if truthy_value postType then client_getPost (prop "id" params) "view" postType
  else PostHandlers_handleGetPost [("id", prop "id" params)].

Definition handleCreatePost (params : Object) : Call :=
  let p := [("title", prop "title" params)] in
  let p := copy "content" params p in
  let p := copy "status" params p in
  let p := copy "excerpt" params p in
  let p := copy "categories" params p in
  let p := copy "tags" params p in
  let p := copy "featured_media" params p in
  PostHandlers_handleCreatePost (copy "date" params p).

Definition handleUpdatePost (params : Object) : Call :=
  let p := [("id", prop "id" params)] in
  let p := copy "title" params p in
  let p := copy "content" params p in
  let p := copy "status" params p in
  let p := copy "excerpt" params p in
  let p := copy "categories" params p in
  let p := copy "tags" params p in
  let p := copy "featured_media" params p in
  PostHandlers_handleUpdatePost (copy "date" params p).

Definition handleDeletePost (params : Object) : Call :=
  PostHandlers_handleDeletePost (copy "force" params [("id", prop "id" params)]).

Definition handleGetPostRevisions (params : Object) : Call :=
  PostHandlers_handleGetPostRevisions [("id", prop "id" params)].

(** The members [handleListPosts] copies into the query. *)
Definition query_keys : list string :=
  ["page"; "per_page"; "search"; "orderby"; "order"; "status"; "categories"; "tags"; "offset"].

(** [k] is one of [l]. *)
Definition mem (k : string) (l : list string) : bool := existsb (String.eqb k) l.

(** A status as the query has it: an array. *)
Definition status_array (v : Value) : Value := if isArray v then v else VArray [v].

End Tools.

(** ** More concrete runs *)

Module Scenes.

Import Plain.

(** The client for https://example.com with the authentication [a]. *)
Definition client_with (a : AuthConfig) : Client :=
  match constructor platform (cfg false)
          (mkClientOptions (Some "https://example.com/") None None (Some a)) with
  | inr c => c
  | inl _ => example_client
  end.

Definition jwt_client : Client :=
  client_with (mkAuth (Some "jwt") (Some "ann") None (Some "pass") (Some "secret") None None).

Definition basic_client : Client :=
  client_with (mkAuth (Some "basic") (Some "ann") None (Some "pass") None None None).

(** The method written with capital letters, with an application password. *)
Definition capital_client : Client :=
  client_with (mkAuth (Some "App-Password") (Some "ann") (Some "abcd efgh") None None None None).

(** The cookie method without a nonce. *)
Definition cookie_client : Client :=
  client_with (mkAuth (Some "cookie") None None None None None None).

(** An environment without credentials, and the client constructed in it. *)
Definition bare : Config :=
  mkConfig None 30000 3 None None None None None None None 60 false.

Definition bare_client : Client :=
  match constructor platform bare (mkClientOptions (Some "https://example.com/") None None None) with
  | inr c => c
  | inl _ => example_client
  end.

(** One answer ahead: the token of a login, a refusal, an empty 200. *)
Definition token_answer : Response :=
  mkResponse 200 "OK" "token" (inl (JObject None None (Some "abc") "token")).

Definition refusal : Response :=
  mkResponse 403 "Forbidden" EmptyString (inr "Unexpected end of JSON input").

Definition empty_answer : Response :=
  mkResponse 200 "OK" EmptyString (inr "Unexpected end of JSON input").

Definition answered (c : Client) (r : Response) : State :=
  state_at c 100000 [Resolves 5 r].

(** Headers of a caller, a form without [getHeaders], an object literal. *)
Definition with_headers : RequestOptions :=
  mkRequestOptions (Some [("Accept", "text/html"); ("User-Agent", "mine")]) None None.

Definition form : JsObject := mkObject false true None (inr "a form").

Definition literal : JsObject := mkObject false false None (inl "{}").

(** The options of the upload of [DFormData []] by the example client. *)
Definition upload_options : FetchOptions :=
  mkFetchOptions "POST"
    [("Content-Type", "application/json"); ("User-Agent", "mcp-wordpress");
     ("X-API-Key", "key")]
    (Some (PData (DFormData []))).

(** A site in the subdirectory /blog. *)
Definition blog_posts : URL :=
  mkURL "https:" "example.com" "example.com" "/blog/wp-json/wp/v2/posts"
    "https://example.com" "page=2".

(** Dependencies of a composed client that count the calls they get; the
    request handler answers null. *)
Definition counting : Composed.Dependencies nat unit unit :=
  Composed.mkDependencies nat unit unit
    (fun n => (Ok tt, S n)) None None
    (fun _ _ _ _ n => (Ok JNull, S n))
    (fun _ n => (Ok tt, S n))
    (fun _ _ n => (Ok tt, S n))
    (fun _ _ n => (Ok tt, S n))
    (fun _ _ n => (Ok tt, S n)).

End Scenes.

(** * Properties *)

(** ** Strings *)

Lemma prefix_app p a b : String.prefix p a = true -> String.prefix p (a ++ b) = true.
Proof.
  revert a; induction p as [|c p IH]; intros a H; [destruct (a ++ b); reflexivity|].
  destruct a as [|d a]; simpl in *; [discriminate|].
  destruct (Ascii.ascii_dec c d); [apply IH; exact H | discriminate].
Qed.

Lemma includes_cons n c s :
  includes n (String c s) = if String.prefix n (String c s) then true else includes n s.
Proof. reflexivity. Qed.

Lemma includes_app_l n a b : includes n a = true -> includes n (a ++ b) = true.
Proof.
  induction a as [|c a IH]; intros H.
  - destruct n as [|x n]; [destruct b; reflexivity | simpl in H; discriminate].
  - change (String c a ++ b) with (String c (a ++ b)).
    rewrite includes_cons in *.
    destruct (String.prefix n (String c a)) eqn:E.
    + change (String c (a ++ b)) with (String c a ++ b).
      rewrite (prefix_app _ _ _ E). reflexivity.
    + rewrite (IH H). destruct (String.prefix n (String c (a ++ b))); reflexivity.
Qed.

Lemma includes_app_r n a b : includes n b = true -> includes n (a ++ b) = true.
Proof.
  induction a as [|c a IH]; intros H; [exact H|].
  change (String c a ++ b) with (String c (a ++ b)).
  rewrite includes_cons, (IH H).
  destruct (String.prefix n (String c (a ++ b))); reflexivity.
Qed.

Lemma toLowerCase_app a b : toLowerCase (a ++ b) = toLowerCase a ++ toLowerCase b.
Proof. induction a as [|c a IH]; simpl; [reflexivity | now rewrite IH]. Qed.

Arguments of_Z : simpl never.
Arguments includes : simpl never.
Arguments toLowerCase : simpl never.

(** ** Runs: how the state grows *)

Lemma backoffs_app a b : backoffs (a ++ b)%list = (backoffs a ++ backoffs b)%list.
Proof.
  induction a as [|[i|k u o r|[|] ms|d] a IH]; simpl; try exact IH; [reflexivity|].
  now rewrite IH.
Qed.

Lemma sum_Z_app a b : sum_Z (a ++ b)%list = sum_Z a + sum_Z b.
Proof. induction a as [|x a IH]; simpl; [reflexivity | rewrite IH; lia]. Qed.

Lemma schedule_of_app a b : schedule_of (a ++ b)%list = (schedule_of a ++ schedule_of b)%list.
Proof. apply filter_app. Qed.

Lemma grows_refl s : grows s s [].
Proof. split; [now rewrite app_nil_r | simpl; lia]. Qed.

Lemma grows_same_world s s' : world s' = world s -> grows s s' [].
Proof. intros E. unfold grows. rewrite E, app_nil_r. simpl. split; [reflexivity | lia]. Qed.

Lemma grows_trans s1 s2 s3 e1 e2 :
  grows s1 s2 e1 -> grows s2 s3 e2 -> grows s1 s3 (e1 ++ e2)%list.
Proof.
  intros [L1 N1] [L2 N2]. split.
  - now rewrite L2, L1, app_assoc.
  - rewrite backoffs_app, sum_Z_app. lia.
Qed.

Lemma grows_events {A} (c : M A) s evs :
  grows s (snd (c s)) evs -> events_of c s = evs.
Proof.
  intros [L _]. unfold events_of. rewrite L.
  rewrite skipn_app, skipn_all, Nat.sub_diag. reflexivity.
Qed.

Section Runs.

Variable P : Platform.

Lemma rateLimit_run s :
  exists s' evs,
    rateLimit s = (Ok tt, s')
    /\ grows s s' evs /\ schedule_of evs = []
    /\ stats_of s' = stats_of s
    /\ auth (client s') = auth (client s)
    /\ net (world s') = net (world s).
Proof.
  unfold rateLimit, bind, Date_now, gets, delay, modify_world, modify_client, ret.
  simpl.
  destruct (now (world s) - lastRequestTime (client s) <? requestInterval (client s)) eqn:E;
    simpl.
  - eexists _, [EvDelay RateLimitWait _]. split; [reflexivity|].
    repeat split; simpl; try reflexivity. apply Z.ltb_lt in E. lia.
  - eexists _, []. split; [reflexivity|].
    repeat split; simpl; try reflexivity; [now rewrite app_nil_r | lia].
Qed.

Lemma mark_run ev s :
  backoffs [ev] = [] ->
  exists s', mark ev s = (Ok tt, s') /\ grows s s' [ev] /\ client s' = client s.
Proof.
  intros B. eexists. split; [reflexivity|]. split; [|reflexivity].
  split; [reflexivity|]. rewrite B. simpl. lia.
Qed.

Lemma fetch_run k url fo s :
  exists o s',
    o = match net (world s) with
        | o :: _ => o
        | [] => Rejects 0 (ThrownError (new_TypeError "fetch failed"))
        end
    /\ fetch k url fo s =
         (match o with Resolves _ r => Ok r | Rejects _ t => Throw t end, s')
    /\ grows s s' [EvFetch k url fo o]
    /\ client s' = client s
    /\ net (world s') = tl (net (world s)).
Proof.
  unfold fetch.
  destruct (net (world s)) as [|[l r|l t] rest]; simpl;
    eexists _, _; (split; [reflexivity|]); (split; [reflexivity|]);
    repeat split; simpl; lia.
Qed.

Lemma count_success_run timer s :
  exists s',
    count_success timer s = (Ok tt, s')
    /\ grows s s' [EvResponseTime (now (world s) - timer)]
    /\ stats_of s' = succeeded (now (world s) - timer) (now (world s)) (stats_of s)
    /\ net (world s') = net (world s).
Proof.
  eexists. split; [reflexivity|].
  repeat split; simpl; lia.
Qed.


Ltac run_count_success H :=
  unfold bind in H;
  match type of H with
  | context [count_success ?t ?s] =>
      let s1 := fresh "s" in
      let E := fresh "E" in
      let G := fresh "G" in
      let St := fresh "St" in
      let N := fresh "N" in
      destruct (count_success_run t s) as (s1 & E & G & St & N);
      rewrite E in H; unfold ret in H
  end.

Lemma parseResponse_spec r ep timer s res s' :
  parseResponse r ep timer s = (res, s') ->
  exists evs, grows s s' evs
    /\ match res with
       | Ok v => exists d t, evs = [EvResponseTime d] /\ stats_of s' = succeeded d t (stats_of s)
       | Throw t => evs = [] /\ s' = s /\ is_RateLimit_thrown t = false
       end.
Proof.
  unfold parseResponse. intros H.
  destruct (negb (truthy (text r))).
  - run_count_success H. inversion H; subst. eauto 8.
  - destruct (parsed r) as [v|msg].
    + run_count_success H. inversion H; subst. eauto 8.
    + destruct (is_auth_endpoint ep).
      * inversion H; subst. exists []. split; [apply grows_refl | auto].
      * run_count_success H. inversion H; subst. eauto 8.
Qed.

Lemma tryIndexPhpFallback_spec url to fo timer s res s' :
  tryIndexPhpFallback P url to fo timer s = (res, s') ->
  exists fb tl, grows s s' (fb ++ tl)%list /\ fallback_events fo fb
    /\ match res with
       | Ok (Some v) =>
           exists d t, tl = [EvResponseTime d] /\ stats_of s' = succeeded d t (stats_of s)
       | Ok None => tl = [] /\ stats_of s' = stats_of s
       | Throw _ => False
       end.
Proof.
  unfold tryIndexPhpFallback, try_catch. intros H.
  destruct (URL_parse P url) as [u|].
  2:{ inversion H; subst. exists [], []. split; [apply grows_refl|]. split; [now left | auto]. }
  unfold bind in H.
  destruct (fetch_run Fallback (fallback_url u) fo s) as (o & s1 & _ & E & G & C & _).
  rewrite E in H.
  assert (St1 : stats_of s1 = stats_of s) by (unfold stats_of; now rewrite C).
  assert (FB : fallback_events fo [EvFetch Fallback (fallback_url u) fo o])
    by (right; eauto).
  destruct o as [l r|l t].
  2:{ inversion H; subst. eexists _, []. rewrite app_nil_r. eauto. }
  destruct (negb (ok r)).
  { inversion H; subst. eexists _, []. rewrite app_nil_r. eauto. }
  destruct (negb (truthy (text r))).
  { destruct (count_success_run timer s1) as (s2 & E2 & G2 & St2 & _).
    rewrite E2 in H. inversion H; subst.
    eexists _, _. split; [eapply grows_trans; eauto|]. split; [exact FB|].
    rewrite St2, St1. eauto. }
  destruct (parsed r) as [v|msg].
  - destruct (count_success_run timer s1) as (s2 & E2 & G2 & St2 & _).
    rewrite E2 in H. inversion H; subst.
    eexists _, _. split; [eapply grows_trans; eauto|]. split; [exact FB|].
    rewrite St2, St1. eauto.
  - inversion H; subst. eexists _, []. rewrite app_nil_r. eauto.
Qed.

(** What [includes] throws on a message without that method is a
    TypeError, not a RateLimitError. *)
Lemma member_includes_throws needle m t :
  member_includes needle m = inl t ->
  t = ThrownError (new_TypeError "errorMessage.includes is not a function")
  /\ is_RateLimit_thrown t = false.
Proof. destruct m; simpl; intros H; inversion H; subst; auto. Qed.

Lemma handleError_spec r url ep to fo timer s res s' :
  handleErrorResponseWithFallback P r url ep to fo timer s = (res, s') ->
  exists fb tl, grows s s' (fb ++ tl)%list /\ fallback_events fo fb
    /\ match res with
       | Ok (Some v) =>
           (status r =? 429) = false
           /\ exists d t, tl = [EvResponseTime d] /\ stats_of s' = succeeded d t (stats_of s)
       | Ok None => False
       | Throw t =>
           tl = []
           /\ (((status r =? 429) = false /\ stats_of s' = stats_of s
                /\ is_RateLimit_thrown t = false)
               \/ (status r = 429 /\ fb = []
                   /\ t = ThrownError (RateLimitError (error_message r) (now (world s') + 60000))
                   /\ stats_of s' = incr_rateLimitHits (stats_of s)))
       end.
Proof.
  unfold handleErrorResponseWithFallback. intros H.
  destruct (status r =? 429) eqn:E429.
  { inversion H; subst. exists [], []. split; [now apply grows_same_world|].
    split; [now left|]. split; [reflexivity|]. right.
    apply Z.eqb_eq in E429. auto. }
  destruct ((status r =? 403) && includes "media" ep && (fo_method fo =? "POST")%string).
  { inversion H; subst. exists [], []. split; [apply grows_refl|].
    split; [now left|]. split; [reflexivity|]. left. auto. }
  destruct (member_includes "Beiträge zu erstellen" (error_message_value r))
    as [ty|found] eqn:Em.
  { inversion H; subst. exists [], []. split; [apply grows_refl|].
    split; [now left|]. split; [reflexivity|]. left.
    split; [reflexivity|]. split; [reflexivity|].
    exact (proj2 (member_includes_throws _ _ _ Em)). }
  destruct (found && includes "media" ep).
  { inversion H; subst. exists [], []. split; [apply grows_refl|].
    split; [now left|]. split; [reflexivity|]. left. auto. }
  unfold bind in H.
  destruct ((status r =? 404) && includes "/wp-json/wp/v2" url).
  - destruct (tryIndexPhpFallback P url to fo timer s) as [[[v|]|t] s1] eqn:EF;
      destruct (tryIndexPhpFallback_spec _ _ _ _ _ _ _ EF) as (fb & tl & G & FB & R).
    + inversion H; subst. exists fb, tl. auto.
    + inversion H; subst. destruct R as [-> St]. exists fb, []. auto 8.
    + contradiction.
  - inversion H; subst. exists [], []. split; [apply grows_refl|].
    split; [now left|]. split; [reflexivity|]. left. auto.
Qed.


Lemma ok_not_429 r : ok r = true -> (status r =? 429) = false.
Proof. unfold ok. intros H. apply andb_true_iff in H. lia. Qed.

Lemma on_response_spec L fo le r s res s' :
  on_response P L fo le r s = (res, s') ->
  exists fb tl, grows s s' (fb ++ tl)%list /\ fallback_events fo fb
    /\ match res with
       | Ok (Return v) =>
           (status r =? 429) = false
           /\ exists d t, tl = [EvResponseTime d] /\ stats_of s' = succeeded d t (stats_of s)
       | Ok _ => False
       | Throw t =>
           tl = []
           /\ (((status r =? 429) = false /\ stats_of s' = stats_of s
                /\ is_RateLimit_thrown t = false)
               \/ (status r = 429 /\ fb = []
                   /\ t = ThrownError (RateLimitError (error_message r) (now (world s') + 60000))
                   /\ stats_of s' = incr_rateLimitHits (stats_of s)))
       end.
Proof.
  unfold on_response, bind. intros H.
  destruct (ok r) eqn:Eok; simpl in H.
  - destruct (parseResponse r (l_endpoint L) (l_timer L) s) as [[v|t] s1] eqn:EP;
      destruct (parseResponse_spec _ _ _ _ _ _ EP) as (evs & G & R);
      inversion H; subst.
    + destruct R as (d & t & -> & St). exists [], [EvResponseTime d].
      split; [exact G|]. split; [now left|]. split; [now apply ok_not_429 | eauto].
    + destruct R as (-> & -> & NR). exists [], [].
      split; [apply grows_refl|]. split; [now left|]. split; [reflexivity|].
      left. split; [now apply ok_not_429 | auto].
  - destruct (handleErrorResponseWithFallback P r (l_url L) (l_endpoint L)
                (l_requestTimeout L) fo (l_timer L) s) as [[[v|]|t] s1] eqn:EH;
      destruct (handleError_spec _ _ _ _ _ _ _ _ _ EH) as (fb & tl & G & FB & R);
      inversion H; subst; try contradiction; exists fb, tl; auto.
Qed.

Lemma on_error_spec L a le t s res s' :
  on_error L a le t s = (res, s') ->
  (is_RateLimit_thrown t = true ->
     s' = s /\ exists e, t = ThrownError e /\ res = Ok (Break e))
  /\ (is_RateLimit_thrown t = false ->
        (s' = s /\ exists e, res = Ok (Break e))
        \/ (a < l_maxAttempts L - 1
            /\ grows s s' [EvDelay Backoff (1000 * (a + 1))]
            /\ client s' = client s
            /\ exists e, res = Ok (Continue e))).
Proof.
  unfold on_error. intros H. destruct (is_RateLimit_thrown t) eqn:ER.
  - split; [intros _ | discriminate].
    destruct t as [e| |]; try discriminate. inversion H; subst. eauto.
  - split; [discriminate | intros _].
    destruct (shouldRetryError (normalizeRequestError t (l_requestTimeout L))
              && (a <? l_maxAttempts L - 1)) eqn:ES; simpl in H.
    + right. apply andb_true_iff in ES. destruct ES as [_ ES]. apply Z.ltb_lt in ES.
      inversion H; subst. split; [exact ES|]. split; [|eauto].
      split; simpl; [reflexivity | lia].
    + left. inversion H; subst. eauto.
Qed.

(** What one pass of the loop leaves, by the way it ends. *)
Lemma attempt_once_spec L a le s res s' :
  attempt_once P L a le s = (res, s') ->
  exists evs, grows s s' evs
    /\ match res with
       | Throw t =>
           prepare L = inl t /\ schedule_of evs = [EvAttempt a] /\ stats_of s' = stats_of s
       | Ok step =>
           exists fo o fb tl,
             prepare L = inr fo /\ fallback_events fo fb
             /\ schedule_of evs
                = (EvAttempt a :: EvFetch (Primary a) (l_url L) fo o :: fb ++ tl)%list
             /\ match step with
                | Return v =>
                    rate_limited (EvFetch (Primary a) (l_url L) fo o) = false
                    /\ exists d t, tl = [EvResponseTime d]
                                  /\ stats_of s' = succeeded d t (stats_of s)
                | Break e =>
                    tl = []
                    /\ ((rate_limited (EvFetch (Primary a) (l_url L) fo o) = false
                         /\ stats_of s' = stats_of s)
                        \/ (exists l r,
                              o = Resolves l r /\ status r = 429 /\ fb = []
                              /\ e = RateLimitError (error_message r) (now (world s') + 60000)
                              /\ stats_of s' = incr_rateLimitHits (stats_of s)))
                | Continue e =>
                    tl = [EvDelay Backoff (1000 * (a + 1))]
                    /\ a < l_maxAttempts L - 1
                    /\ rate_limited (EvFetch (Primary a) (l_url L) fo o) = false
                    /\ stats_of s' = stats_of s
                end
       end.
Proof.
  unfold attempt_once, bind. intros H.
  destruct (mark_run (EvAttempt a) s eq_refl) as (sm & Em & Gm & Cm).
  rewrite Em in H.
  destruct (rateLimit_run sm) as (s0 & evr & E0 & Gr & Schr & St0 & _ & _).
  rewrite E0 in H.
  pose proof (grows_trans _ _ _ _ _ Gm Gr) as G0.
  set (ev0 := ([EvAttempt a] ++ evr)%list) in *.
  assert (Sch0 : schedule_of ev0 = [EvAttempt a])
    by (unfold ev0; rewrite schedule_of_app, Schr; reflexivity).
  assert (Stm : stats_of s0 = stats_of s) by (unfold stats_of in *; now rewrite St0, Cm).
  clear St0. rename Stm into St0.
  destruct (prepare L) as [t|fo] eqn:EP.
  { inversion H; subst. exists ev0. auto. }
  unfold try_catch, bind in H.
  destruct (fetch_run (Primary a) (l_url L) fo s0) as (o & s1 & _ & EF & G1 & C1 & _).
  rewrite EF in H.
  assert (St1 : stats_of s1 = stats_of s) by (unfold stats_of in *; now rewrite C1).
  clear Em E0 Gm Gr.
  pose proof (grows_trans _ _ _ _ _ G0 G1) as G01.
  assert (Sch01 : schedule_of (ev0 ++ [EvFetch (Primary a) (l_url L) fo o])
                  = [EvAttempt a; EvFetch (Primary a) (l_url L) fo o])
    by (rewrite schedule_of_app, Sch0; reflexivity).
  destruct o as [l r|l t].
  - (* the fetch resolved *)
    destruct (on_response P L fo le r s1) as [[step|t] s2] eqn:ER;
      destruct (on_response_spec _ _ _ _ _ _ _ ER) as (fb & tl & G2 & FB & R).
    + inversion H; subst. destruct step as [v| |]; try contradiction.
      destruct R as (N429 & d & t & -> & St).
      eexists. split; [eapply grows_trans; [exact G01 | exact G2]|].
      exists fo, (Resolves l r), fb, [EvResponseTime d].
      split; [reflexivity|]. split; [exact FB|]. split.
      { rewrite schedule_of_app, Sch01. simpl. f_equal.
        destruct FB as [->|(u & o & ->)]; reflexivity. }
      split; [exact N429|]. exists d, t. rewrite St, St1. auto.
    + destruct R as (-> & R). rewrite app_nil_r in G2.
      assert (SchFB : schedule_of fb = fb)
        by (destruct FB as [->|(u & o & ->)]; reflexivity).
      destruct (on_error_spec _ _ _ _ _ _ _ H) as [HR HN].
      destruct R as [(N429 & St & NR)|(E429 & -> & -> & St)].
      * destruct (HN NR) as [(-> & e & ->)|(Lt & G3 & C3 & e & ->)].
        -- eexists. split; [eapply grows_trans; [exact G01 | exact G2]|].
           exists fo, (Resolves l r), fb, []. rewrite app_nil_r.
           split; [reflexivity|]. split; [exact FB|]. split.
           { rewrite schedule_of_app, Sch01, SchFB. reflexivity. }
           split; [reflexivity|]. left. split; [exact N429|]. now rewrite St.
        -- eexists. split;
             [eapply grows_trans; [eapply grows_trans; [exact G01 | exact G2] | exact G3]|].
           exists fo, (Resolves l r), fb, [EvDelay Backoff (1000 * (a + 1))].
           split; [reflexivity|]. split; [exact FB|]. split.
           { rewrite schedule_of_app, schedule_of_app, Sch01, SchFB. reflexivity. }
           split; [reflexivity|]. split; [exact Lt|]. split; [exact N429|].
           unfold stats_of in *. now rewrite C3, St.
      * destruct (HR eq_refl) as (-> & e & Ee & ->). inversion Ee; subst e.
        exists (ev0 ++ [EvFetch (Primary a) (l_url L) fo (Resolves l r)])%list.
        split.
        { rewrite <- (app_nil_r (ev0 ++ _)). eapply grows_trans; [exact G01 | exact G2]. }
        exists fo, (Resolves l r), [], [].
        split; [reflexivity|]. split; [now left|]. split; [exact Sch01|].
        split; [reflexivity|]. right. exists l, r. rewrite St, St1. auto 8.
  - (* the fetch rejected *)
    destruct (on_error_spec _ _ _ _ _ _ _ H) as [HR HN].
    destruct (is_RateLimit_thrown t) eqn:ET.
    + destruct (HR eq_refl) as (-> & e & -> & ->).
      exists (ev0 ++ [EvFetch (Primary a) (l_url L) fo (Rejects l (ThrownError e))])%list.
      split; [exact G01|].
      exists fo, (Rejects l (ThrownError e)), [], [].
      split; [reflexivity|]. split; [now left|]. split; [exact Sch01|].
      split; [reflexivity|]. left. auto.
    + destruct (HN eq_refl) as [(-> & e & ->)|(Lt & G3 & C3 & e & ->)].
      * eexists. split; [exact G01|].
        exists fo, (Rejects l t), [], [].
        split; [reflexivity|]. split; [now left|]. split; [exact Sch01|].
        split; [reflexivity|]. left. auto.
      * eexists. split; [eapply grows_trans; [exact G01 | exact G3]|].
        exists fo, (Rejects l t), [], [EvDelay Backoff (1000 * (a + 1))].
        split; [reflexivity|]. split; [now left|]. split.
        { rewrite schedule_of_app, Sch01. reflexivity. }
        split; [reflexivity|]. split; [exact Lt|]. split; [reflexivity|].
        unfold stats_of in *. now rewrite C3.
Qed.


(** *** What the observations see of a run *)

Lemma retry_marks_app a b : retry_marks (a ++ b)%list = (retry_marks a ++ retry_marks b)%list.
Proof.
  induction a as [|[j|[i| |] u o r|[|] ms|d] a IH]; simpl; rewrite ?IH; reflexivity.
Qed.

Lemma response_times_app a b :
  response_times (a ++ b)%list = (response_times a ++ response_times b)%list.
Proof.
  induction a as [|[j|k u o r|w ms|d] a IH]; simpl; rewrite ?IH; reflexivity.
Qed.

Lemma retry_marks_schedule evs : retry_marks (schedule_of evs) = retry_marks evs.
Proof.
  induction evs as [|[j|[i| |] u o r|[|] ms|d] evs IH]; simpl; rewrite ?IH; reflexivity.
Qed.

Lemma response_times_schedule evs : response_times (schedule_of evs) = response_times evs.
Proof.
  induction evs as [|[j|[i| |] u o r|[|] ms|d] evs IH]; simpl; rewrite ?IH; reflexivity.
Qed.


Lemma fallback_events_quiet fo fb :
  fallback_events fo fb ->
  retry_marks fb = [] /\ response_times fb = [] /\ existsb rate_limited fb = false.
Proof. intros [->|(u & o & ->)]; auto. Qed.

Lemma fail_request_run L e s :
  exists s',
    fail_request L e s = (Throw (ThrownError (WordPressAPIError (failure_message L e) None)), s')
    /\ world s' = world s
    /\ stats_of s' = incr_failedRequests (stats_of s).
Proof. eexists. split; [reflexivity | auto]. Qed.

Lemma linear_schedule_step a n :
  (1 <= n)%nat ->
  linear_schedule a (S n) = inl a :: inr (1000 * (a + 1)) :: linear_schedule (a + 1) n.
Proof. destruct n; [lia | reflexivity]. Qed.

(** The loop from attempt [a] on, run with enough fuel. *)
Lemma attempts_spec L fuel : forall a le s res s',
  (Z.to_nat (l_maxAttempts L - a) <= fuel)%nat ->
  attempts P L fuel a le s = (res, s') ->
  exists evs, grows s s' evs
    /\ (a < l_maxAttempts L ->
        exists n, (1 <= n)%nat /\ retry_marks evs = linear_schedule a n
                  /\ a + Z.of_nat n <= l_maxAttempts L)
    /\ (~ a < l_maxAttempts L -> retry_marks evs = [])
    /\ match res with
       | Ok v =>
           existsb rate_limited (schedule_of evs) = false
           /\ exists d t, response_times evs = [d]
                         /\ stats_of s' = succeeded d t (stats_of s)
       | Throw t =>
           response_times evs = []
           /\ call_failed L (stats_of s) (stats_of s') (schedule_of evs) t
       end.
Proof.
  induction fuel as [|fuel IH]; intros a le s res s' Hfuel H; simpl in H;
    destruct (a <? l_maxAttempts L) eqn:Ea.
  1:{ apply Z.ltb_lt in Ea. lia. }
  1,3: apply Z.ltb_ge in Ea;
       destruct (fail_request_run L le s) as (s1 & E & W & St);
       rewrite E in H; inversion H; subst;
       exists []; (split; [now apply grows_same_world|]);
       (split; [intros; lia|]); (split; [reflexivity|]);
       (split; [reflexivity|]); left; eauto.
  apply Z.ltb_lt in Ea. unfold bind in H.
  destruct (attempt_once P L a le s) as [[step|t] s1] eqn:E1;
    destruct (attempt_once_spec _ _ _ _ _ _ E1) as (ev1 & G1 & R1).
  2:{ (* attachRequestBody threw *)
    inversion H; subst. destruct R1 as (EP & Sch & St).
    exists ev1. split; [exact G1|].
    split.
    { intros _. exists 1%nat. split; [lia|]. split; [|lia].
      now rewrite <- retry_marks_schedule, Sch. }
    split; [intros N; contradiction|].
    split; [now rewrite <- response_times_schedule, Sch|].
    right. left. rewrite Sch. auto. }
  destruct R1 as (fo & o & fb & tl & EP & FB & Sch & R1).
  destruct (fallback_events_quiet _ _ FB) as (FBm & FBr & FBx).
  assert (Esc : forall X : Prop, ~ a < l_maxAttempts L -> X)
    by (intros X N; contradiction).
  destruct step as [v|e|e].
  - (* the pass returned *)
    inversion H; subst. destruct R1 as (NR & d & t & -> & St).
    exists ev1. split; [exact G1|].
    split.
    { intros _. exists 1%nat. split; [lia|]. split; [|lia].
      rewrite <- retry_marks_schedule, Sch. simpl.
      rewrite retry_marks_app, FBm. reflexivity. }
    split; [apply Esc|].
    split.
    { rewrite Sch. simpl existsb. simpl in NR. rewrite existsb_app, FBx.
      destruct o; simpl in *; rewrite ?NR; reflexivity. }
    exists d, t. split; [|exact St].
    rewrite <- response_times_schedule, Sch. simpl.
    rewrite response_times_app, FBr. reflexivity.
  - (* the pass broke out of the loop *)
    destruct R1 as (-> & R1). rewrite app_nil_r in Sch.
    destruct (fail_request_run L e s1) as (s2 & E2 & W2 & St2).
    rewrite E2 in H. inversion H; subst.
    exists ev1. split.
    { rewrite <- (app_nil_r ev1). eapply grows_trans; [exact G1|].
      now apply grows_same_world. }
    split.
    { intros _. exists 1%nat. split; [lia|]. split; [|lia].
      rewrite <- retry_marks_schedule, Sch. simpl. now rewrite FBm. }
    split; [apply Esc|].
    split.
    { rewrite <- response_times_schedule, Sch. simpl. exact FBr. }
    destruct R1 as [(NR & St)|(l & r & -> & E429 & -> & -> & St)].
    + left. rewrite Sch. split.
      { simpl existsb. simpl in NR. rewrite FBx.
        destruct o; simpl in *; rewrite ?NR; reflexivity. }
      rewrite St2, St. eauto.
    + right. right. exists [EvAttempt a], a, (l_url L), fo, l, r. rewrite Sch.
      split; [reflexivity|]. split; [exact E429|]. split; [reflexivity|].
      rewrite St2, St. eauto.
  - (* the pass asks for another attempt *)
    destruct R1 as (-> & Lt & NR & St).
    assert (Hfuel' : (Z.to_nat (l_maxAttempts L - (a + 1)) <= fuel)%nat) by lia.
    destruct (IH _ _ _ _ _ Hfuel' H) as (ev2 & G2 & M2 & _ & R2).
    destruct (M2 ltac:(lia)) as (n & Hn & Mn & Bn).
    assert (NR1 : existsb rate_limited (schedule_of ev1) = false).
    { rewrite Sch. simpl existsb. simpl in NR. rewrite existsb_app, FBx.
      destruct o; simpl in *; rewrite ?NR; reflexivity. }
    assert (RT1 : response_times ev1 = []).
    { rewrite <- response_times_schedule, Sch. simpl.
      rewrite response_times_app, FBr. reflexivity. }
    exists (ev1 ++ ev2)%list. split; [eapply grows_trans; eauto|].
    split.
    { intros _. exists (S n). split; [lia|]. split; [|lia].
      rewrite retry_marks_app, Mn, linear_schedule_step by exact Hn.
      rewrite <- (retry_marks_schedule ev1), Sch. simpl.
      rewrite retry_marks_app, FBm. reflexivity. }
    split; [apply Esc|].
    rewrite schedule_of_app, response_times_app, RT1. simpl.
    destruct res as [v|t].
    + destruct R2 as (NR2 & d & t & RT2 & St2).
      split; [now rewrite existsb_app, NR1, NR2|].
      exists d, t. split; [exact RT2 | now rewrite St2, St].
    + destruct R2 as (RT2 & CF). split; [exact RT2|].
      rewrite St in CF.
      destruct CF as [(NR2 & St2 & e2)|[(NR2 & St2 & EP2)|
                      (pre & i & u & fo2 & l & r & Ep & E429 & NRp & St2 & ra)]].
      * left. rewrite existsb_app, NR1, NR2. auto.
      * congruence.
      * right. right. exists (schedule_of ev1 ++ pre)%list, i, u, fo2, l, r.
        rewrite Ep, app_assoc. split; [reflexivity|]. split; [exact E429|].
        split; [now rewrite existsb_app, NR1, NRp | auto].
Qed.


(** Fuel beyond what the loop can use changes nothing: the bound that
    [request] passes never cuts the loop short. *)
Lemma attempts_enough_fuel L fuel : forall a le s,
  (Z.to_nat (l_maxAttempts L - a) <= fuel)%nat ->
  attempts P L fuel a le s = attempts P L (Z.to_nat (l_maxAttempts L - a)) a le s.
Proof.
  induction fuel as [|fuel IH]; intros a le s Hfuel.
  - replace (Z.to_nat (l_maxAttempts L - a)) with 0%nat by lia. reflexivity.
  - destruct (Z.ltb_spec a (l_maxAttempts L)) as [Lt|Ge].
    + replace (Z.to_nat (l_maxAttempts L - a))
        with (S (Z.to_nat (l_maxAttempts L - (a + 1)))) by lia.
      simpl. apply Z.ltb_lt in Lt. rewrite Lt. unfold bind.
      destruct (attempt_once P L a le s) as [[[v|e|e]|t] s1]; try reflexivity.
      apply IH. lia.
    + replace (Z.to_nat (l_maxAttempts L - a)) with 0%nat by lia.
      simpl. apply Z.ltb_ge in Ge. rewrite Ge. reflexivity.
Qed.

(** *** A whole call *)

Lemma request_unfold m ep d o s :
  request P m ep d o s =
  attempts P (request_locals P s m ep d o)
    (Z.to_nat (l_maxAttempts (request_locals P s m ep d o))) 0 (new_Error "Unknown error")
    (mkState (set_stats incr_totalRequests (client s)) (world s)).
Proof. reflexivity. Qed.

Lemma request_spec m ep d o s res s' :
  request P m ep d o s = (res, s') ->
  let L := request_locals P s m ep d o in
  exists evs, grows s s' evs
    /\ (0 < l_maxAttempts L ->
        exists n, (1 <= n)%nat /\ retry_marks evs = linear_schedule 0 n
                  /\ Z.of_nat n <= l_maxAttempts L)
    /\ (~ 0 < l_maxAttempts L -> retry_marks evs = [])
    /\ match res with
       | Ok v =>
           existsb rate_limited (schedule_of evs) = false
           /\ exists d t, response_times evs = [d]
                         /\ stats_of s' = succeeded d t (incr_totalRequests (stats_of s))
       | Throw t =>
           response_times evs = []
           /\ call_failed L (incr_totalRequests (stats_of s)) (stats_of s')
                (schedule_of evs) t
       end.
Proof.
  rewrite request_unfold. intros H L.
  apply attempts_spec in H; [|fold L; lia].
  destruct H as (evs & G & M1 & M2 & R). exists evs.
  split; [exact G|]. split; [exact M1|]. split; [exact M2 | exact R].
Qed.

(** *** The statistics along a run *)

Lemma tracks_trans a r1 b r2 c :
  tracks a r1 b -> tracks b r2 c -> tracks a (r1 ++ r2)%list c.
Proof.
  intros H1 H2. induction H2; rewrite ?app_nil_r, ?app_assoc; try constructor; auto.
Qed.

Lemma request_tracks m ep d o s :
  exists evs,
    grows s (snd (request P m ep d o s)) evs
    /\ tracks (stats_of s) (response_times evs) (stats_of (snd (request P m ep d o s))).
Proof.
  destruct (request P m ep d o s) as [res s'] eqn:E.
  destruct (request_spec _ _ _ _ _ _ _ E) as (evs & G & _ & _ & R).
  exists evs. split; [exact G|]. simpl.
  destruct res as [v|t].
  - destruct R as (_ & dd & t & -> & ->).
    apply (tracks_success _ [] _ dd t). repeat constructor.
  - destruct R as (-> & [(_ & -> & _)|[(_ & -> & _)|
                          (pre & i & u & fo & l & r & _ & _ & _ & -> & _)]]);
      repeat constructor.
Qed.

Lemma counters_le_refl st : counters_le st st.
Proof. unfold counters_le. lia. Qed.

Lemma tracks_counters_le a r b : tracks a r b -> counters_le a b.
Proof.
  induction 1; [apply counters_le_refl | ..];
    unfold counters_le in *; simpl; lia.
Qed.






(** *** Every operation is tracked *)

Lemma tracked_ret {A} (a : A) : tracked (ret a).
Proof. intros s. exists []. split; [apply grows_refl | constructor]. Qed.

Lemma tracked_throw {A} t : tracked (@throw A t).
Proof. intros s. exists []. split; [apply grows_refl | constructor]. Qed.

Lemma tracked_gets {A} (f : Client -> A) : tracked (gets f).
Proof. intros s. exists []. split; [apply grows_refl | constructor]. Qed.

Lemma tracked_bind {A B} (c : M A) (k : A -> M B) :
  tracked c -> (forall a, tracked (k a)) -> tracked (bind c k).
Proof.
  intros Hc Hk s. unfold bind.
  destruct (Hc s) as (e1 & G1 & T1).
  destruct (c s) as [[a|t] s1]; simpl in *; [|eauto].
  destruct (Hk a s1) as (e2 & G2 & T2).
  exists (e1 ++ e2)%list. split; [eapply grows_trans; eauto|].
  rewrite response_times_app. eapply tracks_trans; eauto.
Qed.

Lemma tracked_try_catch {A} (c : M A) (h : Thrown -> M A) :
  tracked c -> (forall t, tracked (h t)) -> tracked (try_catch c h).
Proof.
  intros Hc Hh s. unfold try_catch.
  destruct (Hc s) as (e1 & G1 & T1).
  destruct (c s) as [[a|t] s1]; simpl in *; [eauto|].
  destruct (Hh t s1) as (e2 & G2 & T2).
  exists (e1 ++ e2)%list. split; [eapply grows_trans; eauto|].
  rewrite response_times_app. eapply tracks_trans; eauto.
Qed.

Lemma tracked_modify_client (f : Client -> Client) :
  (forall c, tracks (_stats c) [] (_stats (f c))) -> tracked (modify_client f).
Proof.
  intros Hf s. exists []. split; [now apply grows_same_world | apply Hf].
Qed.

Lemma tracked_session a (f : Client -> option string) :
  tracked (modify_client (fun c => set_session a (f c) c)).
Proof. apply tracked_modify_client. intros c. constructor. Qed.

Lemma tracked_fetch k url fo : tracked (fetch k url fo).
Proof.
  intros s. destruct (fetch_run k url fo s) as (o & s1 & _ & E & G & C & _).
  rewrite E. simpl. eexists. split; [exact G|].
  unfold stats_of. rewrite C. destruct k; constructor.
Qed.

Lemma tracked_request m ep d o : tracked (request P m ep d o).
Proof. intros s. apply request_tracks. Qed.

Lemma tracked_authenticateWithBasic : tracked (authenticateWithBasic P).
Proof.
  unfold authenticateWithBasic.
  apply tracked_bind; [apply tracked_gets | intros a].
  match goal with |- tracked (if ?b then _ else _) => destruct b end;
    [apply tracked_throw|].
  apply tracked_try_catch; [|intros t; apply tracked_throw].
  apply tracked_bind; [apply tracked_request | intros _].
  apply tracked_bind; [apply tracked_session | intros _; apply tracked_ret].
Qed.

Lemma tracked_authenticateWithJWT : tracked authenticateWithJWT.
Proof.
  unfold authenticateWithJWT.
  apply tracked_bind; [apply tracked_gets | intros a].
  match goal with |- tracked (if ?b then _ else _) => destruct b end;
    [apply tracked_throw|].
  apply tracked_try_catch; [|intros t; apply tracked_throw].
  apply tracked_bind; [apply tracked_gets | intros b].
  apply tracked_bind; [apply tracked_fetch | intros r].
  destruct (negb (ok r)); [apply tracked_throw|].
  destruct (parsed r) as [[|x|x y z w|x]|msg]; try apply tracked_throw;
    (apply tracked_bind;
     [apply tracked_modify_client; intros c; constructor | intros _; apply tracked_ret]).
Qed.

Lemma tracked_authenticateWithCookie : tracked authenticateWithCookie.
Proof.
  unfold authenticateWithCookie.
  apply tracked_bind; [apply tracked_gets | intros a].
  match goal with |- tracked (if ?b then _ else _) => destruct b end;
    [apply tracked_throw|].
  apply tracked_bind; [apply tracked_session | intros _; apply tracked_ret].
Qed.

Lemma tracked_authenticate : tracked (authenticate P).
Proof.
  unfold authenticate.
  apply tracked_bind; [apply tracked_gets | intros m].
  apply tracked_try_catch.
  - repeat match goal with
           | |- tracked (match ?x with _ => _ end) => destruct x
           end;
      try apply tracked_throw;
      try apply tracked_authenticateWithBasic;
      try apply tracked_authenticateWithJWT;
      try apply tracked_authenticateWithCookie;
      (apply tracked_bind; [apply tracked_session | intros _; apply tracked_ret]).
  - intros t. apply tracked_bind; [|intros _; apply tracked_throw].
    apply tracked_modify_client. intros c. simpl. repeat constructor.
Qed.

(** Each operation, run for the state it leaves, is tracked. *)
Lemma run_op_tracks op s :
  exists evs,
    grows s (run_op P op s) evs
    /\ tracks (stats_of s) (response_times evs) (stats_of (run_op P op s)).
Proof.
  assert (W : forall A (c : M A), tracked c ->
              exists evs, grows s (ignore c s) evs
                          /\ tracks (stats_of s) (response_times evs) (stats_of (ignore c s)))
    by (intros A c Hc; exact (Hc s)).
  destruct op; unfold run_op, get, post, put, patch, delete;
    try (apply W, tracked_request); try (apply W, tracked_authenticate).
  - apply W. unfold initialize.
    apply tracked_bind; [apply tracked_authenticate | intros; apply tracked_ret].
  - apply W. unfold disconnect. apply tracked_modify_client. intros c. constructor.
  - apply W. unfold stats. apply tracked_gets.
Qed.

(** Any sequence of operations extends the log and tracks the statistics. *)
Lemma run_ops_tracks ops : forall s,
  exists evs,
    grows s (run_ops P ops s) evs
    /\ tracks (stats_of s) (response_times evs) (stats_of (run_ops P ops s)).
Proof.
  induction ops as [|op ops IH]; intros s; simpl.
  - exists []. split; [apply grows_refl | constructor].
  - destruct (run_op_tracks op s) as (e1 & G1 & T1).
    destruct (IH (run_op P op s)) as (e2 & G2 & T2).
    exists (e1 ++ e2)%list. split; [eapply grows_trans; eauto|].
    rewrite response_times_app. eapply tracks_trans; eauto.
Qed.


(** *** Consequences for one call *)

Lemma request_events m ep d o s res s' evs :
  request P m ep d o s = (res, s') -> grows s s' evs ->
  events_of (request P m ep d o) s = evs.
Proof. intros E G. apply grows_events. now rewrite E. Qed.

Lemma attempts_made_marks evs :
  attempts_made evs
  = flat_map (fun m => match m with inl i => [i] | inr _ => [] end) (retry_marks evs).
Proof.
  induction evs as [|[j|[i| |] u o r|[|] ms|d] evs IH]; simpl; rewrite ?IH; reflexivity.
Qed.

Lemma backoffs_marks evs :
  backoffs evs
  = flat_map (fun m => match m with inl _ => [] | inr ms => [ms] end) (retry_marks evs).
Proof.
  induction evs as [|[j|[i| |] u o r|[|] ms|d] evs IH]; simpl; rewrite ?IH; reflexivity.
Qed.

Lemma linear_schedule_attempts n : forall a,
  flat_map (fun m => match m with inl i => [i] | inr _ => [] end) (linear_schedule a n)
  = count_from a n.
Proof.
  induction n as [|n IH]; intros a; [reflexivity|].
  destruct n as [|n]; [reflexivity|].
  rewrite linear_schedule_step by lia.
  match goal with
  | |- flat_map ?f (?x :: ?y :: ?l) = _ =>
      change (flat_map f (x :: y :: l)) with (f x ++ f y ++ flat_map f l)%list
  end.
  rewrite IH. reflexivity.
Qed.

Lemma linear_schedule_backoffs n : forall a,
  flat_map (fun m => match m with inl _ => [] | inr ms => [ms] end) (linear_schedule a n)
  = linear_backoff a (Nat.pred n).
Proof.
  induction n as [|n IH]; intros a; [reflexivity|].
  destruct n as [|n]; [reflexivity|].
  rewrite linear_schedule_step by lia.
  match goal with
  | |- flat_map ?f (?x :: ?y :: ?l) = _ =>
      change (flat_map f (x :: y :: l)) with (f x ++ f y ++ flat_map f l)%list
  end.
  rewrite IH. reflexivity.
Qed.

Lemma sum_linear_backoff k : forall a,
  sum_Z (linear_backoff a k)
  = 1000 * Z.of_nat k * a + 500 * Z.of_nat k * (Z.of_nat k + 1).
Proof.
  induction k as [|k IH]; intros a; [simpl; ring|].
  change (sum_Z (linear_backoff a (S k)))
    with (1000 * (a + 1) + sum_Z (linear_backoff (a + 1) k)).
  rewrite IH, Nat2Z.inj_succ. unfold Z.succ. ring.
Qed.

Lemma count_from_length a n : length (count_from a n) = n.
Proof. revert a; induction n as [|n IH]; intros a; simpl; [reflexivity | now rewrite IH]. Qed.

(** The attempts of a call and its backoff delays. *)
Lemma request_schedule m ep d o s :
  let L := request_locals P s m ep d o in
  let evs := events_of (request P m ep d o) s in
  exists n,
    retry_marks evs = linear_schedule 0 n
    /\ Z.of_nat n <= Z.max 0 (l_maxAttempts L)
    /\ (0 < l_maxAttempts L -> (1 <= n)%nat)
    /\ now (world s) + sum_Z (backoffs evs) <= now (world (snd (request P m ep d o s))).
Proof.
  intros L evs.
  destruct (request P m ep d o s) as [res s'] eqn:E.
  destruct (request_spec _ _ _ _ _ _ _ E) as (ev & G & M1 & M2 & _).
  unfold evs. rewrite (request_events _ _ _ _ _ _ _ _ E G). simpl snd.
  destruct (Z.ltb_spec 0 (l_maxAttempts L)) as [Lt|Ge].
  - destruct (M1 Lt) as (n & Hn & Mn & Bn). exists n.
    split; [exact Mn|]. split; [fold L in Bn; lia|]. split; [auto | apply G].
  - exists 0%nat. split; [apply M2; fold L; lia|].
    split; [lia|]. split; [lia | apply G].
Qed.


(** What a call does to the counters.  The last case is the exception of
    [attachRequestBody], which leaves the call before the failure is
    counted. *)
Lemma request_accounting m ep d o s :
  let L := request_locals P s m ep d o in
  let st := stats_of s in
  let st' := stats_of (snd (request P m ep d o s)) in
  totalRequests st' = totalRequests st + 1
  /\ match fst (request P m ep d o s) with
     | Ok _ =>
         successfulRequests st' = successfulRequests st + 1
         /\ failedRequests st' = failedRequests st
     | Throw t =>
         successfulRequests st' = successfulRequests st
         /\ (failedRequests st' = failedRequests st + 1
             \/ (failedRequests st' = failedRequests st /\ prepare L = inl t))
     end.
Proof.
  intros L st st'. unfold st, st'.
  destruct (request P m ep d o s) as [res s'] eqn:E.
  destruct (request_spec _ _ _ _ _ _ _ E) as (ev & _ & _ & _ & R). simpl.
  destruct res as [v|t].
  - destruct R as (_ & dd & t & _ & ->). simpl. lia.
  - destruct R as (_ & [(_ & -> & _)|[(_ & -> & EP)|
                        (pre & i & u & fo & l & r & _ & _ & _ & -> & _)]]);
      simpl; auto; lia.
Qed.


(** ** The claims about whole calls *)

(** C9.  Along any sequence of operations of a client (initialize,
    authenticate, disconnect, reading the statistics, request and the
    HTTP helpers), each of the counters totalRequests,
    successfulRequests, failedRequests, rateLimitHits and authFailures
    is at every later point at least what it was at an earlier point:
    no operation decrements or resets one. *)
Theorem counters_never_decrease (ops1 ops2 : list Op) (s : State) :
  counters_le (stats_of (run_ops P ops1 s)) (stats_of (run_ops P (ops1 ++ ops2) s)).
Proof.
  unfold run_ops at 2. rewrite fold_left_app. fold (run_ops P ops1 s).
  fold (run_ops P ops2 (run_ops P ops1 s)).
  destruct (run_ops_tracks ops2 (run_ops P ops1 s)) as (evs & _ & T).
  exact (tracks_counters_le _ _ _ T).
Qed.


(** C5.  In every call of request the attempts are 0, 1, ..., n-1 in
    this order, and between attempt i and attempt i+1 the pipeline waits
    with delay(1000 * (i + 1)): the backoff delays are 1000, 2000, ...,
    growing linearly with the attempt index, their sum is
    500 * k * (k + 1) for k retries, and the clock at the end of the call
    is at least the clock at its start plus this sum. *)
Theorem linear_backoff_schedule (m ep : string) (d : RequestData) (o : RequestOptions)
    (s : State) :
  let evs := events_of (request P m ep d o) s in
  exists n,
    retry_marks evs = linear_schedule 0 n
    /\ attempts_made evs = count_from 0 n
    /\ backoffs evs = linear_backoff 0 (Nat.pred n)
    /\ sum_Z (backoffs evs) = 500 * Z.of_nat (Nat.pred n) * (Z.of_nat (Nat.pred n) + 1)
    /\ now (world s) + sum_Z (backoffs evs) <= now (world (snd (request P m ep d o s))).
Proof.
  intros evs. destruct (request_schedule m ep d o s) as (n & Mn & _ & _ & Hnow).
  fold evs in Mn, Hnow. exists n.
  assert (B : backoffs evs = linear_backoff 0 (Nat.pred n))
    by (now rewrite backoffs_marks, Mn, linear_schedule_backoffs).
  split; [exact Mn|].
  split; [now rewrite attempts_made_marks, Mn, linear_schedule_attempts|].
  split; [exact B|]. split; [|exact Hnow].
  rewrite B, sum_linear_backoff. ring.
Qed.

Lemma attempt_once_rejects L a le s fo :
  prepare L = inr fo ->
  forallb (retried_failure (l_requestTimeout L)) (net (world s)) = true ->
  exists s1 ev1 l t,
    grows s s1 ev1
    /\ schedule_of ev1 = [EvAttempt a; EvFetch (Primary a) (l_url L) fo (Rejects l t)]
    /\ net (world s1) = tl (net (world s))
    /\ is_RateLimit_thrown t = false
    /\ shouldRetryError (normalizeRequestError t (l_requestTimeout L)) = true
    /\ attempt_once P L a le s = on_error L a le t s1.
Proof.
  intros EP All. unfold attempt_once, bind.
  destruct (mark_run (EvAttempt a) s eq_refl) as (sm & Em & Gm & Cm).
  rewrite Em.
  destruct (rateLimit_run sm) as (s0 & evr & E0 & Gr & Schr & St0 & _ & N0).
  rewrite E0, EP.
  assert (Nm : net (world sm) = net (world s)).
  { unfold mark, modify_world in Em. inversion Em. reflexivity. }
  rewrite Nm in N0.
  destruct (fetch_run (Primary a) (l_url L) fo s0) as (o & s1 & Eo & EF & GF & CF & NF).
  rewrite N0 in Eo, NF.
  assert (RF : retried_failure (l_requestTimeout L) o = true).
  { subst o. destruct (net (world s)) as [|x rest]; [reflexivity|].
    simpl in All. apply andb_true_iff in All. apply All. }
  destruct o as [l r|l t]; [discriminate|].
  simpl in RF. apply andb_true_iff in RF. destruct RF as [NR SR].
  apply negb_true_iff in NR.
  exists s1, (([EvAttempt a] ++ evr) ++ [EvFetch (Primary a) (l_url L) fo (Rejects l t)])%list, l, t.
  split; [eapply grows_trans; [eapply grows_trans; eauto | exact GF]|].
  split; [rewrite !schedule_of_app, Schr; reflexivity|].
  split; [exact NF|]. split; [exact NR|]. split; [exact SR|].
  unfold try_catch, bind. rewrite EF. reflexivity.
Qed.

Lemma forallb_tl {A} (f : A -> bool) l : forallb f l = true -> forallb f (tl l) = true.
Proof. destruct l; simpl; [auto|]. intros H. apply andb_true_iff in H. apply H. Qed.

(** With the network failing in this way, the loop uses every attempt. *)
Lemma attempts_all_fail L fo fuel : prepare L = inr fo -> forall a le s res s',
  (Z.to_nat (l_maxAttempts L - a) <= fuel)%nat ->
  forallb (retried_failure (l_requestTimeout L)) (net (world s)) = true ->
  attempts P L fuel a le s = (res, s') ->
  exists evs,
    grows s s' evs
    /\ retry_marks evs = linear_schedule a (Z.to_nat (l_maxAttempts L - a))
    /\ exists e, res = Throw (ThrownError (WordPressAPIError (failure_message L e) None)).
Proof.
  intros EP. induction fuel as [|fuel IH]; intros a le s res s' Hfuel All H; simpl in H;
    destruct (a <? l_maxAttempts L) eqn:Ea.
  1:{ apply Z.ltb_lt in Ea. lia. }
  1,3: apply Z.ltb_ge in Ea;
       destruct (fail_request_run L le s) as (s1 & E & W & St);
       rewrite E in H; inversion H; subst;
       exists []; (split; [now apply grows_same_world|]);
       replace (Z.to_nat (l_maxAttempts L - a)) with 0%nat by lia;
       (split; [reflexivity | eauto]).
  apply Z.ltb_lt in Ea. unfold bind in H.
  destruct (attempt_once_rejects L a le s fo EP All)
    as (s1 & ev1 & l & t & G1 & Sch1 & N1 & NR & SR & E1).
  rewrite E1 in H.
  assert (M1 : retry_marks ev1 = [inl a])
    by (now rewrite <- retry_marks_schedule, Sch1).
  unfold on_error in H. rewrite NR, SR in H. cbn [andb] in H.
  destruct (a <? l_maxAttempts L - 1) eqn:Elast; cbn [negb] in H.
  - apply Z.ltb_lt in Elast.
    set (s2 := snd (delay Backoff (1000 * (a + 1)) s1)) in *.
    assert (G2 : grows s1 s2 [EvDelay Backoff (1000 * (a + 1))]).
    { unfold s2, delay, modify_world. simpl. split; simpl; [reflexivity | lia]. }
    assert (N2 : net (world s2) = net (world s1)) by reflexivity.
    change (attempts P L fuel (a + 1) (normalizeRequestError t (l_requestTimeout L)) s2
            = (res, s')) in H.
    assert (All2 : forallb (retried_failure (l_requestTimeout L)) (net (world s2)) = true)
      by (rewrite N2, N1; now apply forallb_tl).
    assert (Hfuel' : (Z.to_nat (l_maxAttempts L - (a + 1)) <= fuel)%nat) by lia.
    destruct (IH _ _ _ _ _ Hfuel' All2 H) as (ev3 & G3 & M3 & e & ->).
    exists ((ev1 ++ [EvDelay Backoff (1000 * (a + 1))]) ++ ev3)%list.
    split; [eapply grows_trans; [eapply grows_trans; eauto | exact G3]|].
    split; [|eauto].
    rewrite !retry_marks_app, M1, M3.
    replace (Z.to_nat (l_maxAttempts L - a))
      with (S (Z.to_nat (l_maxAttempts L - (a + 1)))) by lia.
    rewrite linear_schedule_step by lia. reflexivity.
  - apply Z.ltb_ge in Elast.
    unfold ret in H.
    destruct (fail_request_run L (normalizeRequestError t (l_requestTimeout L)) s1)
      as (s2 & E2 & W2 & St2).
    rewrite E2 in H. inversion H; subst.
    exists ev1. split.
    { rewrite <- (app_nil_r ev1). eapply grows_trans; [exact G1|].
      now apply grows_same_world. }
    split; [|eauto].
    rewrite M1. replace (Z.to_nat (l_maxAttempts L - a)) with 1%nat by lia. reflexivity.
Qed.


Lemma request_all_fail m ep d o s fo :
  let L := request_locals P s m ep d o in
  prepare L = inr fo ->
  forallb (retried_failure (l_requestTimeout L)) (net (world s)) = true ->
  attempts_made (events_of (request P m ep d o) s) = count_from 0 (Z.to_nat (l_maxAttempts L))
  /\ exists e,
       fst (request P m ep d o s)
       = Throw (ThrownError (WordPressAPIError (failure_message L e) None)).
Proof.
  intros L EP All.
  destruct (request P m ep d o s) as [res s'] eqn:E.
  pose proof E as E'. rewrite request_unfold in E'. fold L in E'.
  assert (Hfuel : (Z.to_nat (l_maxAttempts L - 0) <= Z.to_nat (l_maxAttempts L))%nat) by lia.
  destruct (attempts_all_fail L fo _ EP 0 _
              (mkState (set_stats incr_totalRequests (client s)) (world s)) _ _ Hfuel All E')
    as (evs & G & Mk & e & ->).
  rewrite (request_events _ _ _ _ _ _ _ _ E G).
  rewrite attempts_made_marks, Mk, linear_schedule_attempts, Z.sub_0_r.
  split; [reflexivity | exists e; reflexivity].
Qed.

(** C3 (amended).  A call of request whose body is an instance of the
    FormData class that the client imports, or an object with a [pipe]
    function, has maxAttempts 1 whatever retry count is configured, and
    makes exactly one attempt, attempt 0.  For every other body (absent,
    a string, a Buffer, and any other object, also a form that is
    recognised by its [append] function only) the configured maximum
    applies: maxAttempts is the [retries] option when it is a positive
    number, else maxRetries of the client, else 1.  The call never makes
    more attempts, and it makes exactly that many, and fails with the
    attempt-count error, when every request fails in a way that is
    retried. *)
Theorem non_replayable_body_single_attempt (m ep : string) (d : RequestData)
    (o : RequestOptions) (s : State) :
  let L := request_locals P s m ep d o in
  let call := request P m ep d o in
  let evs := events_of call s in
  let default := if maxRetries (client s) =? 0 then 1 else maxRetries (client s) in
  let configured :=
    match opt_retries o with
    | Some retries => if 0 <? retries then retries else default
    | None => default
    end in
  let single := l_maxAttempts L = 1 /\ attempts_made evs = [0] in
  let up_to_configured :=
    l_maxAttempts L = configured
    /\ Z.of_nat (length (attempts_made evs)) <= Z.max 0 configured
    /\ (forall fo,
          prepare L = inr fo ->
          forallb (retried_failure (l_requestTimeout L)) (net (world s)) = true ->
          attempts_made evs = count_from 0 (Z.to_nat configured)
          /\ exists e,
               fst (call s)
               = Throw (ThrownError
                          (WordPressAPIError
                             ("Request failed after " ++ of_Z configured ++ " attempt"
                              ++ (if configured =? 1 then EmptyString else "s")
                              ++ ": " ++ message e) None))) in
  match d with
  | DFormData _ => single
  | DObject ob => if pipe_is_function ob then single else up_to_configured
  | DNull | DString _ | DBuffer _ => up_to_configured
  end.
Proof.
  intros L call evs default configured single up_to_configured.
  destruct (request_schedule m ep d o s) as (n & Mn & Bn & Pn & _).
  fold call evs in Mn. fold L in Bn, Pn.
  assert (A : attempts_made evs = count_from 0 n)
    by (now rewrite attempts_made_marks, Mn, linear_schedule_attempts).
  assert (EL : l_maxAttempts L = if isRetryableBody d then configured else 1) by reflexivity.
  assert (One : isRetryableBody d = false -> single).
  { intros R. rewrite R in EL. split; [exact EL|]. rewrite A.
    assert (n = 1%nat) by lia. subst n. reflexivity. }
  assert (Many : isRetryableBody d = true -> up_to_configured).
  { intros R. rewrite R in EL. split; [exact EL|]. split.
    - rewrite A, count_from_length, <- EL. exact Bn.
    - intros fo EP All.
      destruct (request_all_fail m ep d o s fo EP All) as (Ex & e & Et).
      fold call evs L in Ex, Et. rewrite EL in Ex. split; [exact Ex|].
      exists e. rewrite Et. unfold failure_message. rewrite EL. reflexivity. }
  destruct d as [| | | |ob]; try (apply Many; reflexivity); try (apply One; reflexivity).
  simpl in One, Many. destruct (pipe_is_function ob); [apply One | apply Many]; reflexivity.
Qed.

(** C1 (amended).  When an attempt of a call of request is answered with
    status 429, that response is the last event of the call's schedule
    (no fallback, no backoff and no further attempt follow, whatever
    retries remain), rateLimitHits and failedRequests are each
    incremented by one, and the caller receives a WordPressAPIError whose
    message is the attempt-count text followed by the message of the 429
    response.  The RateLimitError with its retry-after estimate of
    now + 60000 is raised by handleErrorResponseWithFallback inside the
    pipeline and ends the loop; it is not what the caller receives. *)
Theorem rate_limit_stops_the_call (m ep : string) (d : RequestData)
    (o : RequestOptions) (s : State) :
  let L := request_locals P s m ep d o in
  let run := request P m ep d o s in
  let sched := schedule_of (events_of (request P m ep d o) s) in
  existsb rate_limited sched = true ->
  (exists pre i u fo l r,
     sched = (pre ++ [EvFetch (Primary i) u fo (Resolves l r)])%list
     /\ status r = 429
     /\ existsb rate_limited pre = false
     /\ rateLimitHits (stats_of (snd run)) = rateLimitHits (stats_of s) + 1
     /\ failedRequests (stats_of (snd run)) = failedRequests (stats_of s) + 1
     /\ exists ra,
          fst run = Throw (ThrownError
                      (WordPressAPIError
                         (failure_message L (RateLimitError (error_message r) ra)) None)))
  /\ (forall r url ep' to fo timer s0,
        status r = 429 ->
        handleErrorResponseWithFallback P r url ep' to fo timer s0
        = (Throw (ThrownError (RateLimitError (error_message r) (now (world s0) + 60000))),
           mkState (set_stats incr_rateLimitHits (client s0)) (world s0))).
Proof.
  intros L run sched Hx. split.
  - unfold run, sched in *.
    destruct (request P m ep d o s) as [res s'] eqn:E.
    destruct (request_spec _ _ _ _ _ _ _ E) as (ev & G & _ & _ & R).
    rewrite (request_events _ _ _ _ _ _ _ _ E G) in *. simpl.
    destruct res as [v|t].
    + destruct R as (NR & _). congruence.
    + destruct R as (_ & [(NR & _)|[(NR & _)|
                            (pre & i & u & fo & l & r & Es & E429 & NRp & St & ra & Et)]]);
        try congruence.
      exists pre, i, u, fo, l, r. rewrite St. simpl. subst t. eauto 10.
  - intros r url ep' to fo timer s0 E429.
    unfold handleErrorResponseWithFallback. rewrite E429. reflexivity.
Qed.


(** ** The claims about one attempt *)

Lemma shouldRetryError_exempt e : shouldRetryError e = negb (exempt_from_retry e).
Proof.
  unfold shouldRetryError, exempt_from_retry.
  destruct (includes "401" _), (includes "403" _), (includes "timeout" _),
    (includes "network connection lost" _); reflexivity.
Qed.

Lemma timeout_message_exempt to :
  exempt_from_retry (new_Error ("Request timeout after " ++ of_Z to ++ "ms")) = true.
Proof.
  unfold exempt_from_retry.
  assert (T : includes "timeout"
                (toLowerCase (message (new_Error ("Request timeout after " ++ of_Z to ++ "ms"))))
              = true).
  { change (message (new_Error ("Request timeout after " ++ of_Z to ++ "ms")))
      with ("Request timeout after " ++ (of_Z to ++ "ms")).
    rewrite toLowerCase_app. apply includes_app_l. reflexivity. }
  rewrite T. now rewrite !orb_true_r.
Qed.

Lemma connection_lost_message_exempt m :
  exempt_from_retry (new_Error ("Network connection lost during request: " ++ m)) = true.
Proof.
  unfold exempt_from_retry.
  assert (T : includes "network connection lost"
                (toLowerCase
                   (message (new_Error ("Network connection lost during request: " ++ m))))
              = true).
  { change (message (new_Error ("Network connection lost during request: " ++ m)))
      with ("Network connection lost during request: " ++ m).
    rewrite toLowerCase_app. apply includes_app_l. reflexivity. }
  rewrite T. now rewrite !orb_true_r.
Qed.

Lemma classified_errors_exempt t to :
  timeout_or_connection_loss t -> exempt_from_retry (normalizeRequestError t to) = true.
Proof.
  destruct t as [err| |]; try contradiction. intros H.
  unfold normalizeRequestError.
  destruct (String.eqb_spec (name err) "AbortError") as [_|Hn];
    [apply timeout_message_exempt|].
  destruct H as [H|H]; [contradiction|].
  assert (C : includes "socket hang up" (message err) || includes "ECONNRESET" (message err)
              = true) by (destruct H as [-> | ->]; [reflexivity | apply orb_true_r]).
  rewrite C. apply connection_lost_message_exempt.
Qed.

(** C2 (amended).  For a value thrown during an attempt (other than the
    RateLimitError, which always ends the loop): an error classified as
    timeout (abort) or connection loss is never retried; nor is any
    error whose lower-cased message contains 401, 403, timeout or
    network connection lost; every other thrown error is retried when
    attempts remain (attempt < maxAttempts - 1): the loop waits
    1000 * (attempt + 1) ms and continues; otherwise it ends. *)
Theorem retry_policy_of_thrown_errors (L : Locals) (a : Z) (le : JsError) (t : Thrown)
    (s : State) :
  is_RateLimit_thrown t = false ->
  let e := normalizeRequestError t (l_requestTimeout L) in
  shouldRetryError e = negb (exempt_from_retry e)
  /\ (timeout_or_connection_loss t -> exempt_from_retry e = true)
  /\ on_error L a le t s
     = if negb (exempt_from_retry e) && (a <? l_maxAttempts L - 1)
       then (Ok (Continue e), snd (delay Backoff (1000 * (a + 1)) s))
       else (Ok (Break e), s).
Proof.
  intros NR e. split; [apply shouldRetryError_exempt|].
  split; [apply classified_errors_exempt|].
  unfold on_error. rewrite NR. fold e. rewrite shouldRetryError_exempt.
  destruct (negb (exempt_from_retry e) && (a <? l_maxAttempts L - 1)); reflexivity.
Qed.

Lemma fetch_resolves k url fo s l r rest :
  net (world s) = Resolves l r :: rest ->
  exists s',
    fetch k url fo s = (Ok r, s')
    /\ grows s s' [EvFetch k url fo (Resolves l r)]
    /\ client s' = client s /\ net (world s') = rest.
Proof.
  intros N. destruct (fetch_run k url fo s) as (o & s' & Eo & E & G & C & N').
  rewrite N in Eo, N'. subst o. eauto 6.
Qed.

(** The pass of the loop up to the response: it runs the statements of
    the [try] block on the response, in a state that differs from the
    start by the rate limiter and the request. *)
Lemma attempt_once_resolves L a le s fo l r rest :
  prepare L = inr fo -> net (world s) = Resolves l r :: rest ->
  exists s1 ev1,
    grows s s1 ev1
    /\ schedule_of ev1 = [EvAttempt a; EvFetch (Primary a) (l_url L) fo (Resolves l r)]
    /\ stats_of s1 = stats_of s /\ net (world s1) = rest
    /\ attempt_once P L a le s
       = try_catch (on_response P L fo le r) (on_error L a le) s1.
Proof.
  intros EP N. unfold attempt_once, bind.
  destruct (mark_run (EvAttempt a) s eq_refl) as (sm & Em & Gm & Cm).
  rewrite Em.
  destruct (rateLimit_run sm) as (s0 & evr & E0 & Gr & Schr & St0 & _ & N0).
  rewrite E0, EP.
  assert (Nm : net (world sm) = net (world s)).
  { unfold mark, modify_world in Em. inversion Em. reflexivity. }
  rewrite Nm, N in N0.
  destruct (fetch_resolves (Primary a) (l_url L) fo s0 l r rest N0) as (s1 & EF & GF & CF & NF).
  exists s1, (([EvAttempt a] ++ evr) ++ [EvFetch (Primary a) (l_url L) fo (Resolves l r)])%list.
  split; [eapply grows_trans; [eapply grows_trans; eauto | exact GF]|].
  split; [rewrite !schedule_of_app, Schr; reflexivity|].
  split; [unfold stats_of in *; now rewrite CF, St0, Cm|].
  split; [exact NF|].
  unfold try_catch, bind. rewrite EF. reflexivity.
Qed.

(** A pass that returns ends the call with that value. *)
Lemma attempts_return L fuel a le s v s' :
  a < l_maxAttempts L ->
  attempt_once P L a le s = (Ok (Return v), s') ->
  attempts P L (S fuel) a le s = (Ok v, s').
Proof.
  intros Lt E. simpl. apply Z.ltb_lt in Lt. rewrite Lt. unfold bind. rewrite E.
  reflexivity.
Qed.

Lemma succeeded_count d t st :
  successfulRequests (succeeded d t st) = successfulRequests st + 1.
Proof. reflexivity. Qed.



Lemma fallbacks_app a b : fallbacks (a ++ b)%list = (fallbacks a ++ fallbacks b)%list.
Proof.
  induction a as [|[j|[i| |] u o r|[|] ms|d] a IH]; simpl; rewrite ?IH; reflexivity.
Qed.

Lemma fallbacks_schedule evs : fallbacks (schedule_of evs) = fallbacks evs.
Proof.
  induction evs as [|[j|[i| |] u o r|[|] ms|d] evs IH]; simpl; rewrite ?IH; reflexivity.
Qed.

(** What the [catch] block decides does not depend on the state. *)
Lemma on_error_fst L a le t s s' : fst (on_error L a le t s) = fst (on_error L a le t s').
Proof.
  unfold on_error. destruct (is_RateLimit_thrown t); [destruct t; reflexivity|].
  destruct (negb _); reflexivity.
Qed.

Lemma on_error_quiet L a le t s :
  exists evs,
    grows s (snd (on_error L a le t s)) evs
    /\ fallbacks evs = []
    /\ stats_of (snd (on_error L a le t s)) = stats_of s.
Proof.
  destruct (on_error L a le t s) as [res s'] eqn:E.
  destruct (on_error_spec _ _ _ _ _ _ _ E) as [HR HN]. simpl.
  destruct (is_RateLimit_thrown t).
  - destruct (HR eq_refl) as (-> & _). exists []. split; [apply grows_refl | auto].
  - destruct (HN eq_refl) as [(-> & _)|(_ & G & C & _)].
    + exists []. split; [apply grows_refl | auto].
    + eexists. split; [exact G|]. split; [reflexivity|].
      unfold stats_of. now rewrite C.
Qed.

Lemma on_error_last L a le t s :
  is_RateLimit_thrown t = false -> l_maxAttempts L = a + 1 ->
  fst (on_error L a le t s) = Ok (Break (normalizeRequestError t (l_requestTimeout L))).
Proof.
  intros NR Ea. unfold on_error. rewrite NR, Ea.
  replace (a <? a + 1 - 1) with false by (symmetry; apply Z.ltb_ge; lia).
  rewrite andb_false_r. reflexivity.
Qed.

Lemma attempts_break L fuel a le s e s' :
  a < l_maxAttempts L ->
  attempt_once P L a le s = (Ok (Break e), s') ->
  fst (attempts P L (S fuel) a le s)
  = Throw (ThrownError (WordPressAPIError (failure_message L e) None)).
Proof.
  intros Lt E. simpl. apply Z.ltb_lt in Lt. rewrite Lt. unfold bind. rewrite E.
  reflexivity.
Qed.

Lemma not_found_not_ok r : status r = 404 -> ok r = false.
Proof. unfold ok. intros ->. reflexivity. Qed.

(** C4 (amended).  For an attempt of request answered with status 404 on
    a URL containing /wp-json/wp/v2, when the error message of the
    response is text (a string, or an array, which has an [includes]
    method too) and the media-restriction guard does not intercept it:
    exactly one fallback request is made in that attempt, to
    origin + /index.php?rest_route=/wp/v2 + the path without the prefix
    (+ & and the query when there is one), with the same method, headers
    and body.  If the fallback returns 2xx with an empty body or a JSON
    body, the call returns null or the parsed value and
    successfulRequests is incremented.  If the fallback is rejected, is
    not 2xx or has a body that is not JSON, the attempt fails with a
    WordPressAPIError carrying the message and status of the original
    404, no success is counted, and this error falls under the retry
    policy like any other: on the last attempt the caller receives the
    attempt-count error whose text ends with the original message. *)
Theorem not_found_fallback (L : Locals) (fuel : nat) (a : Z) (le : JsError) (s : State)
    (fo : FetchOptions) (l : N) (r : Response) (rest : list FetchOutcome) (u : URL)
    (found : bool) :
  a < l_maxAttempts L ->
  prepare L = inr fo ->
  net (world s) = Resolves l r :: rest ->
  status r = 404 ->
  includes "/wp-json/wp/v2" (l_url L) = true ->
  member_includes "Beiträge zu erstellen" (error_message_value r) = inr found ->
  found && includes "media" (l_endpoint L) = false ->
  URL_parse P (l_url L) = Some u ->
  let o2 := match rest with
            | o :: _ => o
            | [] => Rejects 0 (ThrownError (new_TypeError "fetch failed"))
            end in
  let original := WordPressAPIError (error_message r) (Some 404) in
  let pass := attempt_once P L a le s in
  let run := attempts P L (S fuel) a le s in
  let failed :=
    fst pass = fst (on_error L a le (ThrownError original) s)
    /\ successfulRequests (stats_of (snd pass)) = successfulRequests (stats_of s)
    /\ (l_maxAttempts L = a + 1 ->
        fst run
        = Throw (ThrownError
                   (WordPressAPIError
                      (failure_message L
                         (normalizeRequestError (ThrownError original) (l_requestTimeout L)))
                      None))
        /\ exists pre,
             message (normalizeRequestError (ThrownError original) (l_requestTimeout L))
             = pre ++ error_message r) in
  let succeeded_with v :=
    fst run = Ok v
    /\ successfulRequests (stats_of (snd run)) = successfulRequests (stats_of s) + 1 in
  fallbacks (events_of (attempt_once P L a le) s) = [(fallback_url u, fo)]
  /\ match o2 with
     | Resolves _ r2 =>
         if ok r2 then
           match text r2, parsed r2 with
           | EmptyString, _ => succeeded_with JNull
           | _, inl v => succeeded_with v
           | _, inr _ => failed
           end
         else failed
     | Rejects _ _ => failed
     end.
Proof.
  intros Lt EP N E404 Hurl Hfound Hguard Hu o2 original pass run failed succeeded_with.
  destruct (attempt_once_resolves L a le s fo l r rest EP N)
    as (s1 & ev1 & G1 & Sch1 & St1 & N1 & E1).
  assert (F1 : fallbacks ev1 = []) by (now rewrite <- fallbacks_schedule, Sch1).
  destruct (fetch_run Fallback (fallback_url u) fo s1) as (o & s2 & Eo & EF & GF & CF & _).
  rewrite N1 in Eo. fold o2 in Eo. subst o.
  assert (St2 : stats_of s2 = stats_of s) by (unfold stats_of in *; now rewrite CF).
  pose proof (grows_trans _ _ _ _ _ G1 GF) as G2.
  assert (F2 : fallbacks (ev1 ++ [EvFetch Fallback (fallback_url u) fo o2])
               = [(fallback_url u, fo)])
    by (rewrite fallbacks_app, F1; reflexivity).
  (* the error handler up to the fallback request *)
  assert (EH : handleErrorResponseWithFallback P r (l_url L) (l_endpoint L)
                 (l_requestTimeout L) fo (l_timer L) s1
               = bind (tryIndexPhpFallback P (l_url L) (l_requestTimeout L) fo (l_timer L))
                   (fun fallbackResult =>
                      match fallbackResult with
                      | Some v => ret (Some v)
                      | None => throw_error original
                      end) s1).
  { unfold handleErrorResponseWithFallback.
    rewrite E404, Hurl, Hfound, Hguard. reflexivity. }
  assert (Eresp : on_response P L fo le r s1
                  = bind (handleErrorResponseWithFallback P r (l_url L) (l_endpoint L)
                            (l_requestTimeout L) fo (l_timer L))
                      (fun fallbackResult =>
                         match fallbackResult with
                         | Some v => ret (Return v)
                         | None => ret (Continue le)
                         end) s1).
  { unfold on_response. rewrite (not_found_not_ok _ E404). reflexivity. }
  (* the two ways the fallback ends *)
  assert (Failing : tryIndexPhpFallback P (l_url L) (l_requestTimeout L) fo (l_timer L) s1
                 = (Ok None, s2) -> fallbacks (events_of (attempt_once P L a le) s)
                                    = [(fallback_url u, fo)] /\ failed).
  { intros ET.
    assert (EP1 : pass = on_error L a le (ThrownError original) s2).
    { unfold pass. rewrite E1. unfold try_catch. rewrite Eresp. unfold bind at 1.
      rewrite EH. unfold bind at 1. rewrite ET. reflexivity. }
    destruct (on_error_quiet L a le (ThrownError original) s2) as (ev3 & G3 & F3 & St3).
    split.
    - apply (f_equal snd) in EP1. unfold pass in EP1.
      rewrite <- EP1 in G3.
      rewrite (grows_events _ _ _ (grows_trans _ _ _ _ _ G2 G3)).
      now rewrite fallbacks_app, F2, F3.
    - unfold failed. rewrite EP1.
      split; [apply on_error_fst|]. split; [now rewrite St3, St2|].
      intros Last.
      pose proof (on_error_last L a le (ThrownError original) s2 eq_refl Last) as EB.
      split.
      + destruct (on_error L a le (ThrownError original) s2) as [res s3] eqn:E3.
        simpl in EB. subst res.
        unfold run. apply (attempts_break L fuel a le s _ s3 Lt).
        fold pass. exact EP1.
      + unfold normalizeRequestError, original. simpl.
        destruct (includes "socket hang up" (error_message r)
                  || includes "ECONNRESET" (error_message r)).
        * exists "Network connection lost during request: ". reflexivity.
        * exists EmptyString. reflexivity. }
  assert (Succ : forall v dd t s3,
             tryIndexPhpFallback P (l_url L) (l_requestTimeout L) fo (l_timer L) s1
             = (Ok (Some v), s3) ->
             grows s2 s3 [EvResponseTime dd] ->
             stats_of s3 = succeeded dd t (stats_of s2) ->
             fallbacks (events_of (attempt_once P L a le) s) = [(fallback_url u, fo)]
             /\ succeeded_with v).
  { intros v dd t s3 ET G3 St3.
    assert (EP1 : pass = (Ok (Return v), s3)).
    { unfold pass. rewrite E1. unfold try_catch. rewrite Eresp. unfold bind at 1.
      rewrite EH. unfold bind at 1. rewrite ET. reflexivity. }
    split.
    - apply (f_equal snd) in EP1. unfold pass in EP1. simpl in EP1.
      rewrite <- EP1 in G3.
      rewrite (grows_events _ _ _ (grows_trans _ _ _ _ _ G2 G3)).
      now rewrite fallbacks_app, F2.
    - unfold succeeded_with, run.
      rewrite (attempts_return L fuel a le s v s3 Lt EP1). simpl.
      rewrite St3, St2, succeeded_count. auto. }
  assert (ET0 : tryIndexPhpFallback P (l_url L) (l_requestTimeout L) fo (l_timer L) s1
                = try_catch
                    (fallbackResponse <- fetch Fallback (fallback_url u) fo ;;
                     if negb (ok fallbackResponse) then ret None
                     else
                       if negb (truthy (text fallbackResponse)) then
                         count_success (l_timer L) ;;; ret (Some JNull)
                       else
                         match parsed fallbackResponse with
                         | inr msg => throw_error (mkError PlainError "SyntaxError" msg)
                         | inl result => count_success (l_timer L) ;;; ret (Some result)
                         end)
                    (fun _ => ret None) s1).
  { unfold tryIndexPhpFallback. rewrite Hu. reflexivity. }
  unfold try_catch, bind in ET0. rewrite EF in ET0.
  destruct (count_success_run (l_timer L) s2) as (s3 & E3 & G3 & St3 & _).
  destruct o2 as [l2 r2|l2 t2].
  - destruct (ok r2) eqn:Eok2; cbn [negb] in ET0.
    + destruct (text r2) as [|c tx] eqn:Et2; cbn [negb truthy] in ET0.
      * unfold bind in ET0. rewrite E3 in ET0. unfold ret in ET0.
         exact (Succ _ _ _ _ ET0 G3 St3).
      * destruct (parsed r2) as [v|msg] eqn:Ep2.
        -- unfold bind in ET0. rewrite E3 in ET0. unfold ret in ET0.
         exact (Succ _ _ _ _ ET0 G3 St3).
        -- apply (Failing ET0).
    + apply (Failing ET0).
  - apply (Failing ET0).
Qed.


(** ** Construction *)

Lemma snoc_cases s : s = EmptyString \/ exists s' c, s = s' ++ String c EmptyString.
Proof.
  induction s as [|a s IH]; [now left | right].
  destruct IH as [->|(s' & c & ->)].
  - exists EmptyString, a. reflexivity.
  - exists (String a s'), c. reflexivity.
Qed.

Lemma ends_with_slash_snoc s c : ends_with_slash (s ++ String c EmptyString) = Ascii.eqb c "/".
Proof.
  induction s as [|a s IH]; [reflexivity|].
  change (String a s ++ String c EmptyString) with (String a (s ++ String c EmptyString)).
  destruct s as [|b s]; exact IH.
Qed.

Lemma strip_trailing_slash_snoc s c :
  strip_trailing_slash (s ++ String c EmptyString)
  = if Ascii.eqb c "/" then s else s ++ String c EmptyString.
Proof.
  induction s as [|a s IH].
  - simpl. destruct (Ascii.eqb c "/"); reflexivity.
  - change (String a s ++ String c EmptyString) with (String a (s ++ String c EmptyString)).
    assert (E : strip_trailing_slash (String a (s ++ String c EmptyString))
                = String a (strip_trailing_slash (s ++ String c EmptyString)))
      by (destruct s; reflexivity).
    rewrite E, IH. destruct (Ascii.eqb c "/"); reflexivity.
Qed.

Lemma length_append a b : String.length (a ++ b) = (String.length a + String.length b)%nat.
Proof. induction a as [|c a IH]; simpl; [reflexivity | now rewrite IH]. Qed.

Lemma drop_append a b : drop (String.length a) (a ++ b) = b.
Proof. induction a as [|c a IH]; simpl; [reflexivity | exact IH]. Qed.

Lemma endsWith_append s suffix : endsWith suffix (s ++ suffix) = true.
Proof.
  unfold endsWith. rewrite length_append.
  replace (String.length s + String.length suffix - String.length suffix)%nat
    with (String.length s) by lia.
  rewrite drop_append, String.eqb_refl, andb_true_r. apply Nat.leb_le. lia.
Qed.

Lemma append_assoc a b c : (a ++ b) ++ c = a ++ (b ++ c).
Proof. induction a as [|x a IH]; simpl; [reflexivity | now rewrite IH]. Qed.

(** Two removals of one slash leave a slash at the end only when the
    text ended with three. *)
Lemma strip_twice s :
  ends_with_slash (strip_trailing_slash (strip_trailing_slash s)) = true ->
  endsWith "///" s = true.
Proof.
  assert (Step : forall x, ends_with_slash x = true -> exists y, x = y ++ "/").
  { intros x Hx. destruct (snoc_cases x) as [->|(y & c & ->)]; [discriminate|].
    rewrite ends_with_slash_snoc in Hx. apply Ascii.eqb_eq in Hx. subst c. eauto. }
  assert (Keep : forall x, ends_with_slash (strip_trailing_slash x) = true ->
                           ends_with_slash x = true).
  { intros x Hx. destruct (snoc_cases x) as [->|(y & c & ->)]; [discriminate|].
    rewrite ends_with_slash_snoc. rewrite strip_trailing_slash_snoc in Hx.
    destruct (Ascii.eqb c "/") eqn:E; [reflexivity|].
    rewrite ends_with_slash_snoc, E in Hx. discriminate. }
  intros H.
  pose proof (Keep _ H) as H1. pose proof (Keep _ H1) as H0.
  destruct (Step _ H0) as (y0 & ->).
  rewrite strip_trailing_slash_snoc in H, H1. simpl in H, H1.
  destruct (Step _ H1) as (y1 & ->).
  rewrite strip_trailing_slash_snoc in H. simpl in H.
  destruct (Step _ H) as (y2 & ->).
  rewrite !append_assoc. apply endsWith_append.
Qed.

Lemma private_hostname_detected h :
  private_hostname h -> is_private_host (toLowerCase h) = true.
Proof.
  intros [ | |rest|b rest Hb|rest]; try reflexivity.
  { unfold is_private_host, startsWith.
    assert (E : String.prefix "10." (toLowerCase ("10." ++ rest)) = true)
      by (rewrite toLowerCase_app; apply prefix_app; reflexivity).
    rewrite E, orb_true_r. reflexivity. }
  2:{ unfold is_private_host, startsWith.
      assert (E : String.prefix "192.168." (toLowerCase ("192.168." ++ rest)) = true)
        by (rewrite toLowerCase_app; apply prefix_app; reflexivity).
      rewrite E. apply orb_true_r. }
  assert (Cases : b = 16 \/ b = 17 \/ b = 18 \/ b = 19 \/ b = 20 \/ b = 21 \/ b = 22
                  \/ b = 23 \/ b = 24 \/ b = 25 \/ b = 26 \/ b = 27 \/ b = 28 \/ b = 29
                  \/ b = 30 \/ b = 31) by lia.
  repeat (destruct Cases as [->|Cases]; [reflexivity|]). subst b. reflexivity.
Qed.

(** For a base URL that parses with scheme http or https: when its
    hostname is localhost, 127.0.0.1 or an address in 10.x, 172.16-31.x
    or 192.168.x, construction in production mode fails with the
    private-URL error, and in non-production mode the same URL is
    accepted.  Every accepted URL is stored as scheme//host/path, so
    without query and fragment, with the slash at its end removed; the
    stored text has no slash at its end when the path ends in at most two
    slashes. *)
Lemma named_hosts_rejected_in_production (cfg : Config) (options : ClientOptions)
    (url : string) (parsed : URL) :
  o_baseUrl options = Some url ->
  truthy url = true ->
  URL_parse P url = Some parsed ->
  protocol parsed = "http:" \/ protocol parsed = "https:" ->
  (private_hostname (hostname parsed) -> isProduction cfg = true ->
   constructor P cfg options
   = inl (new_Error "Private/localhost URLs not allowed in production"))
  /\ (isProduction cfg = false -> exists c, constructor P cfg options = inr c)
  /\ (forall c, constructor P cfg options = inr c ->
        baseUrl c = strip_trailing_slash (strip_trailing_slash (clean_url parsed))
        /\ apiUrl c = baseUrl c ++ "/wp-json/wp/v2"
        /\ (endsWith "///" (clean_url parsed) = false -> ends_with_slash (baseUrl c) = false)).
Proof.
  intros Eo Ht Eu Hp.
  assert (Eurl : or_opt (o_baseUrl options) (or_opt (siteUrl cfg) EmptyString) = url).
  { rewrite Eo. unfold or_opt at 1, JsString.or. now rewrite Ht. }
  assert (Ep : negb (String.eqb (protocol parsed) "http:"
                     || String.eqb (protocol parsed) "https:") = false)
    by (destruct Hp as [-> | ->]; reflexivity).
  assert (Ev : forall production,
             validateAndSanitizeUrl P production url
             = if production && is_private_host (toLowerCase (hostname parsed))
               then inl (new_Error "Private/localhost URLs not allowed in production")
               else inr (strip_trailing_slash (clean_url parsed))).
  { intros production. unfold validateAndSanitizeUrl. rewrite Ht, Eu, Ep. reflexivity. }
  assert (Nonempty : truthy (strip_trailing_slash (clean_url parsed)) = true).
  { unfold clean_url. destruct Hp as [-> | ->]; reflexivity. }
  split; [|split].
  - intros Hpriv Hprod. unfold constructor.
    rewrite Eurl, Ev, Hprod, (private_hostname_detected _ Hpriv). reflexivity.
  - intros Hprod. unfold constructor. rewrite Eurl, Ev, Hprod. simpl andb. cbv iota.
    unfold validateConfig. simpl baseUrl. rewrite Nonempty. simpl. eauto.
  - intros c Hc. unfold constructor in Hc. rewrite Eurl, Ev in Hc.
    destruct (isProduction cfg && is_private_host (toLowerCase (hostname parsed)));
      [discriminate|].
    unfold validateConfig in Hc. simpl baseUrl in Hc. rewrite Nonempty in Hc.
    simpl in Hc. inversion Hc; subst c. simpl.
    split; [reflexivity|]. split; [reflexivity|].
    intros H3. destruct (ends_with_slash _) eqn:E; [|reflexivity].
    apply strip_twice in E. congruence.
Qed.

(** C8.  The test for the IPv6 loopback address compares the hostname
    with ::1, but the hostname of a URL has an IPv6 literal in brackets,
    and the test for the IPv4 loopback names 127.0.0.1 only.  A base URL
    with scheme http or https whose hostname is [::1], or an address
    127.x other than 127.0.0.1, passes the tests: construction in
    production mode accepts it and stores it like any other URL. *)
Theorem loopback_accepted_in_production (cfg : Config) (options : ClientOptions)
    (url : string) (parsed : URL) :
  o_baseUrl options = Some url ->
  truthy url = true ->
  URL_parse P url = Some parsed ->
  protocol parsed = "http:" \/ protocol parsed = "https:" ->
  other_loopback (toLowerCase (hostname parsed)) ->
  isProduction cfg = true ->
  is_private_host (toLowerCase (hostname parsed)) = false
  /\ exists c,
       constructor P cfg options = inr c
       /\ baseUrl c = strip_trailing_slash (strip_trailing_slash (clean_url parsed)).
Proof.
  intros Eo Ht Eu Hp Hl Hprod.
  assert (Np : is_private_host (toLowerCase (hostname parsed)) = false).
  { destruct Hl as [-> | (rest & -> & Hr)]; [reflexivity|].
    unfold is_private_host. cbn.
    destruct (String.eqb_spec rest "0.0.1") as [E|_]; [contradiction | reflexivity]. }
  split; [exact Np|].
  assert (Eurl : or_opt (o_baseUrl options) (or_opt (siteUrl cfg) EmptyString) = url).
  { rewrite Eo. unfold or_opt at 1, JsString.or. now rewrite Ht. }
  assert (Ep : negb (String.eqb (protocol parsed) "http:"
                     || String.eqb (protocol parsed) "https:") = false)
    by (destruct Hp as [-> | ->]; reflexivity).
  assert (Nonempty : truthy (strip_trailing_slash (clean_url parsed)) = true).
  { unfold clean_url. destruct Hp as [-> | ->]; reflexivity. }
  unfold constructor, validateAndSanitizeUrl.
  rewrite Eurl, Ht, Eu, Ep, Hprod, Np. cbn [negb andb].
  fold (clean_url parsed).
  unfold validateConfig. simpl baseUrl. rewrite Nonempty. simpl. eauto.
Qed.

End Runs.

(** * Further properties *)

(** ** Relations that every step keeps *)

Section Always.

Variable R : State -> State -> Prop.
Hypothesis R_refl : forall s, R s s.
Hypothesis R_trans : forall s1 s2 s3, R s1 s2 -> R s2 s3 -> R s1 s3.

Lemma always_ret {A} (a : A) : always R (ret a).
Proof. intros s. apply R_refl. Qed.

Lemma always_throw {A} t : always R (@throw A t).
Proof. intros s. apply R_refl. Qed.

Lemma always_gets {A} (f : Client -> A) : always R (gets f).
Proof. intros s. apply R_refl. Qed.

Lemma always_bind {A B} (c : M A) (k : A -> M B) :
  always R c -> (forall a, always R (k a)) -> always R (bind c k).
Proof.
  intros Hc Hk s. unfold bind. specialize (Hc s).
  destruct (c s) as [[a|t] s1]; simpl in *; [|exact Hc].
  eapply R_trans; [exact Hc | apply Hk].
Qed.

Lemma always_try_catch {A} (c : M A) (h : Thrown -> M A) :
  always R c -> (forall t, always R (h t)) -> always R (try_catch c h).
Proof.
  intros Hc Hh s. unfold try_catch. specialize (Hc s).
  destruct (c s) as [[a|t] s1]; simpl in *; [exact Hc|].
  eapply R_trans; [exact Hc | apply Hh].
Qed.

(** The steps of the client: assignments to its members, entries in the
    log, delays and requests. *)
Variable P : Platform.
Variable L : Locals.

Hypothesis R_stats : forall f, always R (modify_client (set_stats f)).
Hypothesis R_last : forall t, always R (modify_client (set_lastRequestTime t)).
Hypothesis R_attempt : forall a, always R (mark (EvAttempt a)).
Hypothesis R_time : forall d, always R (mark (EvResponseTime d)).
Hypothesis R_delay : forall why ms, always R (delay why ms).
Hypothesis R_primary : forall a fo,
  prepare L = inr fo -> always R (fetch (Primary a) (l_url L) fo).
Hypothesis R_fallback : forall u fo,
  prepare L = inr fo -> URL_parse P (l_url L) = Some u ->
  always R (fetch Fallback (fallback_url u) fo).

Lemma always_rateLimit : always R rateLimit.
Proof.
  unfold rateLimit.
  apply always_bind; [intros s; apply R_refl | intros t].
  apply always_bind; [apply always_gets | intros last].
  apply always_bind; [apply always_gets | intros interval].
  apply always_bind.
  - destruct (t - last <? interval); [apply R_delay | apply always_ret].
  - intros _. apply always_bind; [intros s; apply R_refl | intros t'; apply R_last].
Qed.

Lemma always_count_success timer : always R (count_success timer).
Proof.
  unfold count_success.
  apply always_bind; [apply R_stats | intros _].
  apply always_bind.
  { unfold timer_end. apply always_bind; [intros s; apply R_refl | intros; apply always_ret]. }
  intros d. unfold updateAverageResponseTime.
  apply always_bind; [intros s; apply R_refl | intros t].
  apply always_bind; [apply R_stats | intros _; apply R_time].
Qed.

Lemma always_parseResponse r ep timer : always R (parseResponse r ep timer).
Proof.
  unfold parseResponse.
  destruct (negb (truthy (text r))).
  { apply always_bind; [apply always_count_success | intros; apply always_ret]. }
  destruct (parsed r) as [v|msg].
  { apply always_bind; [apply always_count_success | intros; apply always_ret]. }
  destruct (is_auth_endpoint ep); [apply always_throw|].
  apply always_bind; [apply always_count_success | intros; apply always_ret].
Qed.

Lemma always_tryIndexPhpFallback to fo timer :
  prepare L = inr fo -> always R (tryIndexPhpFallback P (l_url L) to fo timer).
Proof.
  intros EP. unfold tryIndexPhpFallback.
  apply always_try_catch; [|intros; apply always_ret].
  case_eq (URL_parse P (l_url L)); [intros u EU | intros _; apply always_throw].
  apply always_bind; [now apply R_fallback | intros r].
  destruct (negb (ok r)); [apply always_ret|].
  destruct (negb (truthy (text r))).
  { apply always_bind; [apply always_count_success | intros; apply always_ret]. }
  destruct (parsed r) as [v|msg]; [|apply always_throw].
  apply always_bind; [apply always_count_success | intros; apply always_ret].
Qed.

Lemma always_handleError r ep to fo timer :
  prepare L = inr fo ->
  always R (handleErrorResponseWithFallback P r (l_url L) ep to fo timer).
Proof.
  intros EP. unfold handleErrorResponseWithFallback.
  destruct (status r =? 429).
  { apply always_bind; [apply R_stats | intros _].
    apply always_bind; [intros s; apply R_refl | intros; apply always_throw]. }
  destruct ((status r =? 403) && includes "media" ep && (fo_method fo =? "POST")%string).
  { apply always_bind; [apply always_gets | intros; apply always_throw]. }
  destruct (member_includes "Beiträge zu erstellen" (error_message_value r)) as [ty|found];
    [apply always_throw|].
  destruct (found && includes "media" ep).
  { apply always_bind; [apply always_gets | intros; apply always_throw]. }
  apply always_bind.
  - destruct ((status r =? 404) && includes "/wp-json/wp/v2" (l_url L));
      [now apply always_tryIndexPhpFallback | apply always_ret].
  - intros [v|]; [apply always_ret | apply always_throw].
Qed.

Lemma always_attempt_once a le : always R (attempt_once P L a le).
Proof.
  unfold attempt_once.
  apply always_bind; [apply R_attempt | intros _].
  apply always_bind; [apply always_rateLimit | intros _].
  case_eq (prepare L); [intros t EP; apply always_throw | intros fo EP].
  apply always_try_catch.
  - apply always_bind; [now apply R_primary | intros r].
    unfold on_response. destruct (negb (ok r)).
    + apply always_bind; [now apply always_handleError | intros [v|]; apply always_ret].
    + apply always_bind; [apply always_parseResponse | intros; apply always_ret].
  - intros t. unfold on_error.
    destruct (is_RateLimit_thrown t); [destruct t; apply always_ret|].
    match goal with |- always R (if ?b then _ else _) => destruct b end;
      [apply always_ret|].
    apply always_bind; [apply R_delay | intros; apply always_ret].
Qed.

Lemma always_fail_request e : always R (fail_request L e).
Proof.
  unfold fail_request.
  apply always_bind; [apply R_stats | intros _].
  apply always_bind; [|intros; apply always_throw].
  unfold timer_end. apply always_bind; [intros s; apply R_refl | intros; apply always_ret].
Qed.

Lemma always_attempts fuel : forall a le, always R (attempts P L fuel a le).
Proof.
  induction fuel as [|fuel IH]; intros a le; simpl;
    destruct (a <? l_maxAttempts L); try apply always_fail_request.
  apply always_bind; [apply always_attempt_once | intros [v|e|e]].
  - apply always_ret.
  - apply always_fail_request.
  - apply IH.
Qed.

(** A call of [request] made in a state in which its locals are [L]. *)
Lemma always_request m ep d o s :
  L = request_locals P s m ep d o -> R s (snd (request P m ep d o s)).
Proof.
  intros EL. rewrite request_unfold, <- EL.
  eapply R_trans; [exact (R_stats incr_totalRequests s) | apply always_attempts].
Qed.

End Always.

(** ** The three relations *)

Lemma logs_refl Q s : logs Q s s.
Proof. exists []. split; [now rewrite app_nil_r | constructor]. Qed.

Lemma logs_trans Q s1 s2 s3 : logs Q s1 s2 -> logs Q s2 s3 -> logs Q s1 s3.
Proof.
  intros (e1 & L1 & F1) (e2 & L2 & F2). exists (e1 ++ e2)%list.
  split; [now rewrite L2, L1, app_assoc | now apply Forall_app].
Qed.

Lemma logs_same_world Q s s' : world s' = world s -> logs Q s s'.
Proof. intros E. exists []. rewrite E, app_nil_r. split; [reflexivity | constructor]. Qed.

Lemma logs_one Q ev s s' :
  log (world s') = (log (world s) ++ [ev])%list -> Q ev -> logs Q s s'.
Proof. intros E H. exists [ev]. split; [exact E | now constructor]. Qed.

Lemma logs_events {A} Q (c : M A) s : logs Q s (snd (c s)) -> Forall Q (events_of c s).
Proof.
  intros (evs & E & F). unfold events_of. rewrite E.
  now rewrite skipn_app, skipn_all, Nat.sub_diag.
Qed.

Lemma elapsed_app a b : elapsed (a ++ b)%list = elapsed a + elapsed b.
Proof.
  induction a as [|[i|k u fo o|why ms|d] a IH]; simpl; try exact IH; [reflexivity| |];
    unfold elapsed in *; simpl; rewrite IH; lia.
Qed.

Lemma on_time_refl s : on_time s s.
Proof. exists []. split; [now rewrite app_nil_r | simpl; lia]. Qed.

Lemma on_time_trans s1 s2 s3 : on_time s1 s2 -> on_time s2 s3 -> on_time s1 s3.
Proof.
  intros (e1 & L1 & N1) (e2 & L2 & N2). exists (e1 ++ e2)%list.
  split; [now rewrite L2, L1, app_assoc | rewrite elapsed_app; lia].
Qed.

Lemma on_time_same_world s s' : world s' = world s -> on_time s s'.
Proof. intros E. exists []. rewrite E, app_nil_r. split; [reflexivity | simpl; lia]. Qed.

Lemma on_time_events {A} (c : M A) s :
  on_time s (snd (c s)) ->
  now (world (snd (c s))) = now (world s) + elapsed (events_of c s).
Proof.
  intros (evs & E & N). unfold events_of. rewrite E.
  now rewrite skipn_app, skipn_all, Nat.sub_diag.
Qed.

Lemma fetch_on_time k url fo : always on_time (fetch k url fo).
Proof.
  intros s. unfold fetch.
  destruct (net (world s)) as [|[l r|l t] rest]; simpl;
    eexists [_]; (split; [reflexivity|]); simpl; lia.
Qed.

Lemma same_config_refl c : same_config c c.
Proof. repeat split. Qed.

Lemma same_config_trans a b c : same_config a b -> same_config b c -> same_config a c.
Proof. intros (A1 & A2 & A3) (B1 & B2 & B3). repeat split; congruence. Qed.

Lemma same_session_refl c : same_session c c.
Proof. split; reflexivity. Qed.

Lemma same_session_trans a b c : same_session a b -> same_session b c -> same_session a c.
Proof. intros (A1 & A2) (B1 & B2). split; congruence. Qed.

Section Calls.

Variable P : Platform.

(** The requests of a call are sent as its locals say. *)
Lemma request_logs m ep d o s :
  logs (sent_as P (request_locals P s m ep d o)) s (snd (request P m ep d o s)).
Proof.
  apply (always_request _ (logs_refl _) (logs_trans _) P (request_locals P s m ep d o));
    try reflexivity; try (intros; intros s0; now apply logs_same_world).
  - intros a s0. now apply (logs_one _ (EvAttempt a)).
  - intros dd s0. now apply (logs_one _ (EvResponseTime dd)).
  - intros why ms s0. now apply (logs_one _ (EvDelay why ms)).
  - intros a fo EP s0. unfold fetch.
    destruct (net (world s0)) as [|[l r|l t] rest]; simpl;
      (eapply logs_one; [reflexivity | split; [reflexivity | exact EP]]).
  - intros u fo EP EU s0. unfold fetch.
    destruct (net (world s0)) as [|[l r|l t] rest]; simpl;
      (eapply logs_one; [reflexivity | split; [exact EP | eauto]]).
Qed.

(** During a call the clock advances by the delays and latencies logged. *)
Lemma request_on_time m ep d o s : on_time s (snd (request P m ep d o s)).
Proof.
  apply (always_request _ on_time_refl on_time_trans P (request_locals P s m ep d o));
    try reflexivity; try (intros; intros s0; now apply on_time_same_world);
    try (intros; apply fetch_on_time).
  - intros a s0. exists [EvAttempt a]. split; [reflexivity | simpl; lia].
  - intros dd s0. exists [EvResponseTime dd]. split; [reflexivity | simpl; lia].
  - intros why ms s0. exists [EvDelay why ms]. split; [reflexivity | simpl; lia].
Qed.

(** A call changes neither the configuration nor the session. *)
Lemma request_keeps m ep d o s :
  same_config (client s) (client (snd (request P m ep d o s)))
  /\ same_session (client s) (client (snd (request P m ep d o s))).
Proof.
  apply (always_request (client_kept (fun c c' => same_config c c' /\ same_session c c')))
    with (L := request_locals P s m ep d o); try reflexivity;
    try solve [intros; intros s0; repeat split].
  - intros s0. repeat split.
  - intros s1 s2 s3 [C1 S1] [C2 S2].
    split; [eapply same_config_trans | eapply same_session_trans]; eauto.
  - intros a fo _ s0. unfold client_kept, fetch.
    destruct (net (world s0)) as [|[l r|l t] rest]; repeat split.
  - intros u fo _ _ s0. unfold client_kept, fetch.
    destruct (net (world s0)) as [|[l r|l t] rest]; repeat split.
Qed.

End Calls.

Lemma snoc_cases_list {A} (l : list A) : l = [] \/ exists l' x, l = (l' ++ [x])%list.
Proof.
  destruct l as [|a l]; [now left | right].
  destruct (exists_last (l := a :: l)) as (l' & x & E); [discriminate | eauto].
Qed.

(** ** Headers *)

Lemma header_set_same k v h : header k (Hdr.set k v h) = Some v.
Proof.
  induction h as [|[k' v'] h IH]; simpl; [now rewrite String.eqb_refl|].
  destruct (String.eqb k k') eqn:E; simpl; rewrite ?String.eqb_refl, ?E; auto.
Qed.

Lemma header_set_other k k' v h :
  String.eqb k' k = false -> header k' (Hdr.set k v h) = header k' h.
Proof.
  intros N. induction h as [|[k0 v0] h IH]; simpl; [now rewrite N|].
  destruct (String.eqb k k0) eqn:E; simpl.
  - apply String.eqb_eq in E. subst k0. now rewrite N.
  - now rewrite IH.
Qed.

Lemma header_delete_same k h : header k (Hdr.delete k h) = None.
Proof.
  induction h as [|[k' v'] h IH]; simpl; [reflexivity|].
  destruct (String.eqb k k') eqn:E; simpl; rewrite ?E; exact IH.
Qed.

Lemma header_delete_other k k' h :
  String.eqb k' k = false -> header k' (Hdr.delete k h) = header k' h.
Proof.
  intros N. induction h as [|[k0 v0] h IH]; simpl; [reflexivity|].
  destruct (String.eqb k k0) eqn:E; simpl.
  - apply String.eqb_eq in E. subst k0. now rewrite N.
  - now rewrite IH.
Qed.

Lemma header_absent k h :
  existsb (fun kv : string * string => String.eqb k (fst kv)) h = false -> header k h = None.
Proof.
  induction h as [|[k' v'] h IH]; simpl; [reflexivity|].
  intros H. apply orb_false_iff in H. destruct H as [E H]. rewrite E. auto.
Qed.

(** [Object.assign]: the source wins, the other keys stay. *)
Lemma header_assign k src : forall h,
  distinct_keys src = true ->
  header k (Hdr.assign h src) = header_over k src h.
Proof.
  unfold Hdr.assign, header_over.
  induction src as [|[k0 v0] src IH]; intros h D; simpl; [reflexivity|].
  simpl in D. apply andb_true_iff in D. destruct D as [D0 D].
  apply negb_true_iff in D0. rewrite (IH _ D).
  destruct (String.eqb k k0) eqn:E.
  - apply String.eqb_eq in E. subst k0.
    now rewrite (header_absent _ _ D0), header_set_same.
  - now rewrite header_set_other.
Qed.

(** The switch on the name of the method, as a chain of comparisons. *)
Lemma method_dispatch {A} (basic jwt cookie key other : A) (method : option string) :
  match method with
  | Some "app-password" | Some "basic" => basic
  | Some "jwt" => jwt
  | Some "cookie" => cookie
  | Some "api-key" => key
  | _ => other
  end
  = match method with
    | Some m =>
        if String.eqb m "app-password" || String.eqb m "basic" then basic
        else if String.eqb m "jwt" then jwt
        else if String.eqb m "cookie" then cookie
        else if String.eqb m "api-key" then key
        else other
    | None => other
    end.
Proof.
  destruct method as [m|]; [|reflexivity].
  repeat match goal with
         | |- context [match ?x with _ => _ end] => is_var x; destruct x
         end; reflexivity.
Qed.

Section Requests.

Variable P : Platform.

Lemma addAuthHeaders_other c h k :
  is_auth_header k = false -> header k (addAuthHeaders P c h) = header k h.
Proof.
  unfold is_auth_header. intros H.
  apply orb_false_iff in H. destruct H as [H H3].
  apply orb_false_iff in H. destruct H as [H1 H2].
  unfold addAuthHeaders.
  repeat match goal with
         | |- context [match ?x with _ => _ end] => destruct x
         end; try reflexivity; now apply header_set_other.
Qed.

(** The credentials of the configured method are on every request, also
    when the caller supplies a header of the same name. *)
Theorem credentials_header (c : Client) (o : RequestOptions) (m : string) :
  option_map toLowerCase (auth_method (auth c)) = Some m ->
  let a := auth c in
  let sent := request_headers P c o in
  (m = "app-password" -> truthy_opt (username a) && truthy_opt (appPassword a) = true ->
   header "Authorization" sent = Some (basic_credentials P (username a) (appPassword a)))
  /\ (m = "basic" -> truthy_opt (username a) && truthy_opt (password a) = true ->
      header "Authorization" sent = Some (basic_credentials P (username a) (password a)))
  /\ (m = "jwt" -> forall tok, jwtToken c = Some tok -> truthy tok = true ->
      header "Authorization" sent = Some ("Bearer " ++ tok))
  /\ (m = "api-key" -> forall key, apiKey a = Some key -> truthy key = true ->
      header "X-API-Key" sent = Some key)
  /\ (m = "cookie" -> forall n, nonce a = Some n -> truthy n = true ->
      header "X-WP-Nonce" sent = Some n).
Proof.
  intros Hm. cbv zeta. unfold request_headers, addAuthHeaders. rewrite Hm.
  repeat split.
  - intros -> H. rewrite H. apply header_set_same.
  - intros -> H. rewrite H. apply header_set_same.
  - intros -> tok Ht T. rewrite Ht. simpl truthy_opt. rewrite T.
    unfold or_opt, JsString.or. rewrite T. apply header_set_same.
  - intros -> key Hk T. rewrite Hk. simpl truthy_opt. rewrite T.
    unfold or_opt, JsString.or. rewrite T. apply header_set_same.
  - intros -> n Hn T. rewrite Hn. simpl truthy_opt. rewrite T.
    unfold or_opt, JsString.or. rewrite T. apply header_set_same.
Qed.

(** A header that is not one of the three credential headers is sent as
    the caller gave it, and with the default of the client when the caller
    gave none: the caller can replace Content-Type and User-Agent. *)
Theorem caller_headers_kept (c : Client) (o : RequestOptions) (k : string) :
  distinct_keys (caller_headers o) = true ->
  is_auth_header k = false ->
  header k (request_headers P c o) = header_over k (caller_headers o) (default_headers P).
Proof.
  intros D N. unfold request_headers. rewrite (addAuthHeaders_other _ _ _ N).
  apply (header_assign k (caller_headers o) (default_headers P) D).
Qed.

(** [rateLimit] waits until [requestInterval] milliseconds have passed
    since the time it recorded last, not at all when they have passed
    already, and records the time at which it ends. *)
Theorem rate_limit_spacing (s : State) :
  let s' := snd (rateLimit s) in
  fst (rateLimit s) = Ok tt
  /\ now (world s')
     = Z.max (now (world s)) (lastRequestTime (client s) + requestInterval (client s))
  /\ lastRequestTime (client s') = now (world s')
  /\ net (world s') = net (world s)
  /\ same_config (client s) (client s') /\ same_session (client s) (client s')
  /\ stats_of s' = stats_of s.
Proof.
  unfold rateLimit, bind, Date_now, gets, delay, modify_world, modify_client, ret. simpl.
  destruct (Z.ltb_spec (now (world s) - lastRequestTime (client s)) (requestInterval (client s)));
    simpl; repeat split; lia.
Qed.

(** *** The time a success is recorded with *)

Lemma count_success_stamped timer s : stamped timer (snd (count_success timer s)).
Proof. split; [reflexivity | eexists; reflexivity]. Qed.

Ltac stamp_count_success H :=
  unfold bind in H;
  match type of H with
  | context [count_success ?t ?s] =>
      pose proof (count_success_stamped t s);
      destruct (count_success t s) as [[[]|?] ?]; inversion H; subst; assumption
  end.

Lemma parseResponse_stamped r ep timer s v s' :
  parseResponse r ep timer s = (Ok v, s') -> stamped timer s'.
Proof.
  unfold parseResponse. intros H.
  destruct (negb (truthy (text r))); [stamp_count_success H|].
  destruct (parsed r) as [x|msg]; [stamp_count_success H|].
  destruct (is_auth_endpoint ep); [discriminate | stamp_count_success H].
Qed.

Lemma tryIndexPhpFallback_stamped url to fo timer s v s' :
  tryIndexPhpFallback P url to fo timer s = (Ok (Some v), s') -> stamped timer s'.
Proof.
  unfold tryIndexPhpFallback, try_catch. intros H.
  destruct (URL_parse P url) as [u|]; [|discriminate].
  unfold bind at 1 in H.
  destruct (fetch Fallback (fallback_url u) fo s) as [[r|t] s1]; [|discriminate].
  destruct (negb (ok r)); [discriminate|].
  destruct (negb (truthy (text r))).
  { unfold bind in H. pose proof (count_success_stamped timer s1).
    destruct (count_success timer s1) as [[[]|?] ?]; inversion H; subst; assumption. }
  destruct (parsed r) as [x|msg]; [|discriminate].
  unfold bind in H. pose proof (count_success_stamped timer s1).
  destruct (count_success timer s1) as [[[]|?] ?]; inversion H; subst; assumption.
Qed.

Lemma handleError_stamped r url ep to fo timer s v s' :
  handleErrorResponseWithFallback P r url ep to fo timer s = (Ok v, s') -> stamped timer s'.
Proof.
  unfold handleErrorResponseWithFallback. intros H.
  destruct (status r =? 429); [discriminate|].
  destruct ((status r =? 403) && includes "media" ep && (fo_method fo =? "POST")%string);
    [discriminate|].
  destruct (member_includes "Beiträge zu erstellen" (error_message_value r)) as [ty|found];
    [discriminate|].
  destruct (found && includes "media" ep); [discriminate|].
  unfold bind in H.
  destruct ((status r =? 404) && includes "/wp-json/wp/v2" url); [|discriminate].
  destruct (tryIndexPhpFallback P url to fo timer s) as [[[x|]|t] s1] eqn:E;
    try discriminate.
  inversion H; subst. exact (tryIndexPhpFallback_stamped _ _ _ _ _ _ _ E).
Qed.

Lemma attempt_once_stamped L a le s v s' :
  attempt_once P L a le s = (Ok (Return v), s') -> stamped (l_timer L) s'.
Proof.
  unfold attempt_once. intros H. unfold bind at 1 2 in H.
  destruct (mark (EvAttempt a) s) as [[[]|t0] s0]; [|discriminate].
  destruct (rateLimit s0) as [[[]|t1] s1]; [|discriminate].
  destruct (prepare L) as [t|fo]; [discriminate|].
  unfold try_catch, bind at 1 in H.
  destruct (fetch (Primary a) (l_url L) fo s1) as [[r|t] s2].
  - unfold on_response in H. destruct (negb (ok r)); unfold bind in H.
    + destruct (handleErrorResponseWithFallback P r (l_url L) (l_endpoint L)
                  (l_requestTimeout L) fo (l_timer L) s2) as [[[x|]|t] s3] eqn:E.
      * inversion H; subst. exact (handleError_stamped _ _ _ _ _ _ _ _ _ E).
      * discriminate.
      * destruct (on_error_spec _ _ _ _ _ _ _ H) as [HR HN].
        destruct (is_RateLimit_thrown t).
        -- destruct (HR eq_refl) as (_ & e & _ & X). discriminate.
        -- destruct (HN eq_refl) as [(_ & e & X)|(_ & _ & _ & e & X)]; discriminate.
    + destruct (parseResponse r (l_endpoint L) (l_timer L) s2) as [[x|t] s3] eqn:E.
      * inversion H; subst. exact (parseResponse_stamped _ _ _ _ _ _ E).
      * destruct (on_error_spec _ _ _ _ _ _ _ H) as [HR HN].
        destruct (is_RateLimit_thrown t).
        -- destruct (HR eq_refl) as (_ & e & _ & X). discriminate.
        -- destruct (HN eq_refl) as [(_ & e & X)|(_ & _ & _ & e & X)]; discriminate.
  - destruct (on_error_spec _ _ _ _ _ _ _ H) as [HR HN].
    destruct (is_RateLimit_thrown t).
    + destruct (HR eq_refl) as (_ & e & _ & X). discriminate.
    + destruct (HN eq_refl) as [(_ & e & X)|(_ & _ & _ & e & X)]; discriminate.
Qed.

Lemma attempts_stamped L fuel : forall a le s v s',
  attempts P L fuel a le s = (Ok v, s') -> stamped (l_timer L) s'.
Proof.
  induction fuel as [|fuel IH]; intros a le s v s' H; simpl in H;
    destruct (a <? l_maxAttempts L); try discriminate.
  unfold bind in H.
  destruct (attempt_once P L a le s) as [[[x|e|e]|t] s1] eqn:E; try discriminate.
  - inversion H; subst. exact (attempt_once_stamped _ _ _ _ _ _ E).
  - exact (IH _ _ _ _ _ H).
Qed.

Lemma response_times_last pre d : response_times (pre ++ [EvResponseTime d])%list
                                  = (response_times pre ++ [d])%list.
Proof. now rewrite response_times_app. Qed.

(** The time recorded for a call that returns is the time from its first
    statement to its return: it includes the waits of the rate limiter,
    the latency of every request of the call and the backoff delays of the
    attempts that failed. *)
Theorem response_time_is_call_duration (m ep : string) (d : RequestData)
    (o : RequestOptions) (s : State) (v : JSON) (s' : State) :
  request P m ep d o s = (Ok v, s') ->
  let evs := events_of (request P m ep d o) s in
  response_times evs = [now (world s') - now (world s)]
  /\ now (world s') - now (world s) = elapsed evs
  /\ sum_Z (backoffs evs) <= now (world s') - now (world s)
  /\ stats_lastRequestTime (stats_of s') = Some (now (world s')).
Proof.
  intros H evs.
  pose proof (request_on_time P m ep d o s) as T.
  apply on_time_events in T. fold evs in T. rewrite H in T. simpl snd in T.
  destruct (request_spec P _ _ _ _ _ _ _ H) as (ev & G & _ & _ & _ & dd & t & RT & _).
  assert (Eev : evs = ev) by (unfold evs; apply grows_events; rewrite H; exact G).
  rewrite request_unfold in H. apply attempts_stamped in H.
  destruct H as (St & pre & Lg). simpl l_timer in Lg.
  destruct G as [Lg' Bk]. rewrite Lg' in Lg.
  assert (Last : exists pre', ev = (pre' ++ [EvResponseTime (now (world s') - now (world s))])%list).
  { destruct (snoc_cases_list ev) as [->|(pre' & x & ->)]; [discriminate|].
    rewrite app_assoc in Lg. apply app_inj_tail in Lg. destruct Lg as [_ ->]. eauto. }
  destruct Last as (pre' & Epre). rewrite Eev.
  split.
  { rewrite Epre, response_times_last in RT |- *.
    destruct (response_times pre') as [|x l]; [reflexivity|].
    destruct l; discriminate. }
  split; [rewrite <- Eev; lia|]. split; [lia | exact St].
Qed.

(** *** How the requests of a call are sent *)

Lemma sent_as_prepared L fo0 ev :
  prepare L = inr fo0 -> sent_as P L ev -> sent_with (fun fo => fo = fo0) ev.
Proof.
  intros EP. destruct ev as [i|[a| |] u fo out|why ms|dd]; simpl; try exact (fun _ => I).
  - intros [_ E]. congruence.
  - intros [E _]. congruence.
  - intros [].
Qed.

Lemma request_sent_with m ep d o s fo0 (Q : FetchOptions -> Prop) :
  prepare (request_locals P s m ep d o) = inr fo0 -> Q fo0 ->
  Forall (sent_with Q) (events_of (request P m ep d o) s).
Proof.
  intros EP HQ.
  eapply Forall_impl; [|exact (logs_events _ _ _ (request_logs P m ep d o s))].
  intros ev H. apply (sent_as_prepared _ _ _ EP) in H.
  destruct ev; simpl in *; try exact I. now subst.
Qed.

(** Every request of a call is sent as the call prepared it, on each
    attempt and on the fallback: a request of the retry loop goes to the
    URL of the call, a fallback request to the index.php form of that
    URL, both with the method, headers and body that [request] and
    [attachRequestBody] built; a call makes no token request. *)
Theorem every_request_as_prepared (m ep : string) (d : RequestData) (o : RequestOptions)
    (s : State) :
  Forall (sent_as P (request_locals P s m ep d o)) (events_of (request P m ep d o) s).
Proof. apply logs_events, request_logs. Qed.

(** The body of the requests of a call.  With a method other than POST,
    PUT and PATCH, or with data that is falsy, no request has a body.
    With one of these methods, a text is sent as it is and an object
    that is not a form, and that JSON.stringify accepts, as its JSON
    text.  In each case every request has the method of the call and the
    headers of [request], on each attempt and on the fallback. *)
Theorem request_bodies (m ep : string) (d : RequestData) (o : RequestOptions) (s : State) :
  let headers := request_headers P (client s) o in
  let evs := events_of (request P m ep d o) s in
  (sends_body m = false \/ data_truthy d = false ->
   Forall (sent_with (fun fo => fo = mkFetchOptions m headers None)) evs)
  /\ (sends_body m = true ->
      forall body,
        (d = DString body /\ truthy body = true)
        \/ (exists ob, d = DObject ob /\ append_is_function ob = false
                       /\ stringify ob = inl body) ->
        Forall (sent_with (fun fo => fo = mkFetchOptions m headers (Some (PText body)))) evs).
Proof.
  cbv zeta. split.
  - intros H. eapply request_sent_with; [|reflexivity].
    unfold prepare, request_locals, locals_of. simpl.
    destruct H as [-> | ->]; [now rewrite andb_false_r | reflexivity].
  - intros Hm body H. eapply request_sent_with; [|reflexivity].
    unfold prepare, request_locals, locals_of. simpl. rewrite Hm.
    destruct H as [[-> T]|(ob & -> & A & J)]; simpl.
    + now rewrite T.
    + now rewrite A, J.
Qed.

(** A form (an object with an [append] function) is sent as it is on a
    POST, PUT or PATCH.  When it has no [getHeaders] function the
    request carries no Content-Type header, also when the caller gave
    one, and every other header is kept; when it has one, the headers it
    returns replace those of the same name. *)
Theorem form_body_headers (m ep : string) (ob : JsObject) (o : RequestOptions) (s : State) :
  sends_body m = true ->
  append_is_function ob = true ->
  let base := request_headers P (client s) o in
  Forall (sent_with
            (fun fo =>
               fo_method fo = m /\ fo_body fo = Some (PData (DObject ob))
               /\ match getHeaders ob with
                  | None =>
                      header "Content-Type" (fo_headers fo) = None
                      /\ forall k, String.eqb k "Content-Type" = false ->
                                   header k (fo_headers fo) = header k base
                  | Some formHeaders =>
                      distinct_keys formHeaders = true ->
                      forall k, header k (fo_headers fo) = header_over k formHeaders base
                  end))
    (events_of (request P m ep (DObject ob) o) s).
Proof.
  intros Hm A base.
  destruct (getHeaders ob) as [fh|] eqn:G.
  - eapply request_sent_with.
    + unfold prepare, request_locals, locals_of. simpl. rewrite Hm, A, G. reflexivity.
    + simpl. split; [reflexivity|]. split; [reflexivity|].
      intros D k. now apply header_assign.
  - eapply request_sent_with.
    + unfold prepare, request_locals, locals_of. simpl. rewrite Hm, A, G. reflexivity.
    + simpl. split; [reflexivity|]. split; [reflexivity|].
      split; [apply header_delete_same | intros k N; now apply header_delete_other].
Qed.

(** *** Authentication *)

Lemma request_authFailures m ep d o s :
  authFailures (stats_of (snd (request P m ep d o s))) = authFailures (stats_of s).
Proof.
  destruct (request P m ep d o s) as [res s'] eqn:E.
  destruct (request_spec P _ _ _ _ _ _ _ E) as (ev & _ & _ & _ & R). simpl.
  destruct res as [v|t].
  - destruct R as (_ & dd & t & _ & ->). reflexivity.
  - destruct R as (_ & [(_ & -> & _)|[(_ & -> & _)|
                        (pre & i & u & fo & l & r & _ & _ & _ & -> & _)]]); reflexivity.
Qed.

Lemma signs_in_basic : signs_in (authenticateWithBasic P).
Proof.
  intros s. unfold authenticateWithBasic, bind, gets. simpl.
  match goal with |- context [if negb ?b then _ else _] => destruct b end; simpl.
  2:{ repeat split. }
  unfold try_catch, bind.
  pose proof (request_keeps P "GET" "users/me" DNull no_options s) as [K S].
  pose proof (request_authFailures "GET" "users/me" DNull no_options s) as F.
  destruct (request P "GET" "users/me" DNull no_options s) as [[v|t] s1]; simpl in *.
  - split; [exact K|]. split; [exact F | split; reflexivity].
  - split; [exact K|]. split; [exact F | exact S].
Qed.

Lemma signs_in_cookie : signs_in authenticateWithCookie.
Proof.
  intros s. unfold authenticateWithCookie, bind, gets. simpl.
  destruct (negb (truthy_opt (nonce (auth (client s))))); simpl; repeat split.
Qed.

Lemma signs_in_jwt : signs_in authenticateWithJWT.
Proof.
  intros s. unfold authenticateWithJWT, bind, gets. simpl.
  destruct (negb (truthy_opt (secret (auth (client s))))
            || negb (truthy_opt (username (auth (client s))))
            || negb (truthy_opt (password (auth (client s))))); simpl.
  { repeat split. }
  unfold try_catch, bind, fetch.
  destruct (net (world s)) as [|[l r|l t] rest]; simpl; try solve [repeat split].
  destruct (negb (ok r)); simpl; try solve [repeat split].
  destruct (parsed r) as [[|x|x y z w|x]|msg]; simpl; repeat split.
Qed.

Lemma signs_in_key :
  signs_in (modify_client (fun c => set_session true (jwtToken c) c) ;;; ret true).
Proof. intros s. repeat split. Qed.

Lemma signs_in_throw t : signs_in (throw t).
Proof. intros s. repeat split. Qed.

Lemma signs_in_authenticate (c : M bool) s :
  signs_in c ->
  let run := try_catch c (fun _error => modify_client (set_stats incr_authFailures) ;;; throw _error) in
  same_config (client s) (client (snd (run s)))
  /\ match fst (run s) with
     | Ok b =>
         b = true /\ authenticated (client (snd (run s))) = true
         /\ authFailures (stats_of (snd (run s))) = authFailures (stats_of s)
     | Throw _ =>
         authFailures (stats_of (snd (run s))) = authFailures (stats_of s) + 1
         /\ same_session (client s) (client (snd (run s)))
     end.
Proof.
  intros H. cbv zeta. unfold try_catch, bind. destruct (H s) as (K & F & R).
  destruct (c s) as [[b|t] s1]; simpl in *.
  - destruct R. auto.
  - split; [exact K|]. split; [unfold stats_of in *; simpl; lia | exact R].
Qed.

(** [authenticate] runs one of the methods, by the name in lower case,
    inside its [try]. *)
Lemma authenticate_signs_in s :
  exists c, signs_in c
    /\ authenticate P s
       = try_catch c
           (fun _error => modify_client (set_stats incr_authFailures) ;;; throw _error) s.
Proof.
  unfold authenticate, bind at 1, gets.
  match goal with
  | |- exists c, _ /\ try_catch ?d _ _ = _ => exists d
  end.
  split; [|reflexivity].
  rewrite method_dispatch.
  destruct (option_map toLowerCase (auth_method (auth (client s)))) as [m|];
    [|apply signs_in_throw].
  repeat match goal with
         | |- signs_in (if ?b then _ else _) => destruct b
         end;
    first [ apply signs_in_basic | apply signs_in_jwt | apply signs_in_cookie
          | apply signs_in_key | apply signs_in_throw ].
Qed.

Lemma authenticate_same_config s : same_config (client s) (client (snd (authenticate P s))).
Proof.
  destruct (authenticate_signs_in s) as (c & Hc & ->).
  exact (proj1 (signs_in_authenticate c s Hc)).
Qed.

(** [authenticate] ends in one of two ways.  It returns true and the
    client is authenticated; or it throws, exactly one authentication
    failure is counted and the session (the flag and the token) is what
    it was.  The configuration is not changed in either case. *)
Theorem authenticate_outcome (s : State) :
  let s' := snd (authenticate P s) in
  same_config (client s) (client s')
  /\ match fst (authenticate P s) with
     | Ok b =>
         b = true /\ isAuthenticated (client s') = true
         /\ authFailures (stats_of s') = authFailures (stats_of s)
     | Throw _ =>
         authFailures (stats_of s') = authFailures (stats_of s) + 1
         /\ same_session (client s) (client s')
     end.
Proof.
  cbv zeta. unfold isAuthenticated.
  destruct (authenticate_signs_in s) as (c & Hc & ->).
  unfold try_catch, bind. destruct (Hc s) as (K & F & R).
  destruct (c s) as [[b|t] s1]; simpl in *.
  - destruct R. auto.
  - split; [exact K|]. split; [unfold stats_of in *; simpl; lia | exact R].
Qed.

End Requests.

Section Logins.

Variable P : Platform.

(** A JWT login is one POST of the credentials to the token endpoint
    of the site.  An answer with a 2xx status and a JSON body other than
    null makes [authenticate] return true: the client is authenticated
    and keeps the [token] member of the body, the statistics are not
    touched, and from then on every request carries the token as a
    Bearer credential.  When the body has no token the client is
    authenticated all the same and its requests carry no credentials. *)
Theorem jwt_login (s : State) (l : N) (r : Response) (rest : list FetchOutcome) (v : JSON) :
  let a := auth (client s) in
  option_map toLowerCase (auth_method a) = Some "jwt" ->
  truthy_opt (secret a) && truthy_opt (username a) && truthy_opt (password a) = true ->
  net (world s) = Resolves l r :: rest ->
  ok r = true ->
  parsed r = inl v -> v <> JNull ->
  let token := match v with JObject _ _ t _ => t | _ => None end in
  let s' := snd (authenticate P s) in
  fst (authenticate P s) = Ok true
  /\ isAuthenticated (client s') = true
  /\ jwtToken (client s') = token
  /\ stats_of s' = stats_of s
  /\ net (world s') = rest
  /\ events_of (authenticate P) s = [token_request (client s) (Resolves l r)]
  /\ forall o,
       match token with
       | Some tok =>
           truthy tok = true ->
           header "Authorization" (request_headers P (client s') o) = Some ("Bearer " ++ tok)
       | None =>
           request_headers P (client s') o = Hdr.assign (default_headers P) (caller_headers o)
       end.
Proof.
  intros a Hm Hc Hn Hok Hp Hv token s'.
  assert (E : authenticate P s
              = (Ok true,
                 mkState (set_session true token (client s))
                   (mkWorld (now (world s) + Z.of_N l) rest
                      (log (world s) ++ [token_request (client s) (Resolves l r)])))).
  { unfold authenticate, bind at 1, gets. fold a. rewrite Hm. cbv iota beta.
    unfold try_catch, authenticateWithJWT, bind at 1, gets. fold a.
    apply andb_true_iff in Hc. destruct Hc as [Hc H3].
    apply andb_true_iff in Hc. destruct Hc as [H1 H2].
    rewrite H1, H2, H3.
    change (negb true || negb true || negb true) with false. cbv iota.
    unfold try_catch, bind, gets, fetch. rewrite Hn, Hok, Hp. simpl.
    destruct v as [|x|x y z w|x]; [contradiction|reflexivity..]. }
  unfold s', events_of. rewrite E. simpl.
  rewrite skipn_app, skipn_all, Nat.sub_diag. simpl.
  repeat split.
  intros o. unfold request_headers, addAuthHeaders. simpl auth. fold a. rewrite Hm.
  cbv iota. simpl jwtToken.
  destruct token as [tok|]; [|reflexivity].
  intros T. simpl truthy_opt. rewrite T. unfold or_opt, JsString.or. rewrite T.
  apply header_set_same.
Qed.

(** A JWT login that the site refuses, or that does not reach it, makes
    [authenticate] throw an AuthenticationError that names the method and
    gives the reason: the status line of the answer, or the message of
    the network error.  There is one request and no retry, one
    authentication failure is counted, and the session is what it was. *)
Theorem jwt_login_refused (s : State) (out : FetchOutcome) (rest : list FetchOutcome) :
  let a := auth (client s) in
  option_map toLowerCase (auth_method a) = Some "jwt" ->
  truthy_opt (secret a) && truthy_opt (username a) && truthy_opt (password a) = true ->
  net (world s) = out :: rest ->
  match out with Resolves _ r => ok r = false | Rejects _ _ => True end ->
  let reason :=
    match out with
    | Resolves _ r => "HTTP " ++ of_Z (status r) ++ ": " ++ statusText r
    | Rejects _ t => thrown_message t
    end in
  let s' := snd (authenticate P s) in
  fst (authenticate P s)
  = Throw (ThrownError
             (AuthenticationError ("JWT authentication failed: " ++ reason) (auth_method a)))
  /\ stats_of s' = incr_authFailures (stats_of s)
  /\ same_session (client s) (client s')
  /\ net (world s') = rest
  /\ events_of (authenticate P) s = [token_request (client s) out].
Proof.
  intros a Hm Hc Hn Hout reason s'.
  assert (E : authenticate P s
              = (Throw (ThrownError
                          (AuthenticationError ("JWT authentication failed: " ++ reason)
                             (auth_method a))),
                 mkState (set_stats incr_authFailures (client s))
                   (mkWorld (now (world s) + latency_of out) rest
                      (log (world s) ++ [token_request (client s) out])))).
  { unfold authenticate, bind at 1, gets. fold a. rewrite Hm. cbv iota beta.
    unfold try_catch, authenticateWithJWT, bind at 1, gets. fold a.
    apply andb_true_iff in Hc. destruct Hc as [Hc H3].
    apply andb_true_iff in Hc. destruct Hc as [H1 H2].
    rewrite H1, H2, H3.
    change (negb true || negb true || negb true) with false. cbv iota.
    unfold try_catch, bind, gets, fetch. rewrite Hn.
    destruct out as [l r|l t]; [rewrite Hout|]; reflexivity. }
  unfold s', events_of. rewrite E. simpl.
  rewrite skipn_app, skipn_all, Nat.sub_diag. simpl. repeat split.
Qed.

Lemma authenticate_by_basic s m :
  auth_method (auth (client s)) = Some m -> m = "app-password" \/ m = "basic" ->
  authenticate P s
  = try_catch (authenticateWithBasic P)
      (fun _error => modify_client (set_stats incr_authFailures) ;;; throw _error) s.
Proof.
  intros Hm Hcase. unfold authenticate, bind at 1, gets. rewrite Hm.
  destruct Hcase as [-> | ->]; reflexivity.
Qed.

(** With the method app-password or basic and the credentials present, a
    login is one call of [request]: a GET of users/me that carries the
    Basic credentials on each of its requests and no body.  The call is
    counted like any other; [authenticate] returns true exactly when the
    call returns, and the client is then authenticated.  When the call
    throws, the failure is counted as a failed request and as an
    authentication failure, and the error is an AuthenticationError
    whose message wraps that of the call. *)
Theorem basic_login_is_one_call (s : State) (m : string) :
  let a := auth (client s) in
  let pass := if String.eqb m "app-password" then appPassword a else password a in
  auth_method a = Some m ->
  m = "app-password" \/ m = "basic" ->
  truthy_opt (username a) && truthy_opt pass = true ->
  let call := request P "GET" "users/me" DNull no_options in
  let L := request_locals P s "GET" "users/me" DNull no_options in
  let s' := snd (authenticate P s) in
  world s' = world (snd (call s))
  /\ totalRequests (stats_of s') = totalRequests (stats_of s) + 1
  /\ Forall (sent_with
               (fun fo =>
                  fo_method fo = "GET" /\ fo_body fo = None
                  /\ header "Authorization" (fo_headers fo)
                     = Some (basic_credentials P (username a) pass)))
       (events_of call s)
  /\ match fst (authenticate P s) with
     | Ok b =>
         b = true /\ isAuthenticated (client s') = true
         /\ (exists v, fst (call s) = Ok v)
         /\ successfulRequests (stats_of s') = successfulRequests (stats_of s) + 1
         /\ authFailures (stats_of s') = authFailures (stats_of s)
     | Throw t =>
         (exists e,
            t = ThrownError
                  (AuthenticationError
                     ("Basic authentication failed: " ++ failure_message L e) (Some m)))
         /\ failedRequests (stats_of s') = failedRequests (stats_of s) + 1
         /\ authFailures (stats_of s') = authFailures (stats_of s) + 1
         /\ same_session (client s) (client s')
     end.
Proof.
  intros a pass Hm Hcase Hc call L s'.
  assert (Hdr : header "Authorization" (request_headers P (client s) no_options)
                = Some (basic_credentials P (username a) pass)).
  { unfold request_headers, addAuthHeaders. fold a. rewrite Hm. unfold pass in *.
    destruct Hcase as [-> | ->]; simpl in Hc |- *; rewrite Hc; reflexivity. }
  assert (Sent : Forall (sent_with
               (fun fo =>
                  fo_method fo = "GET" /\ fo_body fo = None
                  /\ header "Authorization" (fo_headers fo)
                     = Some (basic_credentials P (username a) pass)))
       (events_of call s)).
  { eapply request_sent_with; [reflexivity|]. simpl. auto. }
  pose proof (request_accounting P "GET" "users/me" DNull no_options s) as Acc.
  pose proof (request_authFailures P "GET" "users/me" DNull no_options s) as AF.
  pose proof (request_keeps P "GET" "users/me" DNull no_options s) as [_ Ses].
  cbv zeta in Acc. destruct Acc as [Tot Acc].
  assert (EA : authenticate P s
               = match call s with
                 | (Ok _, s1) =>
                     (Ok true,
                      mkState (set_session true (jwtToken (client s1)) (client s1)) (world s1))
                 | (Throw t, s1) =>
                     (Throw (ThrownError
                               (AuthenticationError
                                  ("Basic authentication failed: " ++ thrown_message t)
                                  (Some m))),
                      mkState (set_stats incr_authFailures (client s1)) (world s1))
                 end).
  { rewrite (authenticate_by_basic s m Hm Hcase).
    unfold try_catch at 1, authenticateWithBasic, bind at 1, gets. fold a. rewrite Hm.
    change (match Some m with Some m0 => String.eqb m0 "app-password" | None => false end)
      with (String.eqb m "app-password").
    fold pass. rewrite Hc. change (negb true) with false. cbv iota.
    unfold try_catch, bind, call. cbv beta.
    destruct (request P "GET" "users/me" DNull no_options s) as [[v|t] s1]; reflexivity. }
  unfold s'. rewrite EA. clear EA. unfold call in *.
  destruct (request P "GET" "users/me" DNull no_options s) as [[v|t] s1] eqn:E; simpl in *.
  - split; [reflexivity|]. split; [exact Tot|]. split; [exact Sent|].
    split; [reflexivity|]. split; [reflexivity|]. split; [eauto|].
    split; [apply Acc | exact AF].
  - split; [reflexivity|]. split; [exact Tot|]. split; [exact Sent|].
    destruct (request_spec P _ _ _ _ _ _ _ E) as (ev & _ & _ & _ & _ & CF).
    split.
    { destruct CF as [(_ & _ & e & ->)|[(_ & _ & EP)|
                      (pre & i & u & fo & l & r & _ & _ & _ & _ & ra & ->)]].
      - exists e. reflexivity.
      - discriminate EP.
      - eexists. reflexivity. }
    destruct Acc as [_ [F|[_ EP]]]; [|discriminate EP].
    split; [exact F|]. split; [unfold stats_of in *; simpl; lia | exact Ses].
Qed.

(** The credentials a method needs are checked before anything is
    sent.  When they are missing, and when the method is none of the five
    the client knows, [authenticate] throws without a request: the state
    is what it was but for one more authentication failure. *)
Theorem missing_credentials_fail_offline (s : State) (m : string) :
  let a := auth (client s) in
  option_map toLowerCase (auth_method a) = Some m ->
  (m = "jwt" ->
   truthy_opt (secret a) && truthy_opt (username a) && truthy_opt (password a) = false ->
   fails_offline P s
     (AuthenticationError
        "JWT secret, username, and password are required for JWT authentication"
        (auth_method a)))
  /\ (m = "cookie" -> truthy_opt (nonce a) = false ->
      fails_offline P s
        (AuthenticationError "Nonce is required for cookie authentication" (auth_method a)))
  /\ (m = "app-password" \/ m = "basic" -> truthy_opt (username a) = false ->
      exists msg, fails_offline P s (AuthenticationError msg (auth_method a)))
  /\ (supported_method m = false -> truthy m = true ->
      fails_offline P s (new_Error ("Unsupported authentication method: " ++ m))).
Proof.
  intros a Hm.
  assert (Open : forall e s',
            try_catch
              (if String.eqb m "app-password" || String.eqb m "basic"
               then authenticateWithBasic P
               else if String.eqb m "jwt" then authenticateWithJWT
               else if String.eqb m "cookie" then authenticateWithCookie
               else if String.eqb m "api-key"
               then modify_client (fun c => set_session true (jwtToken c) c) ;;; ret true
               else throw_error
                      (new_Error ("Unsupported authentication method: "
                                  ++ or_opt (Some m) "undefined")))
              (fun _error => modify_client (set_stats incr_authFailures) ;;; throw _error) s
            = (Throw (ThrownError e), s') ->
            authenticate P s = (Throw (ThrownError e), s')).
  { intros e s' H. unfold authenticate, bind at 1, gets. rewrite method_dispatch.
    fold a. rewrite Hm. exact H. }
  unfold fails_offline.
  split; [|split; [|split]].
  - intros -> Hc. apply Open.
    change (String.eqb "jwt" "app-password" || String.eqb "jwt" "basic") with false.
    change (String.eqb "jwt" "jwt") with true. cbv iota.
    unfold try_catch, authenticateWithJWT, bind at 1, gets. cbv beta. fold a.
    destruct (truthy_opt (secret a)), (truthy_opt (username a)), (truthy_opt (password a));
      try discriminate Hc; reflexivity.
  - intros -> Hc. apply Open.
    change (String.eqb "cookie" "app-password" || String.eqb "cookie" "basic") with false.
    change (String.eqb "cookie" "jwt") with false.
    change (String.eqb "cookie" "cookie") with true. cbv iota.
    unfold try_catch, authenticateWithCookie, bind, gets. cbv beta. fold a. rewrite Hc.
    reflexivity.
  - intros Hcase Hc. eexists. apply Open.
    assert (B : String.eqb m "app-password" || String.eqb m "basic" = true)
      by (destruct Hcase as [-> | ->]; reflexivity).
    rewrite B.
    unfold try_catch, authenticateWithBasic, bind at 1, gets; cbv beta; fold a; rewrite Hc;
      reflexivity.
  - intros Hs Ht. apply Open.
    assert (Msg : or_opt (Some m) "undefined" = m)
      by (unfold or_opt, JsString.or; now rewrite Ht).
    rewrite Msg.
    unfold supported_method in Hs.
    repeat (apply orb_false_iff in Hs; let E := fresh "E" in destruct Hs as [Hs E]; rewrite E).
    rewrite Hs. reflexivity.
Qed.

End Logins.

Section LoginEdges.

Variable P : Platform.

(** The name of the method is compared in lower case by [authenticate]
    and by [addAuthHeaders], but as it is written by the credential
    check of [authenticateWithBasic].  With the method app-password
    written with a capital letter, a user name and an application
    password, every request carries the Basic credentials made of them,
    yet [authenticate] asks for the password of the basic method and
    fails without a request. *)
Theorem method_case_mismatch (s : State) (m : string) (o : RequestOptions) :
  let a := auth (client s) in
  auth_method a = Some m ->
  toLowerCase m = "app-password" ->
  String.eqb m "app-password" = false ->
  truthy_opt (username a) && truthy_opt (appPassword a) = true ->
  truthy_opt (password a) = false ->
  header "Authorization" (request_headers P (client s) o)
  = Some (basic_credentials P (username a) (appPassword a))
  /\ fails_offline P s
       (AuthenticationError "Username and password are required for Basic authentication"
          (Some m)).
Proof.
  intros a Hm Hl He Hc Hp. split.
  - unfold request_headers, addAuthHeaders. fold a. rewrite Hm. simpl option_map.
    rewrite Hl. cbv iota. rewrite Hc. apply header_set_same.
  - unfold fails_offline, authenticate, bind at 1, gets. fold a. rewrite Hm.
    simpl option_map. rewrite Hl. cbv iota beta.
    unfold try_catch, authenticateWithBasic, bind at 1, gets. cbv beta. fold a.
    rewrite Hm, He, Hp, andb_false_r. reflexivity.
Qed.

(** The methods api-key and cookie log in without a request: the client
    is marked authenticated and nothing else changes.  For api-key no
    key is asked for: without one the client is authenticated and its
    requests carry no credentials. *)
Theorem local_logins (s : State) (m : string) :
  let a := auth (client s) in
  option_map toLowerCase (auth_method a) = Some m ->
  m = "api-key" \/ (m = "cookie" /\ truthy_opt (nonce a) = true) ->
  authenticate P s
  = (Ok true, mkState (set_session true (jwtToken (client s)) (client s)) (world s))
  /\ (m = "api-key" -> truthy_opt (apiKey a) = false ->
      forall o,
        request_headers P (client (snd (authenticate P s))) o
        = Hdr.assign (default_headers P) (caller_headers o)).
Proof.
  intros a Hm Hcase.
  assert (E : authenticate P s
              = (Ok true, mkState (set_session true (jwtToken (client s)) (client s)) (world s))).
  { unfold authenticate, bind at 1, gets. fold a. rewrite Hm.
    destruct Hcase as [-> | [-> Hn]]; cbv iota beta; [reflexivity|].
    unfold try_catch, authenticateWithCookie, bind, gets. cbv beta. fold a. rewrite Hn.
    reflexivity. }
  split; [exact E|].
  intros -> Hk o. rewrite E. simpl snd.
  unfold request_headers, addAuthHeaders. simpl auth. fold a. rewrite Hm. cbv iota.
  rewrite Hk. reflexivity.
Qed.

End LoginEdges.

Section Constructed.

Variable P : Platform.

(** *** Construction *)

Lemma constructor_cases cfg options :
  let url := or_opt (o_baseUrl options) (or_opt (siteUrl cfg) EmptyString) in
  match constructor P cfg options with
  | inl e =>
      (truthy url = false /\ e = new_Error "WordPress site URL is required")
      \/ (truthy url = true /\ URL_parse P url = None
          /\ e = new_Error "Invalid WordPress site URL format")
      \/ (exists u, truthy url = true /\ URL_parse P url = Some u
                    /\ String.eqb (protocol u) "http:" || String.eqb (protocol u) "https:" = false
                    /\ e = new_Error "Only HTTP and HTTPS protocols are allowed")
      \/ (exists u, truthy url = true /\ URL_parse P url = Some u
                    /\ isProduction cfg = true
                    /\ is_private_host (toLowerCase (hostname u)) = true
                    /\ e = new_Error "Private/localhost URLs not allowed in production")
  | inr c =>
      exists u, truthy url = true /\ URL_parse P url = Some u
                /\ (protocol u = "http:" \/ protocol u = "https:")
                /\ isProduction cfg && is_private_host (toLowerCase (hostname u)) = false
                /\ c = mkClient (strip_trailing_slash (strip_trailing_slash (clean_url u)))
                         (strip_trailing_slash (strip_trailing_slash (clean_url u))
                          ++ "/wp-json/wp/v2")
                         (or_num (o_timeout options) (cfg_timeout cfg))
                         (or_num (o_maxRetries options) (cfg_maxRetries cfg))
                         (resolve_auth cfg (o_auth options))
                         0 (60000 / cfg_rateLimit cfg) false None empty_stats
  end.
Proof.
  intros url. unfold constructor. fold url. unfold validateAndSanitizeUrl.
  destruct (truthy url) eqn:T; simpl negb; cbv iota; [|now left].
  destruct (URL_parse P url) as [u|] eqn:EU; [|right; left; auto].
  destruct (String.eqb (protocol u) "http:" || String.eqb (protocol u) "https:") eqn:Ep;
    simpl negb; cbv iota; [|right; right; left; eauto 8].
  assert (Hp : protocol u = "http:" \/ protocol u = "https:").
  { apply orb_true_iff in Ep. destruct Ep as [E|E]; apply String.eqb_eq in E; auto. }
  destruct (isProduction cfg && is_private_host (toLowerCase (hostname u))) eqn:Epriv.
  { apply andb_true_iff in Epriv. destruct Epriv. right; right; right. eauto 8. }
  assert (Nonempty : truthy (strip_trailing_slash (clean_url u)) = true).
  { unfold clean_url. destruct Hp as [-> | ->]; reflexivity. }
  change (protocol u ++ "//" ++ host u ++ pathname u) with (clean_url u).
  unfold validateConfig. simpl baseUrl. rewrite Nonempty.
  simpl. exists u. auto 8.
Qed.



End Constructed.

Section EnvironmentAuth.

Variable P : Platform.

(** The authentication read from the environment does not depend on the
    configured method: the credentials present decide, in the order
    application password, JWT, API key, cookie nonce, and basic when
    there is none of them.  The method it yields is one of the five that
    [authenticate] knows. *)
Theorem environment_auth_detection (url : option string) (t r : Z) (m m' : option string)
    (user app pass sec key nonce : option string) (rl : Z) (prod : bool) :
  let cfg := mkConfig url t r m user app pass sec key nonce rl prod in
  getAuthFromEnv cfg = getAuthFromEnv (mkConfig url t r m' user app pass sec key nonce rl prod)
  /\ (exists name, auth_method (getAuthFromEnv cfg) = Some name
                   /\ toLowerCase name = name /\ supported_method name = true)
  /\ auth_method (getAuthFromEnv cfg)
     = Some (if truthy_opt user && truthy_opt app then "app-password"
             else if truthy_opt sec && truthy_opt user && truthy_opt pass then "jwt"
             else if truthy_opt key then "api-key"
             else if truthy_opt nonce then "cookie"
             else "basic").
Proof.
  cbv zeta. unfold getAuthFromEnv. simpl.
  destruct (match m with Some m0 => String.eqb m0 "app-password" | None => false end),
           (match m' with Some m0 => String.eqb m0 "app-password" | None => false end),
           (truthy_opt user), (truthy_opt app), (truthy_opt pass), (truthy_opt sec),
           (truthy_opt key), (truthy_opt nonce); simpl;
    (split; [reflexivity
            | split; [eexists; split; [reflexivity | split; reflexivity] | reflexivity]]).
Qed.

(** A client constructed without authentication options, in an
    environment with no user name, no API key and no cookie nonce, has
    the method basic with an empty user name: construction does not
    fail, and [authenticate] fails without a request. *)
Theorem unconfigured_client_fails_offline (cfg : Config) (options : ClientOptions)
    (c : Client) (w : World) :
  constructor P cfg options = inr c ->
  o_auth options = None ->
  truthy_opt (wp_username cfg) = false ->
  truthy_opt (wp_apiKey cfg) = false ->
  truthy_opt (cookieNonce cfg) = false ->
  auth_method (auth c) = Some "basic"
  /\ fails_offline P (mkState c w)
       (AuthenticationError "Username and password are required for Basic authentication"
          (Some "basic")).
Proof.
  intros H Ho Hu Hk Hn.
  pose proof (constructor_cases P cfg options) as C. rewrite H in C.
  destruct C as (u & _ & _ & _ & _ & ->). rewrite Ho.
  assert (EA : getAuthFromEnv cfg
               = mkAuth (Some "basic") (Some EmptyString) None
                   (Some (or_opt (wp_password cfg) (or_opt (wp_appPassword cfg) EmptyString)))
                   None None None).
  { unfold getAuthFromEnv. rewrite Hu, Hk, Hn.
    rewrite ?andb_false_r, ?andb_false_l. simpl.
    destruct (wp_username cfg) as [x|]; [|reflexivity].
    simpl in Hu. unfold or_opt, JsString.or. now rewrite Hu. }
  unfold fails_offline, authenticate, bind at 1, gets. simpl. rewrite EA.
  split; reflexivity.
Qed.

End EnvironmentAuth.

Section Endpoints.

Variable P : Platform.

Lemma run_op_same_config op s : same_config (client s) (client (run_op P op s)).
Proof.
  destruct op; unfold run_op, ignore, get, post, put, patch, delete;
    try apply request_keeps; try apply authenticate_same_config.
  - unfold initialize, bind. pose proof (authenticate_same_config P s) as H.
    destruct (authenticate P s) as [[b|t] s1]; exact H.
  - repeat split.
  - repeat split.
Qed.

(** The configuration of a client is fixed at construction: after any
    sequence of operations the [config] getter, [getSiteUrl], the URL of
    the API and the interval of the rate limiter are what they were. *)
Theorem configuration_is_fixed (ops : list Op) (s : State) :
  let c' := client (run_ops P ops s) in
  config c' = config (client s)
  /\ getSiteUrl c' = getSiteUrl (client s)
  /\ apiUrl c' = apiUrl (client s)
  /\ requestInterval c' = requestInterval (client s).
Proof.
  cbv zeta.
  assert (H : same_config (client s) (client (run_ops P ops s))).
  { revert s. induction ops as [|op ops IH]; intros s; [apply same_config_refl|].
    simpl. eapply same_config_trans; [apply run_op_same_config | apply IH]. }
  destruct H as (H1 & H2 & H3). split; [exact H1|]. split; [|auto].
  unfold getSiteUrl. unfold config in H1. congruence.
Qed.

(** *** URLs *)

Lemma prefix_refl_app a b : String.prefix a (a ++ b) = true.
Proof.
  induction a as [|c a IH]; [destruct b; reflexivity|].
  simpl. destruct (Ascii.ascii_dec c c); [exact IH | contradiction].
Qed.

Lemma prefix_cons_inv a p b s :
  String.prefix (String a p) (String b s) = true -> a = b /\ String.prefix p s = true.
Proof.
  simpl. destruct (Ascii.ascii_dec a b); [auto | discriminate].
Qed.

(** An endpoint that does not start with http is requested under the URL
    of the API, and slashes at its start make no difference; [buildUrl]
    without parameters gives the same URL.  An endpoint that starts with
    http is requested as it is, whereas [buildUrl] puts it under the URL
    of the API all the same. *)
Theorem endpoint_urls (URLSearchParams : list (string * string) -> string)
    (c : Client) (endpoint : string) :
  buildUrl URLSearchParams c endpoint None = apiUrl c ++ "/" ++ strip_leading_slashes endpoint
  /\ (startsWith "http" endpoint = false ->
      request_url c endpoint = buildUrl URLSearchParams c endpoint None
      /\ request_url c ("/" ++ endpoint) = request_url c endpoint
      /\ startsWith (apiUrl c ++ "/") (request_url c endpoint) = true)
  /\ (startsWith "http" endpoint = true ->
      request_url c endpoint = endpoint
      /\ buildUrl URLSearchParams c endpoint None <> request_url c endpoint).
Proof.
  unfold buildUrl, request_url. split; [reflexivity|]. split.
  - intros H. rewrite H. split; [reflexivity|]. split.
    + reflexivity.
    + unfold startsWith.
      rewrite <- (append_assoc (apiUrl c) "/" (strip_leading_slashes endpoint)).
      apply prefix_refl_app.
  - intros H. rewrite H. split; [reflexivity|].
    intros E. apply (f_equal String.length) in E.
    rewrite !length_append in E.
    unfold startsWith in H.
    destruct endpoint as [|x e]; [simpl in H; discriminate H|].
    apply prefix_cons_inv in H. destruct H as [<- _].
    simpl in E. lia.
Qed.

End Endpoints.

Lemma prefix_app_inv p : forall a b,
  String.prefix p (a ++ b) = true -> (String.length p <= String.length a)%nat ->
  String.prefix p a = true.
Proof.
  induction p as [|x p IH]; intros a b H Hl; [destruct a; reflexivity|].
  destruct a as [|y a]; [simpl in Hl; lia|].
  change (String y a ++ b) with (String y (a ++ b)) in H.
  apply prefix_cons_inv in H. destruct H as [<- H].
  simpl. destruct (Ascii.ascii_dec x x); [|contradiction].
  apply (IH a b H). simpl in Hl. lia.
Qed.

Lemma replace_unfold pat rep s :
  replace pat rep s
  = if String.prefix pat s then rep ++ drop (String.length pat) s
    else match s with
         | EmptyString => EmptyString
         | String c s' => String c (replace pat rep s')
         end.
Proof. destruct s; reflexivity. Qed.

(** The first occurrence is the one replaced. *)
Lemma replace_first q z rep rest : forall pre,
  includes (q ++ String z EmptyString) (pre ++ q) = false ->
  replace (q ++ String z EmptyString) rep (pre ++ (q ++ String z EmptyString) ++ rest)
  = pre ++ rep ++ rest.
Proof.
  induction pre as [|c pre IH]; intros H.
  - change (EmptyString ++ (q ++ String z EmptyString) ++ rest)
      with ((q ++ String z EmptyString) ++ rest).
    rewrite replace_unfold, prefix_refl_app, drop_append. reflexivity.
  - change (String c pre ++ q) with (String c (pre ++ q)) in H.
    rewrite includes_cons in H.
    destruct (String.prefix (q ++ String z EmptyString) (String c (pre ++ q))) eqn:E;
      [discriminate|].
    change (String c pre ++ (q ++ String z EmptyString) ++ rest)
      with (String c (pre ++ (q ++ String z EmptyString) ++ rest)).
    rewrite replace_unfold.
    destruct (String.prefix (q ++ String z EmptyString)
                (String c (pre ++ (q ++ String z EmptyString) ++ rest))) eqn:E2.
    + exfalso.
      assert (Sp : String c (pre ++ (q ++ String z EmptyString) ++ rest)
                   = String c (pre ++ q) ++ (String z EmptyString ++ rest)).
      { change (String c (pre ++ q) ++ String z EmptyString ++ rest)
          with (String c ((pre ++ q) ++ String z EmptyString ++ rest)).
        now rewrite !append_assoc. }
      rewrite Sp in E2. apply prefix_app_inv in E2; [congruence|].
      simpl. rewrite !length_append. simpl. lia.
    + rewrite (IH H). reflexivity.
Qed.

Lemma every_prefix f p : forall s,
  String.prefix p s = true -> every f s = true -> every f p = true.
Proof.
  induction p as [|x p IH]; intros s H E; [reflexivity|].
  destruct s as [|y s]; [discriminate H|].
  apply prefix_cons_inv in H. destruct H as [<- H].
  simpl in E |- *. apply andb_true_iff in E. destruct E as [E1 E2].
  rewrite E1. exact (IH s H E2).
Qed.

Lemma every_includes f p : forall s,
  includes p s = true -> every f s = true -> every f p = true.
Proof.
  induction s as [|y s IH]; intros H E.
  - destruct p; [reflexivity | discriminate H].
  - rewrite includes_cons in H.
    destruct (String.prefix p (String y s)) eqn:Ep; [exact (every_prefix f p _ Ep E)|].
    simpl in E. apply andb_true_iff in E. destruct E as [_ E]. exact (IH H E).
Qed.

(** An endpoint that [validateEndpoint] accepts is not empty and every
    part of it is made of letters, digits, slashes, hyphens and
    underscores: it has no dot, so no step to a parent directory, and no
    query, fragment, colon, space or percent sign. *)
Theorem validated_endpoint_is_plain (endpoint : string) :
  validateEndpoint endpoint = true ->
  truthy endpoint = true
  /\ (forall part, includes part endpoint = true -> every endpoint_char part = true)
  /\ includes ".." endpoint = false /\ includes "." endpoint = false
  /\ includes "?" endpoint = false /\ includes "#" endpoint = false
  /\ includes ":" endpoint = false /\ includes " " endpoint = false
  /\ includes "%" endpoint = false.
Proof.
  unfold validateEndpoint. intros H. apply andb_true_iff in H. destruct H as [T E].
  assert (Parts : forall part, includes part endpoint = true -> every endpoint_char part = true)
    by (intros part Hp; exact (every_includes _ _ _ Hp E)).
  assert (No : forall part, every endpoint_char part = false -> includes part endpoint = false).
  { intros part Hn. destruct (includes part endpoint) eqn:Hi; [|reflexivity].
    rewrite (Parts _ Hi) in Hn. discriminate. }
  split; [exact T|]. split; [exact Parts|].
  repeat split; apply No; reflexivity.
Qed.

(** The fallback URL is made from the path of the URL by taking out the
    first [/wp-json/wp/v2]: what follows it becomes the route, the query
    of the URL follows after an ampersand, and the request goes to
    index.php at the root of the host.  When the site is in a
    subdirectory, the part of the path before [/wp-json] is not kept in
    front of index.php; it is put at the start of the route. *)
Theorem fallback_url_shape (u : URL) (pre rest : string) :
  pathname u = pre ++ "/wp-json/wp/v2" ++ rest ->
  includes "/wp-json/wp/v2" (pre ++ "/wp-json/wp/v") = false ->
  fallback_url u
  = let fallbackUrl := origin u ++ "/index.php?rest_route=/wp/v2" ++ pre ++ rest in
    if truthy (searchParams u) then fallbackUrl ++ "&" ++ searchParams u else fallbackUrl.
Proof.
  intros Hp Hn. unfold fallback_url. rewrite Hp.
  pose proof (replace_first "/wp-json/wp/v" "2" EmptyString rest pre Hn) as R.
  change ("/wp-json/wp/v" ++ "2") with "/wp-json/wp/v2" in R.
  rewrite R. reflexivity.
Qed.

Section AbsoluteEndpoints.

Variable P : Platform.

(** An endpoint that starts with http is requested as it is, on
    whatever host it names, and a call without a body sends it the
    headers of the client, credentials included. *)
Theorem absolute_endpoint_gets_credentials (m ep : string) (d : RequestData)
    (o : RequestOptions) (s : State) :
  startsWith "http" ep = true ->
  sends_body m = false ->
  Forall (primary_sent
            (fun url fo => url = ep /\ fo_headers fo = request_headers P (client s) o))
    (events_of (request P m ep d o) s).
Proof.
  intros Ha Hm.
  eapply Forall_impl; [|exact (logs_events _ _ _ (request_logs P m ep d o s))].
  intros [i|[a| |] u fo out|why ms|dd]; simpl; try exact (fun _ => I).
  intros [-> EP]. unfold request_url. rewrite Ha. split; [reflexivity|].
  unfold prepare, request_locals, locals_of in EP. simpl in EP.
  rewrite Hm, andb_false_r in EP. inversion EP. reflexivity.
Qed.

End AbsoluteEndpoints.

Section Posts.

Variable P : Platform.
Variable URLSearchParams : list (string * string) -> string.

Lemma request_primary m ep d o s fo0 :
  prepare (request_locals P s m ep d o) = inr fo0 ->
  Forall (primary_sent (fun url fo => url = request_url (client s) ep /\ fo = fo0))
    (events_of (request P m ep d o) s).
Proof.
  intros EP.
  eapply Forall_impl; [|exact (logs_events _ _ _ (request_logs P m ep d o s))].
  intros [i|[a| |] u fo out|why ms|dd]; simpl; try exact (fun _ => I).
  intros [-> EP']. split; [reflexivity | congruence].
Qed.

(** The read operations on posts and [deletePost], with the default
    post type: each is one call of [request], and every request of its
    retry loop is a GET (a DELETE for [deletePost]) without a body, with
    the headers of the client, to the URL of the API followed by the
    path and query shown. *)
Theorem post_reads (s : State) (id : Z) (context : string) (force : bool)
    (params : option (list (string * string))) :
  let c := client s in
  let sent (method path : string) :=
    primary_sent
      (fun url fo =>
         url = apiUrl c ++ path
         /\ fo = mkFetchOptions method (request_headers P c no_options) None) in
  Forall (sent "GET"
            ("/posts" ++ match params with
                         | Some p => "?" ++ URLSearchParams p
                         | None => EmptyString
                         end))
    (events_of (getPosts P URLSearchParams params None) s)
  /\ Forall (sent "GET" ("/posts/" ++ of_Z id ++ "?context=" ++ context))
       (events_of (getPost P id context None) s)
  /\ Forall (sent "GET" ("/posts/" ++ of_Z id ++ "/revisions"))
       (events_of (getPostRevisions P id None) s)
  /\ Forall (sent "DELETE"
               ("/posts/" ++ of_Z id ++ "?force=" ++ (if force then "true" else "false")))
       (events_of (deletePost P id force None) s).
Proof.
  cbv zeta. unfold getPosts, getPost, getPostRevisions, deletePost, get, delete.
  repeat split; (eapply Forall_impl; [|apply request_primary; reflexivity]);
    intros [i|[a| |] u fo out|why ms|dd]; simpl; try exact (fun _ => I);
    intros [-> ->]; (split; [|reflexivity]).
  - destruct params; reflexivity.
  - reflexivity.
  - reflexivity.
  - reflexivity.
Qed.

(** [createPost] and [updatePost] with the default post type and an
    object that JSON.stringify accepts: every request of the retry loop
    is a POST to the posts collection (a PUT to the post for
    [updatePost]) with the JSON text as its body and the headers of the
    client.  The call is counted once, and the loop may send the request
    as many times as the client is configured to retry. *)
Theorem post_writes (s : State) (id : Z) (ob : JsObject) (json : string) :
  append_is_function ob = false ->
  pipe_is_function ob = false ->
  stringify ob = inl json ->
  let c := client s in
  let sent (method path : string) :=
    primary_sent
      (fun url fo =>
         url = apiUrl c ++ path
         /\ fo = mkFetchOptions method (request_headers P c no_options) (Some (PText json))) in
  Forall (sent "POST" "/posts") (events_of (createPost P (DObject ob) None) s)
  /\ Forall (sent "PUT" ("/posts/" ++ of_Z id))
       (events_of (updatePost P id (DObject ob) None) s)
  /\ totalRequests (stats_of (snd (createPost P (DObject ob) None s)))
     = totalRequests (stats_of s) + 1
  /\ totalRequests (stats_of (snd (updatePost P id (DObject ob) None s)))
     = totalRequests (stats_of s) + 1
  /\ l_maxAttempts (request_locals P s "POST" "posts" (DObject ob) no_options)
     = or_num (Some (maxRetries c)) 1.
Proof.
  intros Ha Hp Hj. cbv zeta. unfold createPost, updatePost, post, put.
  assert (EP : forall m ep, sends_body m = true ->
             prepare (request_locals P s m ep (DObject ob) no_options)
             = inr (mkFetchOptions m (request_headers P (client s) no_options)
                      (Some (PText json)))).
  { intros m ep Hm. unfold prepare, request_locals, locals_of. simpl.
    now rewrite Hm, Ha, Hj. }
  split; [|split; [|split; [|split]]].
  - eapply Forall_impl; [|apply request_primary; apply EP; reflexivity].
    intros [i|[a| |] u fo out|why ms|dd]; simpl; try exact (fun _ => I).
    intros [-> ->]. split; reflexivity.
  - eapply Forall_impl; [|apply request_primary; apply EP; reflexivity].
    intros [i|[a| |] u fo out|why ms|dd]; simpl; try exact (fun _ => I).
    intros [-> ->]. split; reflexivity.
  - apply request_accounting.
  - apply request_accounting.
  - unfold request_locals, locals_of, maxAttempts_of. simpl. now rewrite Hp.
Qed.

End Posts.

Section MediaUploads.

Variable P : Platform.

Lemma rateLimit_client s :
  exists t w evs,
    rateLimit s = (Ok tt, mkState (set_lastRequestTime t (client s)) w)
    /\ net w = net (world s)
    /\ log w = (log (world s) ++ evs)%list /\ fallbacks evs = [].
Proof.
  unfold rateLimit, bind, Date_now, gets, delay, modify_world, modify_client, ret. simpl.
  destruct (now (world s) - lastRequestTime (client s) <? requestInterval (client s)); simpl.
  - eexists _, _, [_]. repeat split.
  - eexists _, _, []. split; [reflexivity|]. split; [reflexivity|].
    split; [now rewrite app_nil_r | reflexivity].
Qed.

Lemma prepare_method L fo : prepare L = inr fo -> fo_method fo = l_method L.
Proof.
  unfold prepare. destruct (data_truthy (l_data L) && sends_body (l_method L)).
  - destruct (attachRequestBody (l_baseHeaders L) (l_data L)) as [t|[h b]]; [discriminate|].
    intros H. inversion H. reflexivity.
  - intros H. inversion H. reflexivity.
Qed.

Lemma attempt_once_answered L a le s fo l r rest :
  prepare L = inr fo -> net (world s) = Resolves l r :: rest ->
  exists t w evs,
    net w = rest
    /\ log w = (log (world s)
                ++ [EvAttempt a] ++ evs ++ [EvFetch (Primary a) (l_url L) fo (Resolves l r)])%list
    /\ fallbacks evs = []
    /\ attempt_once P L a le s
       = try_catch (on_response P L fo le r) (on_error L a le)
           (mkState (set_lastRequestTime t (client s)) w).
Proof.
  intros EP Hn. unfold attempt_once, bind at 1, mark, modify_world. cbv beta.
  unfold bind at 1.
  match goal with
  | |- context [rateLimit ?s0] =>
      destruct (rateLimit_client s0) as (t & w & evs & -> & Nw & Lw & Fw)
  end.
  simpl in Nw, Lw. rewrite Hn in Nw. rewrite EP.
  exists t, (mkWorld (now w + Z.of_N l) rest
               (log w ++ [EvFetch (Primary a) (l_url L) fo (Resolves l r)])), evs.
  split; [reflexivity|]. split; [simpl; rewrite Lw, <- !app_assoc; reflexivity|].
  split; [exact Fw|].
  unfold try_catch, bind at 1, fetch. simpl world. rewrite Nw. reflexivity.
Qed.

Lemma on_response_media_forbidden L fo le r s :
  status r = 403 -> includes "media" (l_endpoint L) = true -> fo_method fo = "POST" ->
  on_response P L fo le r s
  = (Throw (ThrownError
              (AuthenticationError (media_blocked_message (error_message r))
                 (auth_method (auth (client s))))), s).
Proof.
  intros H403 Hm Hpost. unfold on_response, ok. rewrite H403.
  change (negb ((200 <=? 403) && (403 <=? 299))) with true. cbv iota.
  unfold bind, handleErrorResponseWithFallback. rewrite H403, Hm, Hpost.
  reflexivity.
Qed.

Lemma on_error_final L a le t s :
  is_RateLimit_thrown t = false -> l_maxAttempts L = a + 1 ->
  on_error L a le t s = (Ok (Break (normalizeRequestError t (l_requestTimeout L))), s).
Proof.
  intros NR Ea. unfold on_error. rewrite NR, Ea.
  replace (a <? a + 1 - 1) with false by (symmetry; apply Z.ltb_ge; lia).
  rewrite andb_false_r. reflexivity.
Qed.

(** An upload that is refused: a POST to an endpoint with media in its
    name, with a body that cannot be sent again (a form or a stream),
    answered with status 403.  The call makes this one request and no
    fallback request, counts one failed request, and throws a
    WordPressAPIError whose message wraps the explanation that media
    uploads are blocked; the AuthenticationError with that explanation
    does not reach the caller as such. *)
Theorem media_upload_forbidden (ep : string) (d : RequestData) (o : RequestOptions)
    (s : State) (fo : FetchOptions) (l : N) (r : Response) (rest : list FetchOutcome) :
  let L := request_locals P s "POST" ep d o in
  isRetryableBody d = false ->
  prepare L = inr fo ->
  includes "media" ep = true ->
  net (world s) = Resolves l r :: rest ->
  status r = 403 ->
  let blocked :=
    AuthenticationError (media_blocked_message (error_message r))
      (auth_method (auth (client s))) in
  let s' := snd (request P "POST" ep d o s) in
  l_maxAttempts L = 1
  /\ fst (request P "POST" ep d o s)
     = Throw (ThrownError
                (WordPressAPIError
                   (failure_message L
                      (normalizeRequestError (ThrownError blocked) (l_requestTimeout L)))
                   None))
  /\ net (world s') = rest
  /\ fallbacks (events_of (request P "POST" ep d o) s) = []
  /\ stats_of s' = incr_failedRequests (incr_totalRequests (stats_of s)).
Proof.
  intros L Hr EP Hm Hn H403 blocked s'.
  assert (HL : l_maxAttempts L = 1).
  { unfold L, request_locals, locals_of, maxAttempts_of. simpl. now rewrite Hr. }
  split; [exact HL|].
  pose proof (prepare_method L fo EP) as Hpost.
  assert (E : request P "POST" ep d o s
              = attempts P L 1 0 (new_Error "Unknown error")
                  (mkState (set_stats incr_totalRequests (client s)) (world s))).
  { rewrite request_unfold. fold L. rewrite HL. reflexivity. }
  set (s0 := mkState (set_stats incr_totalRequests (client s)) (world s)) in *.
  destruct (attempt_once_answered L 0 (new_Error "Unknown error") s0 fo l r rest EP Hn)
    as (t & w & evs & Nw & Lw & Fw & EA).
  set (s1 := mkState (set_lastRequestTime t (client s0)) w) in *.
  destruct (fail_request_run L
              (normalizeRequestError (ThrownError blocked) (l_requestTimeout L)) s1)
    as (s2 & E2 & W2 & St2).
  assert (Run : request P "POST" ep d o s
                = (Throw (ThrownError
                            (WordPressAPIError
                               (failure_message L
                                  (normalizeRequestError (ThrownError blocked)
                                     (l_requestTimeout L)))
                               None)), s2)).
  { rewrite E. unfold attempts. rewrite HL. change (0 <? 1) with true. cbv iota.
    unfold bind. rewrite EA. unfold try_catch.
    rewrite (on_response_media_forbidden L fo _ r _ H403 Hm Hpost).
    rewrite on_error_final by (reflexivity || (rewrite HL; reflexivity)).
    exact E2. }
  unfold s', events_of. rewrite Run. simpl fst. simpl snd. rewrite W2.
  split; [reflexivity|]. split; [exact Nw|]. split; [|exact St2].
  unfold s1. simpl world. rewrite Lw. simpl log.
  rewrite skipn_app, skipn_all, Nat.sub_diag. simpl.
  rewrite fallbacks_app, Fw. reflexivity.
Qed.

End MediaUploads.

(** ** The composed client *)

Section ComposedClient.

Import Composed.

Variables Env Data Options : Type.
Variable undefined : Data.
Variable object : list (string * bool) -> Data.
Variable no_options : Options.

Lemma request_uninitialized (D : Dependencies Env Data Options) me ep d o e :
  request D me ep d o (mkCState false e)
  = (Throw (ThrownError not_initialized), mkCState false e).
Proof. reflexivity. Qed.

Ltac run_validation :=
  match goal with
  | |- context [validator_validateWordPressId ?D ?i ?n ?e] =>
      destruct (validator_validateWordPressId D i n e) as [[[]|?] ?]
  | |- context [validator_validateRequired ?D ?d ?l ?e] =>
      destruct (validator_validateRequired D d l e) as [[[]|?] ?]
  end.

(** A client that is not initialized does not reach its request handler.
    Every method throws: [request] and [getPosts] the error that asks
    for [initialize], with nothing changed; the methods that validate an
    argument first throw that error after the validation, unless the
    validation throws.  The outcome is the same with any other request
    handler in its place, and the client stays uninitialized. *)
Theorem uninitialized_client_makes_no_request (D : Dependencies Env Data Options)
    (m : Method Data Options) (s : CState Env) :
  initialized s = false ->
  let call := run undefined object no_options in
  (exists t, fst (call D m s) = Throw t)
  /\ initialized (snd (call D m s)) = false
  /\ (forall req, call (with_request D req) m s = call D m s)
  /\ (forall me ep d o, request D me ep d o s = (Throw (ThrownError not_initialized), s))
  /\ (forall p t, getPosts no_options D p t s = (Throw (ThrownError not_initialized), s)).
Proof.
  intros H. cbv zeta. destruct s as [i e]. simpl in H. subst i.
  split; [|split; [|split; [|split]]].
  - destruct m; simpl; unfold getPosts, getPost, createPost, updatePost, deletePost, cbind, call;
      simpl; try run_validation; simpl; rewrite ?request_uninitialized; simpl; eauto.
  - destruct m; simpl; unfold getPosts, getPost, createPost, updatePost, deletePost, cbind, call;
      simpl; try run_validation; simpl; rewrite ?request_uninitialized; reflexivity.
  - intros req.
    destruct m; simpl; unfold getPosts, getPost, createPost, updatePost, deletePost, cbind, call;
      simpl; try run_validation; simpl; rewrite ?request_uninitialized; reflexivity.
  - intros. apply request_uninitialized.
  - intros. apply request_uninitialized.
Qed.

(** [initialize] does nothing on a client that is initialized: there is
    no second authentication.  On one that is not, the client becomes
    initialized exactly when the authentication and, if the request
    handler has one, its [initialize] return; what the error handler or
    the logging of the success does afterwards does not change that.
    [dispose] clears the flag when the [dispose] of the request handler
    returns or is missing, and leaves it when that throws. *)
Theorem composed_lifecycle (D : Dependencies Env Data Options) (s : CState Env) :
  (initialized s = true -> initialize D s = (Ok tt, s))
  /\ (initialized s = false ->
      initialized (snd (initialize D s))
      = match authProvider_authenticate D (env s) with
        | (Ok _, e) =>
            match requestHandler_initialize D with
            | Some init => match init e with (Ok _, _) => true | (Throw _, _) => false end
            | None => true
            end
        | (Throw _, _) => false
        end)
  /\ match requestHandler_dispose D with
     | Some f =>
         match f (env s) with
         | (Ok _, e) => dispose D s = (Ok tt, mkCState false e)
         | (Throw t, e) => dispose D s = (Throw t, mkCState (initialized s) e)
         end
     | None => dispose D s = (Ok tt, mkCState false (env s))
     end.
Proof.
  destruct s as [i e]. simpl. split; [|split].
  - intros ->. reflexivity.
  - intros ->. unfold initialize, ctry, cbind, call, set_initialized, cret. simpl.
    destruct (authProvider_authenticate D e) as [[[]|t] e1]; simpl.
    + destruct (requestHandler_initialize D) as [init|]; simpl.
      * destruct (init e1) as [[[]|t] e2]; simpl.
        -- destruct (errorHandler_logSuccess D "client initialization" e2)
             as [[[]|t] e3]; simpl; [reflexivity|].
           destruct (errorHandler_handleError D t "client initialization" e3)
             as [r e4]; reflexivity.
        -- destruct (errorHandler_handleError D t "client initialization" e2)
             as [r e4]; reflexivity.
      * destruct (errorHandler_logSuccess D "client initialization" e1)
          as [[[]|t] e3]; simpl; [reflexivity|].
        destruct (errorHandler_handleError D t "client initialization" e3)
          as [r e4]; reflexivity.
    + destruct (errorHandler_handleError D t "client initialization" e1)
        as [r e4]; reflexivity.
  - unfold dispose, cbind, call, set_initialized, cret. simpl.
    destruct (requestHandler_dispose D) as [f|]; [|reflexivity].
    simpl. destruct (f e) as [[[]|t] e1]; reflexivity.
Qed.

End ComposedClient.

(** ** The post tools *)

Section PostTools.

Import Tools.

Lemma prop_set_same k v o : prop k (set k v o) = v.
Proof.
  induction o as [|[k' v'] o IH]; simpl; [now rewrite String.eqb_refl|].
  destruct (String.eqb k k') eqn:E; simpl; rewrite ?String.eqb_refl, ?E; auto.
Qed.

Lemma prop_set_other k k' v o :
  String.eqb k' k = false -> prop k' (set k v o) = prop k' o.
Proof.
  intros N. induction o as [|[k0 v0] o IH]; simpl; [now rewrite N|].
  destruct (String.eqb k k0) eqn:E; simpl.
  - apply String.eqb_eq in E. subst k0. now rewrite N.
  - now rewrite IH.
Qed.

Lemma mem_cons k x l : mem k (x :: l) = String.eqb k x || mem k l.
Proof. reflexivity. Qed.

Lemma eqb_sym_false k x : String.eqb k x = false -> String.eqb x k = false.
Proof. intros H. now rewrite String.eqb_sym. Qed.

(** A member that is written and not read makes no difference. *)
Ltac unread H :=
  repeat (rewrite mem_cons in H; apply orb_false_iff in H;
          let E := fresh "E" in destruct H as [E H]; apply eqb_sym_false in E);
  unfold copy;
  repeat (rewrite prop_set_other by assumption).

Lemma list_query_unread k v params :
  mem k query_keys = false -> list_query (set k v params) = list_query params.
Proof.
  intros H. unfold query_keys in H. unfold list_query. unread H. reflexivity.
Qed.

(** The arguments of a tool that its handler does not read have no
    influence on the call it makes.  For the tools that create, update
    and delete a post and list its revisions, the arguments read are
    the properties the schema of the tool declares.  The tool that gets
    a post reads [id] and [post_type] only, so not the [include_content]
    that its schema declares; the tool that lists posts reads
    [post_type] and the nine members of the query. *)
Theorem unread_arguments_are_ignored (k : string) (v : Value) (params : Object) :
  (mem k (properties createPostTool) = false ->
   handleCreatePost (set k v params) = handleCreatePost params)
  /\ (mem k (properties updatePostTool) = false ->
      handleUpdatePost (set k v params) = handleUpdatePost params)
  /\ (mem k (properties deletePostTool) = false ->
      handleDeletePost (set k v params) = handleDeletePost params)
  /\ (mem k (properties getPostRevisionsTool) = false ->
      handleGetPostRevisions (set k v params) = handleGetPostRevisions params)
  /\ (mem k ["id"; "post_type"] = false ->
      handleGetPost (set k v params) = handleGetPost params)
  /\ mem "include_content" (properties getPostTool) = true
  /\ (mem k ("post_type" :: query_keys) = false ->
      handleListPosts (Some (set k v params)) = handleListPosts (Some params)).
Proof.
  repeat split.
  - intros H. unfold handleCreatePost. simpl properties in H. unread H. reflexivity.
  - intros H. unfold handleUpdatePost. simpl properties in H. unread H. reflexivity.
  - intros H. unfold handleDeletePost. simpl properties in H. unread H. reflexivity.
  - intros H. unfold handleGetPostRevisions. simpl properties in H. unread H. reflexivity.
  - intros H. unfold handleGetPost. unread H. reflexivity.
  - intros H. unfold handleListPosts, or_empty.
    rewrite mem_cons in H. apply orb_false_iff in H. destruct H as [E H].
    apply eqb_sym_false in E. rewrite (list_query_unread _ _ _ H).
    now rewrite prop_set_other.
Qed.

(** The tools for verhalen and reviews list posts of their own type,
    whatever [post_type] the arguments have, also when there are no
    arguments; the query is built from the other arguments as for any
    list.  The tool that lists posts asks the client for the posts of a
    type exactly when [post_type] is truthy. *)
Theorem fixed_post_types (params : option Object) :
  handleListVerhalen params = client_getPosts (list_query (or_empty params)) (VString "verhalen")
  /\ handleListReviews params = client_getPosts (list_query (or_empty params)) (VString "review")
  /\ handleListPosts params
     = (if truthy_value (prop "post_type" (or_empty params))
        then client_getPosts (list_query (or_empty params)) (prop "post_type" (or_empty params))
        else PostHandlers_handleListPosts (list_query (or_empty params))).
Proof.
  unfold handleListVerhalen, handleListReviews, handleListPosts. simpl or_empty.
  rewrite !prop_set_same, !list_query_unread by reflexivity.
  repeat split.
Qed.

Lemma prop_copy k k' params target :
  prop k (copy k' params target)
  = if String.eqb k k' && defined (prop k' params) then prop k' params else prop k target.
Proof.
  unfold copy. destruct (defined (prop k' params)); [|now rewrite andb_false_r].
  rewrite andb_true_r. destruct (String.eqb k k') eqn:E.
  - apply String.eqb_eq in E. subst k'. apply prop_set_same.
  - apply prop_set_other. exact E.
Qed.

Lemma prop_set k k' v target :
  prop k (set k' v target) = if String.eqb k k' then v else prop k target.
Proof.
  destruct (String.eqb k k') eqn:E.
  - apply String.eqb_eq in E. subst k'. apply prop_set_same.
  - apply prop_set_other. exact E.
Qed.

Lemma prop_list_query params k :
  prop k (list_query params)
  = if mem k query_keys
    then if String.eqb k "status" && defined (prop k params)
         then status_array (prop k params)
         else prop k params
    else VUndefined.
Proof.
  unfold list_query. rewrite !prop_copy.
  assert (St : forall q,
            prop k (if defined (prop "status" params)
                    then if isArray (prop "status" params)
                         then set "status" (prop "status" params) q
                         else set "status" (VArray [prop "status" params]) q
                    else q)
            = if String.eqb k "status" && defined (prop "status" params)
              then status_array (prop "status" params) else prop k q).
  { intros q. unfold status_array.
    destruct (defined (prop "status" params)); [|now rewrite andb_false_r].
    rewrite andb_true_r.
    destruct (isArray (prop "status" params)); apply prop_set. }
  rewrite St, !prop_copy. clear St.
  unfold mem, query_keys. cbn [existsb].
  repeat match goal with
         | |- context [String.eqb k ?x] =>
             let E := fresh "E" in
             destruct (String.eqb k x) eqn:E;
             [apply String.eqb_eq in E; subst k; cbn;
              match goal with
              | |- context [defined ?v] => destruct v; reflexivity
              end|]
         end.
  reflexivity.
Qed.

(** The query that [handleListPosts] builds has the nine members page,
    per_page, search, orderby, order, status, categories, tags and
    offset, each with the value of the argument of that name when the
    argument is defined, and nothing else; its status is an array, the
    array given or the array of the one status given.  Building the
    query from a query changes nothing. *)
Theorem list_query_members (params : Object) :
  (forall k,
     prop k (list_query params)
     = if mem k query_keys
       then if String.eqb k "status" && defined (prop k params)
            then status_array (prop k params)
            else prop k params
       else VUndefined)
  /\ (defined (prop "status" params) = true ->
      isArray (prop "status" (list_query params)) = true)
  /\ list_query (list_query params) = list_query params.
Proof.
  split; [exact (prop_list_query params)|]. split.
  - intros H. rewrite prop_list_query. cbn. rewrite H. unfold status_array.
    destruct (isArray (prop "status" params)) eqn:E; [exact E | reflexivity].
  - unfold list_query at 1. unfold copy. rewrite !prop_list_query. cbn.
    unfold list_query, copy, status_array.
    destruct (defined (prop "status" params)) eqn:Ds.
    + destruct (isArray (prop "status" params)) eqn:As.
      * rewrite Ds, As. reflexivity.
      * cbn. reflexivity.
    + rewrite Ds. reflexivity.
Qed.

End PostTools.

(** ** Closed instances *)

Import Plain Cases.

(** C1, as stated, fails: an attempt answered with 429 while two more
    attempts were allowed.  No further attempt is made, but the caller
    receives a WordPressAPIError, not a RateLimitError. *)
Lemma rate_limit_error_is_wrapped :
  let call := request platform "GET" "posts" DNull no_options in
  existsb rate_limited (schedule_of (events_of call limited)) = true
  /\ l_maxAttempts (get_posts limited) = 3
  /\ attempts_made (events_of call limited) = [0]
  /\ fst (call limited)
     = Throw (ThrownError
                (WordPressAPIError "Request failed after 3 attempts: slow down" None))
  /\ ~ (exists msg retryAfter,
          fst (call limited) = Throw (ThrownError (RateLimitError msg retryAfter))).
Proof.
  vm_compute. repeat split. intros (msg & ra & H). discriminate H.
Qed.

Lemma rate_limit_stops_the_call_witness :
  let call := request platform "GET" "posts" DNull no_options in
  let sched := schedule_of (events_of call limited) in
  existsb rate_limited sched = true
  /\ exists pre i u fo l r,
       sched = (pre ++ [EvFetch (Primary i) u fo (Resolves l r)])%list
       /\ status r = 429
       /\ existsb rate_limited pre = false
       /\ rateLimitHits (stats_of (snd (call limited))) = rateLimitHits (stats_of limited) + 1
       /\ failedRequests (stats_of (snd (call limited)))
          = failedRequests (stats_of limited) + 1
       /\ exists ra,
            fst (call limited)
            = Throw (ThrownError
                       (WordPressAPIError
                          (failure_message (get_posts limited)
                             (RateLimitError (error_message r) ra)) None)).
Proof.
  split; [reflexivity|].
  exact (proj1 (rate_limit_stops_the_call platform "GET" "posts" DNull no_options limited
                  eq_refl)).
Defined.

(** C2, as stated, fails: the error of a 403 response is neither a
    timeout nor a connection loss, two more attempts were allowed, and
    it is not retried. *)
Lemma permission_error_not_retried :
  let call := request platform "GET" "posts" DNull no_options in
  let thrown := ThrownError (WordPressAPIError "HTTP 403: Forbidden" (Some 403)) in
  l_maxAttempts (get_posts forbidden) = 3
  /\ ~ timeout_or_connection_loss thrown
  /\ on_error (get_posts forbidden) 0 unknown_error thrown forbidden
     = (Ok (Break (WordPressAPIError "HTTP 403: Forbidden" (Some 403))), forbidden)
  /\ attempts_made (events_of call forbidden) = [0]
  /\ fst (call forbidden)
     = Throw (ThrownError
                (WordPressAPIError
                   "Request failed after 3 attempts: HTTP 403: Forbidden" None)).
Proof.
  split; [reflexivity|]. split.
  - intros [H|[H|H]]; vm_compute in H; discriminate H.
  - vm_compute. repeat split.
Qed.

Lemma retry_policy_of_thrown_errors_witness :
  let thrown := ThrownError (new_TypeError "fetch failed") in
  is_RateLimit_thrown thrown = false
  /\ on_error (get_posts flaky) 0 unknown_error thrown flaky
     = (Ok (Continue (new_TypeError "fetch failed")), snd (delay Backoff 1000 flaky)).
Proof.
  split; [reflexivity|].
  exact (proj2 (proj2 (retry_policy_of_thrown_errors (get_posts flaky) 0 unknown_error
                         (ThrownError (new_TypeError "fetch failed")) flaky eq_refl))).
Defined.

(** C3, as stated, fails: a multipart form that is recognised by its
    [append] function, and is sent as the form it is, is not an instance
    of the imported class and has no [pipe] function.  With the network
    down the call makes the three attempts that are configured. *)
Lemma form_without_pipe_is_retried :
  let call := request platform "POST" "media" web_form no_options in
  attachRequestBody [("Content-Type", "application/json")] web_form = inr ([], PData web_form)
  /\ isRetryableBody web_form = true
  /\ attempts_made (events_of call offline) = [0; 1; 2]
  /\ fst (call offline)
     = Throw (ThrownError
                (WordPressAPIError "Request failed after 3 attempts: fetch failed" None)).
Proof. vm_compute. repeat split. Qed.

Lemma non_replayable_body_single_attempt_witness :
  let call := request platform "GET" "posts" DNull no_options in
  (prepare (get_posts offline) = inr get_options
   /\ forallb (retried_failure (l_requestTimeout (get_posts offline))) (net (world offline))
      = true)
  /\ l_maxAttempts (get_posts offline) = 3
  /\ attempts_made (events_of call offline) = [0; 1; 2]
  /\ exists e,
       fst (call offline)
       = Throw (ThrownError
                  (WordPressAPIError ("Request failed after 3 attempts: " ++ message e) None)).
Proof.
  split; [split; reflexivity|].
  pose proof (non_replayable_body_single_attempt platform "GET" "posts" DNull no_options
                offline) as (Hmax & _ & Hall).
  split; [exact Hmax|].
  exact (Hall get_options eq_refl eq_refl).
Defined.

(** C4, as stated, fails: the call below receives 404 twice, makes two
    fallback requests, both of which fail, and returns the value of its
    third attempt; no error reaches the caller. *)
Lemma fallback_failure_retried :
  let call := request platform "GET" "posts" DNull no_options in
  attempts_made (events_of call not_found_then_found) = [0; 1; 2]
  /\ map fst (fallbacks (events_of call not_found_then_found))
     = ["https://example.com/index.php?rest_route=/wp/v2/posts";
        "https://example.com/index.php?rest_route=/wp/v2/posts"]
  /\ fst (call not_found_then_found) = Ok (JOther "[]").
Proof. vm_compute. repeat split. Qed.

Lemma not_found_fallback_witness :
  let L := get_posts permalinks_off in
  let r := mkResponse 404 "Not Found" EmptyString (inr "Unexpected end of JSON input") in
  let rest := [response 200 "OK" "[]" (inl (JOther "[]"))] in
  let u := mkURL "https:" "example.com" "example.com" "/wp-json/wp/v2/posts"
             "https://example.com" EmptyString in
  (0 < l_maxAttempts L
   /\ prepare L = inr get_options
   /\ net (world permalinks_off) = Resolves 5 r :: rest
   /\ status r = 404
   /\ includes "/wp-json/wp/v2" (l_url L) = true
   /\ member_includes "Beiträge zu erstellen" (error_message_value r) = inr false
   /\ false && includes "media" (l_endpoint L) = false
   /\ URL_parse platform (l_url L) = Some u)
  /\ fallbacks (events_of (attempt_once platform L 0 unknown_error) permalinks_off)
     = [("https://example.com/index.php?rest_route=/wp/v2/posts", get_options)]
  /\ fst (attempts platform L 3 0 unknown_error permalinks_off) = Ok (JOther "[]")
  /\ successfulRequests (stats_of (snd (attempts platform L 3 0 unknown_error permalinks_off)))
     = successfulRequests (stats_of permalinks_off) + 1.
Proof.
  split; [repeat split|].
  exact (not_found_fallback platform (get_posts permalinks_off) 2 0 unknown_error permalinks_off
           get_options 5
           (mkResponse 404 "Not Found" EmptyString (inr "Unexpected end of JSON input"))
           [response 200 "OK" "[]" (inl (JOther "[]"))]
           (mkURL "https:" "example.com" "example.com" "/wp-json/wp/v2/posts"
              "https://example.com" EmptyString)
           false eq_refl eq_refl eq_refl eq_refl eq_refl eq_refl eq_refl eq_refl).
Defined.





(** The scheme is tested before the host: ftp://localhost/ is refused
    with the scheme error, in production mode and outside it. *)
Lemma non_http_scheme_rejected_first :
  let options := example_options "ftp://localhost/" in
  option_map hostname (URL_parse platform "ftp://localhost/") = Some "localhost"
  /\ constructor platform (cfg true) options
     = inl (new_Error "Only HTTP and HTTPS protocols are allowed")
  /\ constructor platform (cfg true) options
     <> inl (new_Error "Private/localhost URLs not allowed in production")
  /\ constructor platform (cfg false) options
     = inl (new_Error "Only HTTP and HTTPS protocols are allowed").
Proof.
  vm_compute. repeat split. intros H. discriminate H.
Qed.

(** The hosts the client names are refused in production mode. *)
Lemma named_hosts_rejected :
  Forall (fun url =>
            constructor platform (cfg true) (example_options url)
            = inl (new_Error "Private/localhost URLs not allowed in production")
            /\ exists c, constructor platform (cfg false) (example_options url) = inr c)
    ["http://localhost/wp/"; "http://127.0.0.1/"; "https://10.1.2.3/"; "http://172.16.0.9/";
     "http://172.31.255.1:8080/"; "http://192.168.1.10/"].
Proof. repeat constructor; vm_compute; eauto. Qed.

Lemma loopback_accepted_in_production_witness :
  let url := "http://[::1]/" in
  let parsed := mkURL "http:" "[::1]" "[::1]" "/" "http://[::1]" EmptyString in
  let url4 := "http://127.0.0.2/" in
  let parsed4 := mkURL "http:" "127.0.0.2" "127.0.0.2" "/" "http://127.0.0.2" EmptyString in
  ((o_baseUrl (example_options url) = Some url
    /\ truthy url = true
    /\ URL_parse platform url = Some parsed
    /\ (protocol parsed = "http:" \/ protocol parsed = "https:")
    /\ other_loopback (toLowerCase (hostname parsed))
    /\ isProduction (cfg true) = true)
   /\ exists c, constructor platform (cfg true) (example_options url) = inr c
                /\ baseUrl c = "http://[::1]")
  /\ ((o_baseUrl (example_options url4) = Some url4
       /\ truthy url4 = true
       /\ URL_parse platform url4 = Some parsed4
       /\ (protocol parsed4 = "http:" \/ protocol parsed4 = "https:")
       /\ other_loopback (toLowerCase (hostname parsed4))
       /\ isProduction (cfg true) = true)
      /\ exists c, constructor platform (cfg true) (example_options url4) = inr c
                   /\ baseUrl c = "http://127.0.0.2").
Proof.
  assert (L6 : other_loopback (toLowerCase "[::1]")) by (left; reflexivity).
  assert (L4 : other_loopback (toLowerCase "127.0.0.2")).
  { right. exists "0.0.2". split; [reflexivity | discriminate]. }
  split.
  - split; [repeat split; solve [reflexivity | now left | exact L6]|].
    exact (proj2 (loopback_accepted_in_production platform (cfg true)
                    (example_options "http://[::1]/") "http://[::1]/"
                    (mkURL "http:" "[::1]" "[::1]" "/" "http://[::1]" EmptyString)
                    eq_refl eq_refl eq_refl (or_introl eq_refl) L6 eq_refl)).
  - split; [repeat split; solve [reflexivity | now left | exact L4]|].
    exact (proj2 (loopback_accepted_in_production platform (cfg true)
                    (example_options "http://127.0.0.2/") "http://127.0.0.2/"
                    (mkURL "http:" "127.0.0.2" "127.0.0.2" "/" "http://127.0.0.2" EmptyString)
                    eq_refl eq_refl eq_refl (or_introl eq_refl) L4 eq_refl)).
Defined.

(** The slash that remains: a path that ends in three slashes is stored
    with one slash at its end. *)
Lemma three_trailing_slashes_leave_one :
  option_map baseUrl
    (match constructor platform (cfg false) (example_options "https://example.com/a///") with
     | inr c => Some c
     | inl _ => None
     end)
  = Some "https://example.com/a/".
Proof. reflexivity. Qed.

(** C10 fails on the code.  A POST whose data is an object that
    JSON.stringify rejects: attachRequestBody throws outside the [try]
    of the loop, the call throws that TypeError, totalRequests has been
    incremented, and neither failedRequests nor successfulRequests is:
    afterwards totalRequests is not their sum. *)
Theorem unserialisable_body_escapes_accounting :
  let call := request platform "POST" "posts" circular no_options in
  let before := stats_of no_content in
  let after := stats_of (snd (call no_content)) in
  fst (call no_content)
  = Throw (ThrownError (new_TypeError "Converting circular structure to JSON"))
  /\ totalRequests after = totalRequests before + 1
  /\ failedRequests after = failedRequests before
  /\ successfulRequests after = successfulRequests before
  /\ totalRequests after <> successfulRequests after + failedRequests after.
Proof.
  vm_compute. repeat split. intros H. discriminate H.
Qed.


(** ** Closed instances of the further properties *)

Import Scenes.

Lemma credentials_header_witness :
  option_map toLowerCase (auth_method (auth example_client)) = Some "api-key"
  /\ header "X-API-Key" (request_headers platform example_client with_headers) = Some "key".
Proof.
  split; [reflexivity|].
  exact (proj1 (proj2 (proj2 (proj2
           (credentials_header platform example_client with_headers "api-key" eq_refl))))
           eq_refl "key" eq_refl eq_refl).
Defined.

Lemma caller_headers_kept_witness :
  (distinct_keys (caller_headers with_headers) = true
   /\ is_auth_header "User-Agent" = false)
  /\ header "User-Agent" (request_headers platform example_client with_headers) = Some "mine".
Proof.
  split; [split; reflexivity|].
  exact (caller_headers_kept platform example_client with_headers "User-Agent" eq_refl eq_refl).
Defined.

Lemma response_time_is_call_duration_witness :
  let call := request platform "GET" "posts" DNull no_options in
  let s' := snd (call no_content) in
  call no_content = (Ok JNull, s')
  /\ response_times (events_of call no_content) = [now (world s') - now (world no_content)]
  /\ stats_lastRequestTime (stats_of s') = Some (now (world s')).
Proof.
  assert (H : request platform "GET" "posts" DNull no_options no_content
              = (Ok JNull, snd (request platform "GET" "posts" DNull no_options no_content)))
    by (vm_compute; reflexivity).
  split; [exact H|].
  pose proof (response_time_is_call_duration platform "GET" "posts" DNull no_options
                no_content JNull
                (snd (request platform "GET" "posts" DNull no_options no_content)) H)
    as (H1 & _ & _ & H4).
  split; [exact H1 | exact H4].
Defined.

Lemma form_body_headers_witness :
  (sends_body "POST" = true /\ append_is_function form = true)
  /\ Forall (sent_with
               (fun fo =>
                  fo_body fo = Some (PData (DObject form))
                  /\ header "Content-Type" (fo_headers fo) = None))
       (events_of (request platform "POST" "media" (DObject form) no_options)
          (answered example_client refusal)).
Proof.
  split; [split; reflexivity|].
  eapply Forall_impl;
    [|exact (form_body_headers platform "POST" "media" form no_options
               (answered example_client refusal) eq_refl eq_refl)].
  intros [i|k u fo out|why ms|dd]; simpl; try exact (fun _ => I).
  intros (_ & B & C & _). split; [exact B | exact C].
Defined.

Lemma jwt_login_witness :
  let s := answered jwt_client token_answer in
  (option_map toLowerCase (auth_method (auth (client s))) = Some "jwt"
   /\ net (world s) = [Resolves 5 token_answer]
   /\ ok token_answer = true
   /\ parsed token_answer = inl (JObject None None (Some "abc") "token"))
  /\ fst (authenticate platform s) = Ok true
  /\ jwtToken (client (snd (authenticate platform s))) = Some "abc"
  /\ header "Authorization"
       (request_headers platform (client (snd (authenticate platform s))) no_options)
     = Some "Bearer abc".
Proof.
  split; [repeat split|].
  pose proof (jwt_login platform (answered jwt_client token_answer) 5 token_answer []
                (JObject None None (Some "abc") "token")
                eq_refl eq_refl eq_refl eq_refl eq_refl
                (fun H : JObject None None (Some "abc") "token" = JNull =>
                   eq_ind (JObject None None (Some "abc") "token")
                     (fun v => match v with JObject _ _ _ _ => True | _ => False end)
                     I JNull H))
    as (H1 & _ & H3 & _ & _ & _ & H7).
  split; [exact H1|]. split; [exact H3|].
  exact (H7 no_options eq_refl).
Defined.

Lemma jwt_login_refused_witness :
  let s := answered jwt_client refusal in
  (option_map toLowerCase (auth_method (auth (client s))) = Some "jwt"
   /\ net (world s) = [Resolves 5 refusal]
   /\ ok refusal = false)
  /\ fst (authenticate platform s)
     = Throw (ThrownError
                (AuthenticationError "JWT authentication failed: HTTP 403: Forbidden"
                   (Some "jwt")))
  /\ authFailures (stats_of (snd (authenticate platform s))) = 1.
Proof.
  split; [repeat split|].
  pose proof (jwt_login_refused platform (answered jwt_client refusal) (Resolves 5 refusal) []
                eq_refl eq_refl eq_refl eq_refl)
    as (H1 & H2 & _).
  split; [exact H1 | rewrite H2; reflexivity].
Defined.

Lemma basic_login_is_one_call_witness :
  let s := answered basic_client empty_answer in
  (auth_method (auth (client s)) = Some "basic"
   /\ truthy_opt (username (auth (client s))) && truthy_opt (password (auth (client s))) = true)
  /\ totalRequests (stats_of (snd (authenticate platform s))) = 1
  /\ fst (authenticate platform s) = Ok true.
Proof.
  split; [split; reflexivity|].
  pose proof (basic_login_is_one_call platform (answered basic_client empty_answer) "basic"
                eq_refl (or_intror eq_refl) eq_refl)
    as (_ & H2 & _ & _).
  split; [exact H2 | reflexivity].
Defined.

Lemma missing_credentials_fail_offline_witness :
  let s := answered cookie_client empty_answer in
  (option_map toLowerCase (auth_method (auth (client s))) = Some "cookie"
   /\ truthy_opt (nonce (auth (client s))) = false)
  /\ fails_offline platform s
       (AuthenticationError "Nonce is required for cookie authentication" (Some "cookie")).
Proof.
  split; [split; reflexivity|].
  exact (proj1 (proj2
           (missing_credentials_fail_offline platform (answered cookie_client empty_answer)
              "cookie" eq_refl))
           eq_refl eq_refl).
Defined.

Lemma method_case_mismatch_witness :
  let s := answered capital_client empty_answer in
  (auth_method (auth (client s)) = Some "App-Password"
   /\ toLowerCase "App-Password" = "app-password"
   /\ String.eqb "App-Password" "app-password" = false
   /\ truthy_opt (username (auth (client s))) && truthy_opt (appPassword (auth (client s))) = true
   /\ truthy_opt (password (auth (client s))) = false)
  /\ header "Authorization" (request_headers platform (client s) no_options)
     = Some (basic_credentials platform (Some "ann") (Some "abcd efgh"))
  /\ fails_offline platform s
       (AuthenticationError "Username and password are required for Basic authentication"
          (Some "App-Password")).
Proof.
  split; [repeat split|].
  exact (method_case_mismatch platform (answered capital_client empty_answer) "App-Password"
           no_options eq_refl eq_refl eq_refl eq_refl eq_refl).
Defined.

Lemma local_logins_witness :
  let s := answered example_client empty_answer in
  option_map toLowerCase (auth_method (auth (client s))) = Some "api-key"
  /\ authenticate platform s
     = (Ok true, mkState (set_session true None example_client) (world s)).
Proof.
  split; [reflexivity|].
  exact (proj1 (local_logins platform (answered example_client empty_answer) "api-key"
                  eq_refl (or_introl eq_refl))).
Defined.

Lemma unconfigured_client_fails_offline_witness :
  let options := mkClientOptions (Some "https://example.com/") None None None in
  (constructor platform bare options = inr bare_client
   /\ o_auth options = None
   /\ truthy_opt (wp_username bare) = false
   /\ truthy_opt (wp_apiKey bare) = false
   /\ truthy_opt (cookieNonce bare) = false)
  /\ auth_method (auth bare_client) = Some "basic"
  /\ fails_offline platform (mkState bare_client two_answers)
       (AuthenticationError "Username and password are required for Basic authentication"
          (Some "basic")).
Proof.
  split; [repeat split|].
  exact (unconfigured_client_fails_offline platform bare
           (mkClientOptions (Some "https://example.com/") None None None)
           bare_client two_answers eq_refl eq_refl eq_refl eq_refl eq_refl).
Defined.

Lemma validated_endpoint_is_plain_witness :
  validateEndpoint "posts/42" = true
  /\ truthy "posts/42" = true
  /\ includes ".." "posts/42" = false
  /\ includes "?" "posts/42" = false.
Proof.
  split; [reflexivity|].
  pose proof (validated_endpoint_is_plain "posts/42" eq_refl) as (H1 & _ & H3 & _ & H5 & _).
  split; [exact H1|]. split; [exact H3 | exact H5].
Defined.

Lemma fallback_url_shape_witness :
  (pathname blog_posts = "/blog" ++ "/wp-json/wp/v2" ++ "/posts"
   /\ includes "/wp-json/wp/v2" ("/blog" ++ "/wp-json/wp/v") = false)
  /\ fallback_url blog_posts
     = "https://example.com/index.php?rest_route=/wp/v2/blog/posts&page=2".
Proof.
  split; [split; reflexivity|].
  exact (fallback_url_shape blog_posts "/blog" "/posts" eq_refl eq_refl).
Defined.

Lemma absolute_endpoint_gets_credentials_witness :
  (startsWith "http" "https://other.example/x" = true /\ sends_body "GET" = false)
  /\ Forall (primary_sent
               (fun url fo =>
                  url = "https://other.example/x"
                  /\ fo_headers fo = request_headers platform example_client no_options))
       (events_of (request platform "GET" "https://other.example/x" DNull no_options)
          (answered example_client empty_answer)).
Proof.
  split; [split; reflexivity|].
  exact (absolute_endpoint_gets_credentials platform "GET" "https://other.example/x" DNull
           no_options (answered example_client empty_answer) eq_refl eq_refl).
Defined.

Lemma post_writes_witness :
  let s := answered example_client empty_answer in
  (append_is_function literal = false /\ pipe_is_function literal = false
   /\ stringify literal = inl "{}")
  /\ totalRequests
       (stats_of (snd (createPost platform (DObject literal) None s))) = 1
  /\ l_maxAttempts (request_locals platform s "POST" "posts" (DObject literal) no_options) = 3.
Proof.
  split; [repeat split|].
  pose proof (post_writes platform (answered example_client empty_answer) 7 literal "{}"
                eq_refl eq_refl eq_refl)
    as (_ & _ & H3 & _ & H5).
  split; [exact H3 | exact H5].
Defined.

Lemma media_upload_forbidden_witness :
  let s := answered example_client refusal in
  let L := request_locals platform s "POST" "media" (DFormData []) no_options in
  (isRetryableBody (DFormData []) = false
   /\ prepare L = inr upload_options
   /\ includes "media" "media" = true
   /\ net (world s) = [Resolves 5 refusal]
   /\ status refusal = 403)
  /\ l_maxAttempts L = 1
  /\ fallbacks (events_of (request platform "POST" "media" (DFormData []) no_options) s) = []
  /\ failedRequests
       (stats_of (snd (request platform "POST" "media" (DFormData []) no_options s))) = 1.
Proof.
  split; [repeat split|].
  pose proof (media_upload_forbidden platform "media" (DFormData []) no_options
                (answered example_client refusal) upload_options 5 refusal []
                eq_refl eq_refl eq_refl eq_refl eq_refl)
    as (H1 & _ & _ & H4 & H5).
  split; [exact H1|]. split; [exact H4 | rewrite H5; reflexivity].
Defined.

Lemma uninitialized_client_makes_no_request_witness :
  let s := Composed.mkCState false 0%nat in
  let m := Composed.MGetPost unit unit 5 None in
  Composed.initialized s = false
  /\ (exists t, fst (Composed.run tt (fun _ => tt) tt counting m s) = Throw t)
  /\ Composed.initialized (snd (Composed.run tt (fun _ => tt) tt counting m s)) = false.
Proof.
  split; [reflexivity|].
  pose proof (uninitialized_client_makes_no_request nat unit unit tt (fun _ => tt) tt counting
                (Composed.MGetPost unit unit 5 None) (Composed.mkCState false 0%nat) eq_refl)
    as (H1 & H2 & _).
  split; [exact H1 | exact H2].
Defined.
